(** * ToolFlowBuilder (PahliAi/TFB): node-graph integrity engine

    A shallow embedding of the naming, validation, cascading-delete and
    execution logic of the workflow builder, and the properties of its
    specification that concern them.

    Conventions of the embedding.
    - A JavaScript string is a [string]: a sequence of code units below 256
      (Latin-1).  [toLowerCase] and [trim] act on that range as ECMAScript
      prescribes.
    - A [Map] keyed by strings is a [gmap string _], a [Set] of ids is a
      [gset string].
    - Objects that are mutated in place and shared between arrays live in a
      store (a list indexed by address); arrays hold addresses.
    - Recursion whose termination depends on the run-time data (the two
      depth-first searches, the conflict-resolution loop) takes a fuel
      argument; [None] stands for "fuel exhausted" and every entry point
      comes with a totality lemma showing that the fuel it passes suffices.
    - An object literal used as a table (rules, extensions, language codes)
      is an association list.  Read with a key that comes from outside
      ([rules[nodeType]]), it answers as JavaScript does: with its own
      property, else with the member of [Object.prototype] of that name when
      there is one, else with [undefined] ([JS.get]).  The tables that the
      code reads behind a guard which lets only listed keys through (those of
      [NodeColorManager], read after [findToolById] has found the tool) are
      read among their own properties ([assoc]).
    - A function that throws returns the error in the left summand of a sum,
      its value in the right one.
    - The event bus is modelled by the events that were emitted: a log in
      the emitter, or a list that the function returns.  The subscribers of
      the events emitted here touch the page or the state of another
      component (the one for request-cascading-delete opens the preview
      dialog and goes on only after the answer of the user); none changes
      the state of the emitter before the emitting function returns. *)

From Stdlib Require Import Ascii String List Arith Lia Permutation Sorted.
From stdpp Require Import base option list gmap sets strings pretty sorting.

Open Scope string_scope.

(** ** JavaScript string and array primitives *)

Module JS.

(** [s.startsWith(p)] *)
Fixpoint startsWith (p s : string) : bool :=
  match p, s with
  | EmptyString, _ => true
  | String a p', String b s' => if Ascii.eqb a b then startsWith p' s' else false
  | String _ _, EmptyString => false
  end.

(** [s.includes(sub)] *)
Fixpoint includes (sub s : string) : bool :=
  if startsWith sub s then true
  else match s with
       | EmptyString => false
       | String _ s' => includes sub s'
       end.

(** [s.slice(n)] for [0 <= n] *)
Fixpoint drop (n : nat) (s : string) : string :=
  match n, s with
  | O, _ => s
  | S n', String _ s' => drop n' s'
  | S _, EmptyString => EmptyString
  end.

(** [s.replace(pat, rep)] with a string pattern: the first occurrence only. *)
Fixpoint replaceFirst (pat rep s : string) : string :=
  if startsWith pat s then rep +:+ drop (String.length pat) s
  else match s with
       | EmptyString => EmptyString
       | String c s' => String c (replaceFirst pat rep s')
       end.

(** [s.replace(/(suf1|suf2|...)$/, '')] where the alternatives are literal
    strings: the leftmost position at which the rest of the input is one of
    the alternatives is where the match starts. *)
Fixpoint stripSuffix (sufs : list string) (s : string) : string :=
  if existsb (String.eqb s) sufs then EmptyString
  else match s with
       | EmptyString => EmptyString
       | String c s' => String c (stripSuffix sufs s')
       end.

(** The part of [s] from its last ['.'] on, if it has one
    ([s.substring(s.lastIndexOf('.'))] when [lastIndexOf] is not [-1]). *)
Fixpoint fromLastDot (s : string) : option string :=
  match s with
  | EmptyString => None
  | String c s' =>
      match fromLastDot s' with
      | Some r => Some r
      | None => if Ascii.eqb c "."%char then Some s else None
      end
  end.

Definition lowerChar (c : ascii) : ascii :=
  let n := nat_of_ascii c in
  if (((65 <=? n) && (n <=? 90)) || ((192 <=? n) && (n <=? 222) && negb (n =? 215)))%nat
  then ascii_of_nat (n + 32) else c.

(** [s.toLowerCase()] *)
Fixpoint toLowerCase (s : string) : string :=
  match s with
  | EmptyString => EmptyString
  | String c s' => String (lowerChar c) (toLowerCase s')
  end.

(** White space and line terminators below 256. *)
Definition isWhiteSpace (c : ascii) : bool :=
  let n := nat_of_ascii c in
  (((9 <=? n) && (n <=? 13)) || (n =? 32) || (n =? 160))%nat.

Fixpoint trimStart (s : string) : string :=
  match s with
  | EmptyString => EmptyString
  | String c s' => if isWhiteSpace c then trimStart s' else s
  end.

(** [s.trim()] *)
Definition trim (s : string) : string :=
  String.rev (trimStart (String.rev (trimStart s))).

(** [arr.includes(x)] on an array of strings *)
Definition arrIncludes (x : string) (arr : list string) : bool :=
  existsb (String.eqb x) arr.

(** [arr.join(sep)] *)
Definition join (sep : string) (arr : list string) : string :=
  String.concat sep arr.

(** [arr.sort()] with the default comparator on an array of strings: the
    elements in ascending order of their code units.  The standard asks for
    a stable sort; a merge sort is one. *)
Definition sort (arr : list string) : list string :=
  merge_sort String.le arr.

(** [s.endsWith(suf)] *)
Fixpoint endsWith (suf s : string) : bool :=
  if String.eqb s suf then true
  else match s with
       | EmptyString => false
       | String _ s' => endsWith suf s'
       end.

(** [[...new Set(arr)]]: the distinct elements in order of first occurrence. *)
Fixpoint dedupe (seen arr : list string) : list string :=
  match arr with
  | [] => []
  | x :: arr' =>
      if arrIncludes x seen then dedupe seen arr' else x :: dedupe (x :: seen) arr'
  end.

(** *** Reading a property of an object literal *)

(** The names of the members of [Object.prototype], which every object
    literal inherits. *)
Definition objectPrototype : list string :=
  ["constructor"; "hasOwnProperty"; "isPrototypeOf"; "propertyIsEnumerable";
   "toLocaleString"; "toString"; "valueOf"; "__proto__";
   "__defineGetter__"; "__defineSetter__"; "__lookupGetter__"; "__lookupSetter__"].

(** What [object[key]] finds in an object literal: a property of the
    literal, a member of [Object.prototype] (a function, or the prototype
    itself under [__proto__]: an object that is truthy and has none of the
    fields of the entries of the table), or nothing. *)
Inductive Property (A : Type) : Type :=
| Own (value : A)
| Inherited
| Undefined.

Arguments Own {A} value.
Arguments Inherited {A}.
Arguments Undefined {A}.

(** [object[key]] *)
Fixpoint get {A} (key : string) (object : list (string * A)) : Property A :=
  match object with
  | [] => if arrIncludes key objectPrototype then Inherited else Undefined
  | (name, value) :: object' => if String.eqb key name then Own value else get key object'
  end.

(** A string, or the member of [Object.prototype] that the read of a table
    of strings has found in its place. *)
Inductive Value :=
| Str (s : string)
| Member (name : string).

(** [String(v)], which a template literal and [+] on strings apply.  The
    text of a built-in function is the one V8 gives. *)
Definition toString (v : Value) : string :=
  match v with
  | Str s => s
  | Member name =>
      if String.eqb name "__proto__" then "[object Object]"
      else "function " +:+ (if String.eqb name "constructor" then "Object" else name)
           +:+ "() { [native code] }"
  end.

(** The [TypeError] of reading a property of [undefined]. *)
Inductive TypeError :=
| CannotReadProperties (property : string).

(** [n >= m] where [m] may be [undefined]: the comparison is then false. *)
Definition geq (n : nat) (m : option nat) : bool :=
  match m with
  | Some m => (m <=? n)%nat
  | None => false
  end.

(** [n < m] where [m] may be [undefined]: the comparison is then false. *)
Definition lt (n : nat) (m : option nat) : bool :=
  match m with
  | Some m => (n <? m)%nat
  | None => false
  end.

End JS.

(** ** OutputNaming: label-based output names *)

Module OutputNaming.

(** The only state of the class that the naming functions read or write. *)
Record t := { conflictCounter : gmap string nat }.

(** [new OutputNaming()] *)
Definition new : t := {| conflictCounter := ∅ |}.

(** The template literal [`${baseName}${counter}${extension}`]. *)
Definition numbered (baseName : string) (counter : nat) (extension : string) : string :=
  baseName +:+ pretty counter +:+ extension.

(** The loop [while (conflictCounter.has(resolvedName)) { counter++; ... }];
    the result is the value of [counter] on exit. *)
Fixpoint whileHas (fuel : nat) (cc : gmap string nat)
    (baseName extension : string) (counter : nat) : option nat :=
  match fuel with
  | O => None
  | S fuel' =>
      match cc !! numbered baseName counter extension with
      | Some _ => whileHas fuel' cc baseName extension (S counter)
      | None => Some counter
      end
  end.

Definition resolveNamingConflict (baseName extension : string) (self : t)
    : option (string * t) :=
  let fullName := baseName +:+ extension in
  match conflictCounter self !! fullName with
  | None =>
      Some (fullName, {| conflictCounter := <[fullName := 1]> (conflictCounter self) |})
  | Some c =>
      match whileHas (S (size (conflictCounter self))) (conflictCounter self)
              baseName extension (c + 1) with
      | None => None
      | Some counter =>
          let resolvedName := numbered baseName counter extension in
          Some (resolvedName,
                {| conflictCounter :=
                     <[resolvedName := 1]> (<[fullName := counter]> (conflictCounter self)) |})
      end
  end.

(** A sequence of calls of the resolver, each with its own base name and
    extension; the names handed out, in order. *)
Fixpoint resolveAll (calls : list (string * string)) (self : t) : option (list string * t) :=
  match calls with
  | [] => Some ([], self)
  | (baseName, extension) :: calls' =>
      match resolveNamingConflict baseName extension self with
      | None => None
      | Some (name, self') =>
          match resolveAll calls' self' with
          | None => None
          | Some (names, self'') => Some (name :: names, self'')
          end
      end
  end.

Definition langCodes : list (string * string) :=
  [("english", "en"); ("dutch", "nl"); ("french", "fr"); ("german", "de");
   ("spanish", "es"); ("italian", "it"); ("portuguese", "pt")].

Fixpoint assoc {A} (k : string) (tbl : list (string * A)) : option A :=
  match tbl with
  | [] => None
  | (k', v) :: tbl' => if String.eqb k k' then Some v else assoc k tbl'
  end.

(** [langCodes[normalized] || normalized.substring(0, 2)] *)
Definition getLanguageCode (language : string) : JS.Value :=
  let normalized := JS.toLowerCase language in
  match JS.get normalized langCodes with
  | JS.Own code => JS.Str code
  | JS.Inherited => JS.Member normalized
  | JS.Undefined => JS.Str (String.substring 0 2 normalized)
  end.

(** [params.language]; an absent or empty value is falsy. *)
Record Params := { language : option string }.

Definition getToolSuffix (toolType : string) (params : Params) : string :=
  if String.eqb toolType "summarizer" then "-sum"
  else if String.eqb toolType "analyzer" then "-analysis"
  else if String.eqb toolType "translator" then
    let lang := match language params with
                | Some l => if String.eqb l "" then "en" else l
                | None => "en"
                end in
    "-" +:+ JS.toString (getLanguageCode lang)
  else "".

(** MANY:1 processing tools (ABC-sum.txt) *)
Definition generateProcessingOutput (inputLabels : list string) (toolType : string)
    (params : Params) (self : t) : option (list string * t) :=
  let sortedLabels := JS.sort inputLabels in
  let suffix := getToolSuffix toolType params in
  let baseName := JS.join "" sortedLabels +:+ suffix in
  match resolveNamingConflict baseName ".txt" self with
  | Some (name, self') => Some ([name], self')
  | None => None
  end.

(** *** The main naming method and the batch *)

Definition categories : list (string * list string) :=
  [("conversion", ["pdf2text"; "audio2text"; "video2audio"; "image2text"]);
   ("processing", ["summarizer"; "analyzer"; "translator"]);
   ("template", ["text2pdf"; "text2template"])].

Definition getNodeCategory (toolType : string) : string :=
  match List.find (fun entry => JS.arrIncludes toolType (snd entry)) categories with
  | Some (category, _) => category
  | None => "unknown"
  end.

Definition extensions : list (string * string) :=
  [("pdf2text", ".txt"); ("audio2text", ".txt"); ("video2audio", ".wav");
   ("image2text", ".txt"); ("summarizer", ".txt"); ("analyzer", ".txt");
   ("translator", ".txt"); ("text2pdf", ".pdf"); ("text2template", ".doc")].

(** [extensions[toolType] || '.txt'] *)
Definition getOutputExtension (toolType : string) : JS.Value :=
  match JS.get toolType extensions with
  | JS.Own extension => JS.Str extension
  | JS.Inherited => JS.Member toolType
  | JS.Undefined => JS.Str ".txt"
  end.

(** 1:1 conversion tools (A.txt, B.txt, C.txt) *)
Definition generateConversionOutputs (inputLabels : list string) (toolType : string)
    : list string :=
  let extension := getOutputExtension toolType in
  map (fun label => label +:+ JS.toString extension) inputLabels.

(** Template tools (ABC_template.pdf); [templateName] is
    [params.templateName], falsy when absent or empty. *)
Definition generateTemplateOutput (inputLabels : list string) (toolType : string)
    (templateName : option string) (self : t) : option (list string * t) :=
  let sortedLabels := JS.sort inputLabels in
  let templateName := match templateName with
                      | Some n => if String.eqb n "" then "template" else n
                      | None => "template"
                      end in
  let extension := getOutputExtension toolType in
  let baseName := JS.join "" sortedLabels +:+ "_" +:+ templateName in
  match resolveNamingConflict baseName (JS.toString extension) self with
  | Some (name, self') => Some ([name], self')
  | None => None
  end.

Definition generateDefaultOutput (inputLabels : list string) (toolType : string) (self : t)
    : option (list string * t) :=
  let sortedLabels := JS.sort inputLabels in
  let baseName := JS.join "" sortedLabels +:+ "_" +:+ toolType in
  match resolveNamingConflict baseName ".txt" self with
  | Some (name, self') => Some ([name], self')
  | None => None
  end.

(** [generateOutputLabels(inputLabels, toolType, params)], where [params]
    and [templateName] stand for the fields [language] and [templateName]
    of the one parameter object. *)
Definition generateOutputLabels (inputLabels : list string) (toolType : string)
    (params : Params) (templateName : option string) (self : t)
    : option (list string * t) :=
  let nodeCategory := getNodeCategory toolType in
  if String.eqb nodeCategory "conversion" then
    Some (generateConversionOutputs inputLabels toolType, self)
  else if String.eqb nodeCategory "processing" then
    generateProcessingOutput inputLabels toolType params self
  else if String.eqb nodeCategory "template" then
    generateTemplateOutput inputLabels toolType templateName self
  else generateDefaultOutput inputLabels toolType self.

(** A node as the batch reads it. *)
Record Node := {
  id : string;
  type : string;
  inputLabels : option (list string);
  params : Params;
  templateName : option string
}.

Record BatchOutput := {
  nodeId : string;
  batchInputs : list string;
  outputLabels : list string;
  toolType : string
}.

(** [generateBatchOutputs(nodes)] *)
Fixpoint generateBatchOutputs (nodes : list Node) (self : t)
    : option (list BatchOutput * t) :=
  match nodes with
  | [] => Some ([], self)
  | node :: nodes' =>
      match default [] (inputLabels node) with
      | [] => generateBatchOutputs nodes' self
      | inputs =>
          match generateOutputLabels inputs (type node) (params node) (templateName node) self
          with
          | None => None
          | Some (labels, self1) =>
              match generateBatchOutputs nodes' self1 with
              | None => None
              | Some (outputs, self2) =>
                  Some ({| nodeId := id node; batchInputs := inputs;
                           outputLabels := labels; toolType := type node |} :: outputs,
                        self2)
              end
          end
      end
  end.

(** [previewOutputs(inputLabels, toolType, params)]: the labels that a new
    [OutputNaming] generates. *)
Definition previewOutputs (inputLabels : list string) (toolType : string)
    (params : Params) (templateName : option string) : option (list string) :=
  match generateOutputLabels inputLabels toolType params templateName new with
  | Some (labels, _) => Some labels
  | None => None
  end.

End OutputNaming.

(** ** NodeDataManager: node records, input validation, output generation *)

Module NodeDataManager.

(** What [getInputRules] returns, as the three fields read of it.  A field
    that reads [undefined] is [None]; so is a [maxInputs] that is [null]. *)
Record InputRules := {
  acceptedTypes : option (list string);
  minInputs : option nat;
  maxInputs : option nat
}.

(** A rules object [{ acceptedTypes: ..., minInputs: ..., maxInputs: ... }]. *)
Definition rulesObject (accepted : list string) (min : nat) (max : option nat) : InputRules :=
  {| acceptedTypes := Some accepted; minInputs := Some min; maxInputs := max |}.

(** A member of [Object.prototype]: it has none of the three fields. *)
Definition inheritedMember : InputRules :=
  {| acceptedTypes := None; minInputs := None; maxInputs := None |}.

Definition rules : list (string * InputRules) :=
  [("pdf2text", rulesObject [".pdf"] 1 None);
   ("audio2text", rulesObject [".mp3"; ".wav"; ".m4a"; ".mp4"] 1 None);
   ("image2text", rulesObject [".jpg"; ".png"; ".jpeg"; ".gif"] 1 None);
   ("video2text", rulesObject [".mp4"; ".avi"; ".mov"] 1 None);
   ("summarizer", rulesObject [".txt"] 1 None);
   ("translator", rulesObject [".txt"] 1 None);
   ("analyzer", rulesObject [".txt"] 1 None);
   ("join", rulesObject [".txt"] 2 None);
   ("text2pdf", rulesObject [".txt"] 1 None);
   ("text2docx", rulesObject [".txt"] 1 None);
   ("text2template", rulesObject [".txt"] 1 (Some 1))].

(** [rules[nodeType] || { acceptedTypes: [], minInputs: 0, maxInputs: null }] *)
Definition getInputRules (nodeType : string) : InputRules :=
  match JS.get nodeType rules with
  | JS.Own inputRules => inputRules
  | JS.Inherited => inheritedMember
  | JS.Undefined => rulesObject [] 0 None
  end.

Definition getFileExtension (fileName : string) : string :=
  match JS.fromLastDot fileName with
  | Some ext => JS.toLowerCase ext
  | None => ""
  end.

(** [rules.acceptedTypes.includes(fileExtension)]: reading [includes] of an
    [acceptedTypes] that is [undefined] throws. *)
Definition isInputTypeValid (nodeType inputLabel : string) : JS.TypeError + bool :=
  let rules := getInputRules nodeType in
  let fileExtension := getFileExtension inputLabel in
  match acceptedTypes rules with
  | Some accepted => inr (JS.arrIncludes fileExtension accepted)
  | None => inl (JS.CannotReadProperties "includes")
  end.

(** A prompt requirement: one of the two strings of the table, or the
    member of [Object.prototype] found in their place. *)
Inductive PromptRequirement := optional | mandatory | prototypeMember.

Definition promptRequirements : list (string * PromptRequirement) :=
  [("summarizer", optional); ("translator", mandatory); ("analyzer", mandatory);
   ("text2template", mandatory)].

(** [promptRequirements[nodeType] || 'optional'] *)
Definition getNodePromptRequirement (nodeType : string) : PromptRequirement :=
  match JS.get nodeType promptRequirements with
  | JS.Own requirement => requirement
  | JS.Inherited => prototypeMember
  | JS.Undefined => optional
  end.

(** A node record, with the fields that validation and output generation
    read or write ([position], [params], the processing flags and
    [createdAt] are left out).  [inputLabels] and [outputLabels] may be
    missing on a record that did not go through [addNode]. *)
Record NodeData := {
  id : string;
  type : string;
  inputLabels : option (list string);
  outputLabels : option (list string);
  userPrompt : string;
  isManuallyCreated : bool;
  updatedAt : nat
}.

(** [userPrompt && userPrompt.trim().length > 0] *)
Definition hasValidUserPrompt (nodeData : NodeData) : bool :=
  negb (String.eqb (userPrompt nodeData) "")
  && (0 <? String.length (JS.trim (userPrompt nodeData)))%nat.

Record Validation := { canAccept : bool; reason : string; message : string }.

Definition specificMessages : list (string * string) :=
  [("translator",
    "You have to add a user-prompt before you can drop a file in a translation node");
   ("analyzer",
    "You have to add a user-prompt before you can drop a file in an analyzer node");
   ("webscraper", "You have to add a URL prompt before you can use the webscraper node")].

(** [specificMessages[nodeData.type] || `${nodeData.type} requires ...`] *)
Definition specificMessage (nodeType : string) : JS.Value :=
  match JS.get nodeType specificMessages with
  | JS.Own text => JS.Str text
  | JS.Inherited => JS.Member nodeType
  | JS.Undefined => JS.Str (nodeType +:+ " requires a user prompt before accepting inputs")
  end.

(** [inputRules.maxInputs && currentInputs.length >= inputRules.maxInputs];
    [null] and [0] are falsy. *)
Definition maxInputsReached (r : InputRules) (currentInputs : list string) : option nat :=
  match maxInputs r with
  | Some m => if (negb (m =? 0) && (m <=? length currentInputs))%nat then Some m else None
  | None => None
  end.

(** [validateNodeInput(nodeData, newInputLabel)].  The check of the input
    type comes first and may throw.  The message of a missing prompt is read
    where the requirement is mandatory, hence for a type of the table of
    requirements, for which it is a string. *)
Definition validateNodeInput (nodeData : NodeData) (newInputLabel : string)
    : JS.TypeError + Validation :=
  let inputRules := getInputRules (type nodeData) in
  let currentInputs := default [] (inputLabels nodeData) in
  match isInputTypeValid (type nodeData) newInputLabel with
  | inl typeError => inl typeError
  | inr inputTypeValid =>
  inr (
  if negb inputTypeValid then
    {| canAccept := false; reason := "incompatible_type";
       message := type nodeData +:+ " doesn't accept "
                  +:+ getFileExtension newInputLabel +:+ " files" |}
  else match maxInputsReached inputRules currentInputs with
  | Some m =>
    {| canAccept := false; reason := "max_inputs_exceeded";
       message := type nodeData +:+ " accepts maximum " +:+ pretty m +:+ " input(s)" |}
  | None =>
  if JS.arrIncludes newInputLabel currentInputs then
    {| canAccept := false; reason := "duplicate_input";
       message := "Input " +:+ newInputLabel +:+ " already added to this node" |}
  else match getNodePromptRequirement (type nodeData) with
  | mandatory =>
      if negb (hasValidUserPrompt nodeData) then
        {| canAccept := false; reason := "missing_mandatory_prompt";
           message := JS.toString (specificMessage (type nodeData)) |}
      else {| canAccept := true; reason := "valid"; message := "" |}
  | optional | prototypeMember => {| canAccept := true; reason := "valid"; message := "" |}
  end
  end)
  end.

(** *** Output generation *)

Definition outputIndividualFiles (inputLabels : list string) (suffix : string) : list string :=
  map (fun input => JS.stripSuffix [".txt"] input +:+ suffix) inputLabels.

Definition outputCombinedFiles (inputLabels : list string) (suffix : string) : list string :=
  let combinedLabel := JS.join "" (map (JS.stripSuffix [".txt"]) inputLabels) in
  [combinedLabel +:+ suffix].

Definition languageMap : list (string * string) :=
  [("french", "fr"); ("france", "fr"); ("russian", "ru"); ("russia", "ru");
   ("german", "de"); ("germany", "de"); ("spanish", "es"); ("spain", "es");
   ("italian", "it"); ("italy", "it"); ("portuguese", "pt"); ("portugal", "pt");
   ("chinese", "zh"); ("china", "zh"); ("japanese", "jp"); ("japan", "jp");
   ("korean", "kr"); ("korea", "kr"); ("arabic", "ar"); ("english", "en");
   ("dutch", "nl"); ("polish", "pl"); ("swedish", "se"); ("norwegian", "no");
   ("danish", "dk")].

Definition isLower (c : ascii) : bool :=
  let n := nat_of_ascii c in ((97 <=? n) && (n <=? 122))%nat.

(** The class [\w] *)
Definition isWord (c : ascii) : bool :=
  let n := nat_of_ascii c in
  (((97 <=? n) && (n <=? 122)) || ((65 <=? n) && (n <=? 90))
   || ((48 <=? n) && (n <=? 57)) || (n =? 95))%nat.

(** [prompt.match(/\b([a-z]{2})\b/)]: the first two-letter word. *)
Fixpoint twoLetterWord (prevIsWord : bool) (s : string) : option string :=
  match s with
  | EmptyString => None
  | String a s' =>
      let here :=
        match s' with
        | String b rest =>
            negb prevIsWord && isLower a && isLower b
            && negb match rest with String c _ => isWord c | EmptyString => false end
        | EmptyString => false
        end in
      if here then Some (String.substring 0 2 s) else twoLetterWord (isWord a) s'
  end.

Definition parseLanguageFromPrompt (userPrompt : string) : option string :=
  if String.eqb userPrompt "" || String.eqb (JS.trim userPrompt) "" then None
  else
    let prompt := JS.trim (JS.toLowerCase userPrompt) in
    match List.find (fun lc => JS.includes (fst lc) prompt) languageMap with
    | Some (_, code) => Some code
    | None =>
        match twoLetterWord false prompt with
        | Some code => Some code
        | None => Some "xx"
        end
    end.

(** [userPrompt && userPrompt.trim()] as a condition *)
Definition promptGiven (userPrompt : string) : bool :=
  negb (String.eqb userPrompt "") && negb (String.eqb (JS.trim userPrompt) "").

Definition generateSimulatedOutputs (nodeData : NodeData) : list string :=
  let inputLabels := default [] (inputLabels nodeData) in
  let userPrompt := userPrompt nodeData in
  let ty := type nodeData in
  if String.eqb ty "pdf2text" || String.eqb ty "audio2text"
     || String.eqb ty "image2text" || String.eqb ty "video2text"
  then outputIndividualFiles inputLabels ".txt"
  else if String.eqb ty "translator" then
    match parseLanguageFromPrompt userPrompt with
    | Some targetLang =>
        if String.eqb targetLang "" then []
        else outputIndividualFiles inputLabels ("-" +:+ targetLang +:+ ".txt")
    | None => []
    end
  else if String.eqb ty "summarizer" then outputIndividualFiles inputLabels "-sum.txt"
  else if String.eqb ty "analyzer" then
    if promptGiven userPrompt then outputCombinedFiles inputLabels "-anl.txt" else []
  else if String.eqb ty "join" then outputCombinedFiles inputLabels "-joi.txt"
  else if String.eqb ty "text2pdf" then outputIndividualFiles inputLabels ".pdf"
  else if String.eqb ty "text2docx" then outputIndividualFiles inputLabels ".docx"
  else if String.eqb ty "text2template" then
    if promptGiven userPrompt then outputIndividualFiles inputLabels "-filled.txt" else []
  else [].

(** *** The manager: node array, event log *)

Inductive Event :=
| ValidationFailed (nodeId label reason : string)           (* 'node:validation:failed' *)
| RemoveTextFileLabel (fileName sourceNodeId : string)      (* 'remove-text-file-label' *)
| NodeOutputCreated (fileName nodeId nodeType : string) (sourceLabels : list string)
                                                            (* 'node-output-created' *)
| NodeStateEvaluate (nodeId : string)                       (* 'node:state:evaluate' *)
| NodeInputsChanged (nodeId label action : string).         (* 'node-inputs-changed' *)

Record t := {
  nodes : list NodeData;
  nextNodeId : nat;
  emitted : list Event
}.

Definition emit (e : Event) (self : t) : t :=
  {| nodes := nodes self; nextNodeId := nextNodeId self; emitted := (emitted self ++ [e])%list |}.

Definition emitAll (es : list Event) (self : t) : t :=
  {| nodes := nodes self; nextNodeId := nextNodeId self; emitted := (emitted self ++ es)%list |}.

(** Index of the first node with the given id ([findIndex]). *)
Fixpoint findIndex (nodeId : string) (l : list NodeData) : option nat :=
  match l with
  | [] => None
  | n :: l' => if String.eqb (id n) nodeId then Some 0
               else option_map S (findIndex nodeId l')
  end.

Definition getNodeById (nodeId : string) (self : t) : option NodeData :=
  match findIndex nodeId (nodes self) with
  | Some i => nodes self !! i
  | None => None
  end.

(** Write back the record of the node object at index [i]. *)
Definition store (i : nat) (n : NodeData) (self : t) : t :=
  {| nodes := <[i := n]> (nodes self); nextNodeId := nextNodeId self; emitted := emitted self |}.

(** [updateNodeOutputs(nodeData)]: the updated record and the events emitted. *)
Definition updateNodeOutputs (now : nat) (nodeData : NodeData) : NodeData * list Event :=
  let setOutputs outs stamp :=
    {| id := id nodeData; type := type nodeData; inputLabels := inputLabels nodeData;
       outputLabels := Some outs; userPrompt := userPrompt nodeData;
       isManuallyCreated := isManuallyCreated nodeData; updatedAt := stamp |} in
  match inputLabels nodeData with
  | None | Some [] => (setOutputs [] (updatedAt nodeData), [])
  | Some ins =>
      let inputRules := getInputRules (type nodeData) in
      let hasMinInputs := JS.geq (length ins) (minInputs inputRules) in
      if hasMinInputs then
        let isCombinedFlow := JS.arrIncludes (type nodeData) ["join"; "analyzer"] in
        let retracted :=
          if isCombinedFlow
          then map (fun oldOutput => RemoveTextFileLabel oldOutput (id nodeData))
                   (default [] (outputLabels nodeData))
          else [] in
        let newOutputs := generateSimulatedOutputs nodeData in
        (setOutputs newOutputs now,
         (retracted ++ map (fun outputLabel =>
                              NodeOutputCreated outputLabel (id nodeData) (type nodeData) ins)
                           newOutputs)%list)
      else (setOutputs [] now, [])
  end.

(** [addLabelToNode(nodeId, label)]: what the call returns or throws, and
    the manager it leaves.  The validation, which may throw, comes before
    any write or event. *)
Definition addLabelToNode (now : nat) (nodeId label : string) (self : t)
    : (JS.TypeError + bool) * t :=
  match findIndex nodeId (nodes self) with
  | None => (inr false, self)
  | Some i =>
    match nodes self !! i with
    | None => (inr false, self)
    | Some node =>
      match validateNodeInput node label with
      | inl typeError => (inl typeError, self)
      | inr validation =>
      if negb (canAccept validation) then
        (inr false, emit (ValidationFailed nodeId label (message validation)) self)
      else
        let ins := default [] (inputLabels node) in
        let node1 :=
          {| id := id node; type := type node; inputLabels := Some ins;
             outputLabels := outputLabels node; userPrompt := userPrompt node;
             isManuallyCreated := isManuallyCreated node; updatedAt := updatedAt node |} in
        if negb (JS.arrIncludes label ins) then
          let node2 :=
            {| id := id node; type := type node; inputLabels := Some (ins ++ [label])%list;
               outputLabels := outputLabels node; userPrompt := userPrompt node;
               isManuallyCreated := isManuallyCreated node; updatedAt := now |} in
          let '(node3, evs) := updateNodeOutputs now node2 in
          (inr true,
           emitAll (evs ++ [NodeStateEvaluate nodeId; NodeInputsChanged nodeId label "added"])%list
                   (store i node3 self))
        else (inr false, store i node1 self)
      end
    end
  end.

(** *** Removing labels, prediction of acceptance *)

(** [arr.splice(arr.indexOf(x), 1)] when [x] is in [arr]: the first
    occurrence goes. *)
Fixpoint removeFirst (x : string) (arr : list string) : list string :=
  match arr with
  | [] => []
  | y :: arr' => if String.eqb y x then arr' else y :: removeFirst x arr'
  end.

(** [removeLabelFromNode(nodeId, label)]: the result, the manager, and the
    id of the node whose cleanup check the call schedules with
    [setTimeout], if it schedules one. *)
Definition removeLabelFromNode (now : nat) (nodeId label : string) (self : t)
    : bool * t * option string :=
  match findIndex nodeId (nodes self) with
  | None => (false, self, None)
  | Some i =>
    match nodes self !! i with
    | None => (false, self, None)
    | Some node =>
      match inputLabels node with
      | None => (false, self, None)
      | Some ins =>
        if JS.arrIncludes label ins then
          let node1 :=
            {| id := id node; type := type node;
               inputLabels := Some (removeFirst label ins);
               outputLabels := outputLabels node; userPrompt := userPrompt node;
               isManuallyCreated := isManuallyCreated node; updatedAt := now |} in
          let '(node2, evs) := updateNodeOutputs now node1 in
          (true,
           emitAll (evs ++ [NodeStateEvaluate nodeId;
                            NodeInputsChanged nodeId label "removed"])%list
                   (store i node2 self),
           Some nodeId)
        else (false, self, None)
      end
    end
  end.

Definition canNodeAcceptInput (nodeId newInputLabel : string) (self : t)
    : JS.TypeError + bool :=
  match getNodeById nodeId self with
  | None => inr false
  | Some node =>
      match validateNodeInput node newInputLabel with
      | inl typeError => inl typeError
      | inr validation => inr (canAccept validation)
      end
  end.

Definition getNodesByInputLabel (label : string) (self : t) : list NodeData :=
  List.filter (fun n => match inputLabels n with
                        | Some ins => JS.arrIncludes label ins
                        | None => false
                        end) (nodes self).

(** *** Node life cycle *)

(** The events of the life cycle, which the functions below return in the
    order they emit them (the events of the kinds of [Event] go to the log
    of the manager as before). *)
Inductive Signal :=
| NodeAdded (nodeId : string)                          (* 'node-added' *)
| RequestCascadingDelete (label source : string)       (* 'request-cascading-delete' *)
| RequestCascadeDelete (nodeId : string)               (* 'request-cascade-delete' *)
| NodeRemoved (nodeId : string)                        (* 'node:removed' *)
| NodeDeleted (nodeId : string)                        (* 'node-deleted' *)
| StatusUpdate (text : string).                        (* 'status-update' *)

Definition setNodes (ns : list NodeData) (self : t) : t :=
  {| nodes := ns; nextNodeId := nextNodeId self; emitted := emitted self |}.

(** [addNode(nodeData)]: [null] is [None]. *)
Definition addNode (now : nat) (nodeData : NodeData) (self : t)
    : option NodeData * t * list Signal :=
  if String.eqb (id nodeData) "" || String.eqb (type nodeData) "" then (None, self, [])
  else
    match getNodeById (id nodeData) self with
    | Some _ => (None, self, [])
    | None =>
        let added :=
          {| id := id nodeData; type := type nodeData;
             inputLabels := Some (default [] (inputLabels nodeData));
             outputLabels := Some (default [] (outputLabels nodeData));
             userPrompt := userPrompt nodeData;
             isManuallyCreated := isManuallyCreated nodeData; updatedAt := now |} in
        (Some added,
         emit (NodeStateEvaluate (id added)) (setNodes (nodes self ++ [added])%list self),
         [NodeAdded (id added)])
    end.

(** [createNode(toolType, position)] *)
Definition createNode (now : nat) (toolType : string) (self : t)
    : NodeData * t * list Signal :=
  let nodeData :=
    {| id := "node_" +:+ pretty (nextNodeId self); type := toolType;
       inputLabels := Some []; outputLabels := Some []; userPrompt := "";
       isManuallyCreated := true; updatedAt := now |} in
  let self1 :=
    {| nodes := nodes self; nextNodeId := S (nextNodeId self); emitted := emitted self |} in
  let '(_, self2, signals) := addNode now nodeData self1 in
  (nodeData, self2, signals).

(** [removeNode(nodeId)] *)
Definition removeNode (nodeId : string) (self : t) : bool * t * list Signal :=
  match findIndex nodeId (nodes self) with
  | None => (false, self, [])
  | Some nodeIndex =>
      match nodes self !! nodeIndex with
      | None => (false, self, [])
      | Some nodeData =>
          let requests :=
            map (fun outputLabel => RequestCascadingDelete outputLabel "node-output-cleanup")
                (default [] (outputLabels nodeData)) in
          (true, setNodes (delete nodeIndex (nodes self)) self,
           (requests ++ [NodeRemoved (id nodeData); NodeDeleted nodeId])%list)
      end
  end.

(** [deleteNode(nodeId, isAutoCleanup)] *)
Definition deleteNode (nodeId : string) (isAutoCleanup : bool) (self : t)
    : bool * t * list Signal :=
  match getNodeById nodeId self with
  | None => (false, self, [])
  | Some _ =>
      if negb isAutoCleanup then (true, self, [RequestCascadeDelete nodeId])
      else let '(_, self', signals) := removeNode nodeId self in (true, self', signals)
  end.

(** [!hasInputs && node.isManuallyCreated] *)
Definition isEmptyManual (node : NodeData) : bool :=
  match inputLabels node with
  | Some (_ :: _) => false
  | _ => isManuallyCreated node
  end.

Definition checkNodeForCleanup (nodeId : string) (self : t) : bool * t * list Signal :=
  match getNodeById nodeId self with
  | None => (false, self, [])
  | Some node =>
      if isEmptyManual node then
        let '(_, self', signals) := deleteNode nodeId true self in (true, self', signals)
      else (false, self, [])
  end.

(** [ids.forEach(id => this.deleteNode(id, true))] *)
Fixpoint deleteEach (nodeIds : list string) (self : t) : t * list Signal :=
  match nodeIds with
  | [] => (self, [])
  | nodeId :: nodeIds' =>
      let '(_, self1, signals1) := deleteNode nodeId true self in
      let '(self2, signals2) := deleteEach nodeIds' self1 in
      (self2, (signals1 ++ signals2)%list)
  end.

Definition checkAndCleanupEmptyNodes (self : t) : nat * t * list Signal :=
  let nodesToRemove := List.filter isEmptyManual (nodes self) in
  let '(self', signals) := deleteEach (map id nodesToRemove) self in
  (length nodesToRemove, self',
   if (length nodesToRemove =? 0)%nat then signals
   else (signals ++ [StatusUpdate ("Auto-cleaned " +:+ pretty (length nodesToRemove)
                                   +:+ " empty node(s)")])%list).

(** [nodeIds.forEach(id => this.removeNode(id))] *)
Fixpoint removeEach (nodeIds : list string) (self : t) : t * list Signal :=
  match nodeIds with
  | [] => (self, [])
  | nodeId :: nodeIds' =>
      let '(_, self1, signals1) := removeNode nodeId self in
      let '(self2, signals2) := removeEach nodeIds' self1 in
      (self2, (signals1 ++ signals2)%list)
  end.

Definition clearAllNodes (self : t) : nat * t * list Signal :=
  let nodeIds := map id (nodes self) in
  let '(self', signals) := removeEach nodeIds self in
  (length nodeIds, self', signals).

(** *** Invariants of the node array *)

(** No two nodes share an id. *)
Definition distinctIds (self : t) : Prop := List.NoDup (map id (nodes self)).

(** No node holds the same input label twice. *)
Definition distinctInputs (self : t) : Prop :=
  forall n, In n (nodes self) -> List.NoDup (default [] (inputLabels n)).

(** The counter of [createNode] is ahead of every id it has given out. *)
Definition counterAhead (self : t) : Prop :=
  forall n k, In n (nodes self) -> id n = "node_" +:+ pretty k -> k < nextNodeId self.

Definition wellFormed (self : t) : Prop :=
  distinctIds self /\ distinctInputs self /\ counterAhead self.

(** The manager as its constructor leaves it. *)
Definition new : t := {| nodes := []; nextNodeId := 1; emitted := [] |}.

End NodeDataManager.

(** ** The wording of the specification *)

Module Spec.

(** A label minus its file extension: what stands before its last dot, or
    the whole label when it has no dot. *)
Fixpoint withoutExtension (s : string) : string :=
  match s with
  | EmptyString => EmptyString
  | String c s' =>
      match JS.fromLastDot s' with
      | Some _ => String c (withoutExtension s')
      | None => if Ascii.eqb c "."%char then EmptyString else String c (withoutExtension s')
      end
  end.

End Spec.

(** ** OutputZone: the output entries (final deliverables) *)

Module OutputZone.

Record Output := { systemName : string; businessName : string }.

Record t := { outputs : list Output }.

Definition getOutputs (self : t) : list Output := outputs self.

Definition hasLabel (label : string) (self : t) : bool :=
  existsb (fun output => String.eqb (systemName output) label) (outputs self).

(** The class declares no method [getAllLabels]: reading that property of
    an [OutputZone] yields [undefined]. *)
Definition getAllLabels : option (t -> list string) := None.

End OutputZone.

(** ** CascadingDeleteManager: impact analysis of a label deletion *)

Module CascadingDeleteManager.

Record Connection := { from : string; to : string }.

(** The collaborators set by [setComponents]; a label store that was not
    set is [None].  The two file managers are represented by the [label]
    fields of the items they return. *)
Record t := {
  allNodes : list NodeDataManager.NodeData;    (* nodeDataManager.getAllNodes() *)
  allConnections : list Connection;            (* workflowCanvas.getConnections() *)
  inputFilesManager : option (list string);    (* getInputFileLabels() *)
  textFilesManager : option (list string);     (* getTextFileLabels() *)
  outputZone : option OutputZone.t
}.

(** What [getInputRules] returns, as the two fields read of it.  A field
    that reads [undefined] is [None]; so is a [maxInputs] that is [null]. *)
Record InputRules := { minInputs : option nat; maxInputs : option nat }.

(** A rules object [{ minInputs: ..., maxInputs: null }]. *)
Definition rulesObject (min : nat) : InputRules :=
  {| minInputs := Some min; maxInputs := None |}.

(** A member of [Object.prototype]: it has neither field. *)
Definition inheritedMember : InputRules := {| minInputs := None; maxInputs := None |}.

Definition rules : list (string * InputRules) :=
  [("pdf2text", rulesObject 1); ("audio2text", rulesObject 1); ("image2text", rulesObject 1);
   ("video2text", rulesObject 1); ("translator", rulesObject 1); ("summarizer", rulesObject 1);
   ("analyzer", rulesObject 1); ("join", rulesObject 2); ("text2pdf", rulesObject 1);
   ("text2docx", rulesObject 1); ("template", rulesObject 1)].

(** [rules[nodeType] || { minInputs: 1, maxInputs: null }] *)
Definition getInputRules (nodeType : string) : InputRules :=
  match JS.get nodeType rules with
  | JS.Own inputRules => inputRules
  | JS.Inherited => inheritedMember
  | JS.Undefined => rulesObject 1
  end.

(** [input.replace('.txt', '')] *)
Definition inputBase (input : string) : string := JS.replaceFirst ".txt" "" input.

Definition nodeUsesLabel (node : NodeDataManager.NodeData) (baseLabel : string) : bool :=
  match NodeDataManager.inputLabels node with
  | None => false
  | Some ins => existsb (fun input => String.eqb (inputBase input) baseLabel) ins
  end.

Record NodeImpact := {
  nodeId : string;
  nodeType : string;
  currentInputs : list string;
  remainingInputs : list string;
  willBeDeleted : bool;
  reason : string
}.

Definition analyzeNodeDeletion (node : NodeDataManager.NodeData) (removedLabel : string)
    : NodeImpact :=
  let currentInputs := default [] (NodeDataManager.inputLabels node) in
  let remainingInputs :=
    List.filter (fun input => negb (String.eqb (inputBase input) removedLabel)) currentInputs in
  let inputRules := getInputRules (NodeDataManager.type node) in
  let willBeDeleted := JS.lt (length remainingInputs) (minInputs inputRules) in
  {| nodeId := NodeDataManager.id node;
     nodeType := NodeDataManager.type node;
     currentInputs := currentInputs;
     remainingInputs := remainingInputs;
     willBeDeleted := willBeDeleted;
     reason := if willBeDeleted
               then "Node needs minimum "
                    +:+ match minInputs inputRules with
                        | Some min => pretty min
                        | None => "undefined"
                        end
                    +:+ " inputs, will have " +:+ pretty (length remainingInputs)
               else "Node will continue with remaining inputs" |}.

Definition getAllLabelsInSystem (self : t) : list string :=
  let fromInput := default [] (inputFilesManager self) in
  let fromText := default [] (textFilesManager self) in
  let fromOutput :=
    match outputZone self with
    | Some zone =>
        match OutputZone.getAllLabels with
        | Some method => method zone
        | None => []
        end
    | None => []
    end in
  JS.dedupe [] (fromInput ++ fromText ++ fromOutput)%list.

Record Impact := {
  label : string;
  baseLabel : string;
  affectedNodes : list NodeImpact;
  deletedConnections : list Connection;
  cascadingDeletes : list string;
  totalNodesDeleted : nat;
  totalConnectionsDeleted : nat
}.

(** The loop over [allNodes]: the accumulated [affectedNodes],
    [deletedConnections] and [totalNodesDeleted]. *)
Fixpoint scanNodes (self : t) (baseLabel : string) (nodes : list NodeDataManager.NodeData)
    (acc : list NodeImpact * list Connection * nat)
    : list NodeImpact * list Connection * nat :=
  match nodes with
  | [] => acc
  | node :: nodes' =>
      let '(affected, deleted, total) := acc in
      if nodeUsesLabel node baseLabel then
        let nodeImpact := analyzeNodeDeletion node baseLabel in
        if willBeDeleted nodeImpact then
          let nodeConnections :=
            List.filter (fun conn => String.eqb (from conn) (NodeDataManager.id node)
                                     || String.eqb (to conn) (NodeDataManager.id node))
                        (allConnections self) in
          scanNodes self baseLabel nodes'
            ((affected ++ [nodeImpact])%list, (deleted ++ nodeConnections)%list, S total)
        else
          scanNodes self baseLabel nodes' ((affected ++ [nodeImpact])%list, deleted, total)
      else scanNodes self baseLabel nodes' acc
  end.

(** The regular expression [/\.(txt|pdf|docx|xlsx)$/] *)
Definition knownExtensions : list string := [".txt"; ".pdf"; ".docx"; ".xlsx"].

Definition analyzeDeletionImpact (labelToDelete : string) (self : t) : Impact :=
  let baseLabel := JS.replaceFirst ".txt" "" labelToDelete in
  let '(affected, deleted, total) := scanNodes self baseLabel (allNodes self) ([], [], 0) in
  let allLabels := getAllLabelsInSystem self in
  let cascadingLabels :=
    List.filter (fun label =>
                   if String.eqb label labelToDelete then false
                   else JS.includes baseLabel (JS.stripSuffix knownExtensions label))
                allLabels in
  {| label := labelToDelete;
     baseLabel := baseLabel;
     affectedNodes := affected;
     deletedConnections := deleted;
     cascadingDeletes := cascadingLabels;
     totalNodesDeleted := total;
     totalConnectionsDeleted := length deleted |}.

End CascadingDeleteManager.

(** ** ToolFlowBuilder: workflow validation *)

Module ToolFlowBuilder.

Record Connection := { from : string; to : string }.

(** A node object as the validation reads it. *)
Record Node := {
  id : string;
  type : string;
  fileInputs : option (list string);
  inputLabels : option (list string)
}.

(** The node objects live in a store; [nodes] holds their addresses.  No
    address of a workflow dangles; the functions below skip one that would. *)
Record Workflow := {
  nodes : option (list nat);
  connections : option (list Connection)
}.

Record DfsState := { visited : gset string; recStack : gset string }.

(** [workflow.connections?.filter(c => c.from === nodeId) || []], mapped to
    the targets the loop follows. *)
Definition successors (conns : option (list Connection)) (nodeId : string) : list string :=
  map to (List.filter (fun c => String.eqb (from c) nodeId) (default [] conns)).

(** [for (const conn of connections) if (dfs(conn.to)) return true;] *)
Fixpoint forConnections (dfs : string -> DfsState -> option (bool * DfsState))
    (targets : list string) (st : DfsState) : option (bool * DfsState) :=
  match targets with
  | [] => Some (false, st)
  | target :: targets' =>
      match dfs target st with
      | None => None
      | Some (true, st') => Some (true, st')
      | Some (false, st') => forConnections dfs targets' st'
      end
  end.

Fixpoint dfs (fuel : nat) (conns : option (list Connection)) (nodeId : string)
    (st : DfsState) : option (bool * DfsState) :=
  match fuel with
  | O => None
  | S fuel' =>
      if decide (nodeId ∈ recStack st) then Some (true, st)
      else if decide (nodeId ∈ visited st) then Some (false, st)
      else
        let st1 := {| visited := {[nodeId]} ∪ visited st;
                      recStack := {[nodeId]} ∪ recStack st |} in
        match forConnections (dfs fuel' conns) (successors conns nodeId) st1 with
        | None => None
        | Some (true, st2) => Some (true, st2)
        | Some (false, st2) =>
            Some (false, {| visited := visited st2; recStack := recStack st2 ∖ {[nodeId]} |})
        end
  end.

(** [for (const node of workflow.nodes) if (!visited.has(node.id) && dfs(node.id)) return true;] *)
Fixpoint forNodes (fuel : nat) (conns : option (list Connection)) (ids : list string)
    (st : DfsState) : option bool :=
  match ids with
  | [] => Some false
  | nodeId :: ids' =>
      if decide (nodeId ∈ visited st) then forNodes fuel conns ids' st
      else match dfs fuel conns nodeId st with
           | None => None
           | Some (true, _) => Some true
           | Some (false, st') => forNodes fuel conns ids' st'
           end
  end.

(** The ids of the node objects of a workflow, in array order. *)
Definition nodeIds (heap : list Node) (addrs : list nat) : list string :=
  omap (fun a => id <$> heap !! a) addrs.

(** Fuel that no run exhausts: every call of [dfs] that goes past its two
    tests marks a new id, and ids come from the nodes and connection targets. *)
Definition loopFuel (ids : list string) (conns : option (list Connection)) : nat :=
  S (length ids + length (default [] conns)).

(** [detectWorkflowLoops(workflow)], where [addrs] is [workflow.nodes] and
    [conns] is [workflow.connections]. *)
Definition detectWorkflowLoops (heap : list Node) (addrs : list nat)
    (conns : option (list Connection)) : option bool :=
  let ids := nodeIds heap addrs in
  forNodes (loopFuel ids conns) conns ids {| visited := ∅; recStack := ∅ |}.

(** [node.inputLabels?.sort().join(',') || ''] sorts the array of the node
    object in place. *)
Fixpoint forDuplicates (nodesByInputs : gmap string nat) (addrs : list nat)
    (heap : list Node) : bool * list Node :=
  match addrs with
  | [] => (false, heap)
  | a :: addrs' =>
      match heap !! a with
      | None => forDuplicates nodesByInputs addrs' heap
      | Some node =>
          let '(inputKey, heap') :=
            match inputLabels node with
            | Some labels =>
                (JS.join "," (JS.sort labels),
                 <[a := {| id := id node; type := type node; fileInputs := fileInputs node;
                           inputLabels := Some (JS.sort labels) |}]> heap)
            | None => ("", heap)
            end in
          let typeInputKey := type node +:+ ":" +:+ inputKey in
          match nodesByInputs !! typeInputKey with
          | Some _ => (true, heap')
          | None => forDuplicates (<[typeInputKey := a]> nodesByInputs) addrs' heap'
          end
      end
  end.

(** [detectDuplicateActions(workflow)], where [addrs] is [workflow.nodes]:
    the answer and the store as the scan leaves it. *)
Definition detectDuplicateActions (heap : list Node) (addrs : list nat) : bool * list Node :=
  forDuplicates ∅ addrs heap.

(** The key under which the scan files a node:
    [`${node.type}:${node.inputLabels?.sort().join(',') || ''}`]. *)
Definition typeInputKey (node : Node) : string :=
  type node +:+ ":" +:+ match inputLabels node with
                        | Some labels => JS.join "," (JS.sort labels)
                        | None => ""
                        end.

(** The keys of the node objects of a workflow, in array order. *)
Definition typeInputKeys (heap : list Node) (addrs : list nat) : list string :=
  map typeInputKey (omap (fun a => heap !! a) addrs).

(** A node object after [inputLabels.sort()], when it has input labels. *)
Definition sortedInPlace (node : Node) : Node :=
  {| id := id node; type := type node; fileInputs := fileInputs node;
     inputLabels := JS.sort <$> inputLabels node |}.

(** [node.fileInputs && node.fileInputs.length > 0 || node.inputLabels && ...] *)
Definition hasInputs (node : Node) : bool :=
  match fileInputs node with Some (_ :: _) => true | _ => false end
  || match inputLabels node with Some (_ :: _) => true | _ => false end.

(** [validateWorkflow(workflow)]; [files] is [uploadZone.getFiles()] and
    [outputs] is [outputZone.getOutputs()].  The result is paired with the
    store, which duplicate detection may have changed. *)
Definition validateWorkflow (files : list string) (outputs : list OutputZone.Output)
    (workflow : option Workflow) (heap : list Node) : option (bool * list Node) :=
  if (length files =? 0)%nat then Some (false, heap)
  else if (length outputs =? 0)%nat then Some (false, heap)
  else
    match workflow with
    | None => Some (true, heap)
    | Some wf =>
        match nodes wf with
        | None | Some [] => Some (true, heap)
        | Some addrs =>
            let nodesWithInputs :=
              List.filter (fun a => match heap !! a with
                                    | Some node => hasInputs node
                                    | None => false
                                    end) addrs in
            if (length nodesWithInputs =? 0)%nat then Some (false, heap)
            else
              match detectWorkflowLoops heap addrs (connections wf) with
              | None => None
              | Some hasLoops =>
                  let '(hasDuplicates, heap') := detectDuplicateActions heap addrs in
                  Some (negb hasLoops && negb hasDuplicates, heap')
              end
        end
    end.

(** *** The connection graph and the invariant of the search *)

Section Graph.

Variable conns : option (list Connection).
Variable ids : list string.

(** The connection graph: an edge for every connection. *)
Definition arrow (u v : string) : Prop := v ∈ successors conns u.

Definition loopIds : gset string := list_to_set (ids ++ map to (default [] conns)).

(** The ids whose search is over. *)
Definition finished (st : DfsState) : gset string := visited st ∖ recStack st.

(** No connection leaves the finished ids, and none of them is on a cycle. *)
Definition settled (st : DfsState) : Prop :=
  (forall x y, x ∈ finished st -> arrow x y -> y ∈ finished st)
  /\ (forall x, x ∈ finished st -> ~ tc arrow x x).

(** What a search from [u] guarantees while fewer than [bound] ids are
    unvisited, when every id on the recursion stack reaches [u]. *)
Definition searches (f : string -> DfsState -> option (bool * DfsState)) (bound : nat) :=
  forall u st,
    u ∈ loopIds -> size (loopIds ∖ visited st) < bound ->
    (forall r, r ∈ recStack st -> tc arrow r u) ->
    settled st ->
    exists b st',
      f u st = Some (b, st')
      /\ visited st ⊆ visited st'
      /\ (b = true -> exists x, rtc arrow u x /\ tc arrow x x)
      /\ (b = false ->
          recStack st' = recStack st /\ u ∈ finished st' /\ settled st').

End Graph.

End ToolFlowBuilder.

(** ** WorkflowEngine: the execution orchestrator *)

Module WorkflowEngine.

Record Connection := { from : string; to : string; fileName : string }.

Record FileInput := { fi_name : string; fi_type : string; fi_label : string }.

Record Node := {
  id : string;
  type : string;
  fileInputs : option (list FileInput);
  outputLabels : option (list string);
  customPrompt : option string
}.

Record Workflow := {
  nodes : list Node;
  connections : option (list Connection)
}.

(** A thrown [Error]. *)
Record JsError := { message : string }.

(** What the processing backend returns. *)
Record ProcessResult := {
  pr_fileName : string;
  pr_result : option string;
  pr_success : bool
}.

Record MockFile := { mf_name : string; mf_content : string }.

Record ExecutionResult := {
  nodeId : string;
  nodeType : string;
  systemName : string;
  content : option string;
  contentType : JS.Value;            (* [type] *)
  size : nat;
  success : bool;
  error : option string;
  executedAt : string
}.

Inductive Event :=
| StatusUpdate (text : string)                          (* 'status-update' *)
| WorkflowExecuted (results : list ExecutionResult).    (* 'workflow-executed' *)

(** The engine.  [step] counts the interactions with the outside world (a
    call of the backend, a reading of the clock), so that the outside may
    answer each of them differently. *)
Record t := {
  currentWorkflow : option Workflow;
  executionResults : list ExecutionResult;
  isExecuting : bool;
  emitted : list Event;
  step : nat
}.

(** [new WorkflowEngine(eventBus, openAIService)] *)
Definition new : t :=
  {| currentWorkflow := None; executionResults := []; isExecuting := false;
     emitted := []; step := 0 |}.

Definition emit (e : Event) (self : t) : t :=
  {| currentWorkflow := currentWorkflow self; executionResults := executionResults self;
     isExecuting := isExecuting self; emitted := (emitted self ++ [e])%list;
     step := step self |}.

Definition setExecuting (b : bool) (self : t) : t :=
  {| currentWorkflow := currentWorkflow self; executionResults := executionResults self;
     isExecuting := b; emitted := emitted self; step := step self |}.

Definition setResults (rs : list ExecutionResult) (self : t) : t :=
  {| currentWorkflow := currentWorkflow self; executionResults := rs;
     isExecuting := isExecuting self; emitted := emitted self; step := step self |}.

Definition tick (self : t) : t :=
  {| currentWorkflow := currentWorkflow self; executionResults := executionResults self;
     isExecuting := isExecuting self; emitted := emitted self; step := S (step self) |}.

(** *** Topological sort *)

Record TopoState := {
  sorted : list Node;
  visited : gset string;
  temp : gset string
}.

Definition circular : JsError :=
  {| message := "Circular dependency detected in workflow" |}.

(** [dependents.forEach(depId => visit(depId))]; a throw ends the loop. *)
Fixpoint forEachVisit (visit : string -> TopoState -> option (JsError + TopoState))
    (ids : list string) (st : TopoState) : option (JsError + TopoState) :=
  match ids with
  | [] => Some (inr st)
  | nodeId :: ids' =>
      match visit nodeId st with
      | None => None
      | Some (inl e) => Some (inl e)
      | Some (inr st') => forEachVisit visit ids' st'
      end
  end.

Definition dependents (conns : list Connection) (nodeId : string) : list string :=
  map to (List.filter (fun conn => String.eqb (from conn) nodeId) conns).

Fixpoint visit (fuel : nat) (nodes : list Node) (conns : list Connection)
    (nodeId : string) (st : TopoState) : option (JsError + TopoState) :=
  match fuel with
  | O => None
  | S fuel' =>
      if decide (nodeId ∈ temp st) then Some (inl circular)
      else if decide (nodeId ∈ visited st) then Some (inr st)
      else
        let st1 := {| sorted := sorted st; visited := visited st;
                      temp := {[nodeId]} ∪ temp st |} in
        match forEachVisit (visit fuel' nodes conns) (dependents conns nodeId) st1 with
        | None => None
        | Some (inl e) => Some (inl e)
        | Some (inr st2) =>
            Some (inr {| sorted := match List.find (fun n => String.eqb (id n) nodeId) nodes with
                                   | Some node => node :: sorted st2
                                   | None => sorted st2
                                   end;
                         visited := {[nodeId]} ∪ visited st2;
                         temp := temp st2 ∖ {[nodeId]} |})
        end
  end.

(** [nodes.forEach(node => { if (!visited.has(node.id)) visit(node.id); })] *)
Fixpoint forRemaining (visit : string -> TopoState -> option (JsError + TopoState))
    (ids : list string) (st : TopoState) : option (JsError + TopoState) :=
  match ids with
  | [] => Some (inr st)
  | nodeId :: ids' =>
      if decide (nodeId ∈ visited st) then forRemaining visit ids' st
      else match visit nodeId st with
           | None => None
           | Some (inl e) => Some (inl e)
           | Some (inr st') => forRemaining visit ids' st'
           end
  end.

Definition sortFuel (nodes : list Node) (conns : list Connection) : nat :=
  S (length nodes + length conns).

Definition topologicalSort (workflow : Workflow) : option (JsError + list Node) :=
  let nodes := nodes workflow in
  let conns := default [] (connections workflow) in
  let fuel := sortFuel nodes conns in
  let nodesToVisit :=
    List.filter (fun node => negb (existsb (fun conn => String.eqb (to conn) (id node)) conns))
                nodes in
  match forEachVisit (visit fuel nodes conns) (map id nodesToVisit)
          {| sorted := []; visited := ∅; temp := ∅ |} with
  | None => None
  | Some (inl e) => Some (inl e)
  | Some (inr st) =>
      match forRemaining (visit fuel nodes conns) (map id nodes) st with
      | None => None
      | Some (inl e) => Some (inl e)
      | Some (inr st') => Some (inr (sorted st'))
      end
  end.

(** *** The measure and the contract of [visit] *)

Section Marks.

Variable nodes : list Node.
Variable conns : list Connection.

(** All ids the sort can come by. *)
Definition sortIds : gset string := list_to_set (map id nodes ++ map to conns).

(** The ids that are finished or in progress. *)
Definition marked (st : TopoState) : gset string := visited st ∪ temp st.

(** A visiting function that returns (normally or by a throw) on every id
    of the universe while fewer than [bound] ids are unmarked, and never
    unmarks an id. *)
Definition returns (v : string -> TopoState -> option (JsError + TopoState)) (bound : nat) :=
  forall nodeId st,
    nodeId ∈ sortIds -> base.size (sortIds ∖ marked st) < bound ->
    exists r, v nodeId st = Some r /\ forall st', r = inr st' -> marked st ⊆ marked st'.

End Marks.

(** *** The dependency graph and the invariant of the sort *)

Section Order.

Variable nodes : list Node.
Variable conns : list Connection.

(** The dependency graph: [u] feeds [v] when a connection goes from [u] to
    [v]. *)
Definition feeds (u v : string) : Prop := v ∈ dependents conns u.

(** No node of the list is fed by a node that stands after it. *)
Fixpoint inOrder (l : list Node) : Prop :=
  match l with
  | [] => True
  | a :: l' => (forall b, In b l' -> ~ feeds (id b) (id a)) /\ inOrder l'
  end.

(** The state between two visits: finished ids are not in progress, no
    connection leaves them and none is on a cycle; [sorted] holds, once
    each and in order, the nodes that [find] gives for the finished ids. *)
Definition wellSorted (st : TopoState) : Prop :=
  visited st ## temp st
  /\ (forall x y, x ∈ visited st -> feeds x y -> y ∈ visited st)
  /\ (forall x, x ∈ visited st -> ~ tc feeds x x)
  /\ List.NoDup (map id (sorted st))
  /\ (forall n, In n (sorted st)
                <-> id n ∈ visited st
                    /\ List.find (fun m => String.eqb (id m) (id n)) nodes = Some n)
  /\ inOrder (sorted st).

(** What a visit of [u] guarantees while fewer than [bound] ids are
    unmarked, when every id in progress reaches [u]. *)
Definition sorts (v : string -> TopoState -> option (JsError + TopoState)) (bound : nat) :=
  forall u st,
    u ∈ sortIds nodes conns -> base.size (sortIds nodes conns ∖ marked st) < bound ->
    (forall r, r ∈ temp st -> tc feeds r u) ->
    wellSorted st ->
    exists r,
      v u st = Some r
      /\ match r with
         | inl e => e = circular /\ exists x, rtc feeds u x /\ tc feeds x x
         | inr st' =>
             temp st' = temp st /\ visited st ⊆ visited st' /\ u ∈ visited st'
             /\ wellSorted st'
         end.

End Order.

(** *** Executing a node *)

Record InputDatum := {
  source : string;
  in_name : string;
  in_type : JS.Value;
  in_label : option string;
  in_content : option string
}.

Definition getFileCategory (type : string) : string :=
  if JS.startsWith "audio/" type then "audio"
  else if JS.startsWith "video/" type then "video"
  else if String.eqb type "application/pdf" then "pdf"
  else if JS.startsWith "image/" type then "image"
  else if JS.startsWith "text/" type then "text"
  else "unknown".

Definition getMockFileContent (fileInput : FileInput) : string :=
  let category := getFileCategory (fi_type fileInput) in
  let name := fi_name fileInput in
  if String.eqb category "audio" then
    "[Audio content from " +:+ name +:+ "] - Mock transcription for demo"
  else if String.eqb category "video" then
    "[Video content from " +:+ name +:+ "] - Mock video analysis for demo"
  else if String.eqb category "pdf" then
    "[PDF content from " +:+ name +:+ "] - Mock PDF text extraction for demo"
  else if String.eqb category "image" then
    "[Image content from " +:+ name +:+ "] - Mock OCR text extraction for demo"
  else if String.eqb category "text" then
    "[Text content from " +:+ name +:+ "] - Mock text processing for demo"
  else "Mock content from " +:+ name.

Definition getNodeInputData (node : Node) (workflow : Workflow) (self : t) : list InputDatum :=
  let fromFiles :=
    map (fun fileInput =>
           {| source := "file"; in_name := fi_name fileInput;
              in_type := JS.Str (fi_type fileInput);
              in_label := Some (fi_label fileInput);
              in_content := Some (getMockFileContent fileInput) |})
        (default [] (fileInputs node)) in
  let incomingConnections :=
    List.filter (fun conn => String.eqb (to conn) (id node))
                (default [] (connections workflow)) in
  let fromNodes :=
    omap (fun connection =>
            match List.find (fun result => String.eqb (nodeId result) (from connection))
                            (executionResults self) with
            | Some sourceResult =>
                Some {| source := "node"; in_name := fileName connection;
                        in_type := contentType sourceResult; in_label := None;
                        in_content := content sourceResult |}
            | None => None
            end)
         incomingConnections in
  (fromFiles ++ fromNodes)%list.

Definition contentTypes : list (string * string) :=
  [("audio2text", "text/plain"); ("video2audio", "audio/wav"); ("pdf2text", "text/plain");
   ("image2text", "text/plain"); ("webscraper", "text/plain"); ("summarizer", "text/plain");
   ("translator", "text/plain"); ("analyzer", "text/plain");
   ("text2pdf", "application/pdf"); ("text2template", "text/html")].

(** [contentTypes[nodeType] || 'text/plain'] *)
Definition getOutputContentType (nodeType : string) : JS.Value :=
  match JS.get nodeType contentTypes with
  | JS.Own contentType => JS.Str contentType
  | JS.Inherited => JS.Member nodeType
  | JS.Undefined => JS.Str "text/plain"
  end.

Definition newline : string := String (ascii_of_nat 10) EmptyString.

Section Engine.

(** The processing backend [openAIService.processFile(file, type, prompt)]:
    it answers or throws. *)
Variable processFile : nat -> MockFile -> string -> option string -> JsError + ProcessResult.

(** [new Date().toISOString()] *)
Variable toISOString : nat -> string.

(** Reading [outputLabels[0]] of a node without [outputLabels] throws a
    [TypeError]; its message is the engine's. *)
Definition noOutputLabels : JsError :=
  {| message := "Cannot read properties of undefined (reading '0')" |}.

Definition processNodeData (node : Node) (inputData : list InputDatum) (self : t)
    : (JsError + ProcessResult) * t :=
  let combinedContent :=
    JS.join (newline +:+ newline) (map (fun input => default "" (in_content input)) inputData) in
  match outputLabels node with
  | None => (inl noOutputLabels, self)
  | Some labels =>
      let name := match labels with
                  | l :: _ => if String.eqb l "" then type node +:+ "_output.txt" else l
                  | [] => type node +:+ "_output.txt"
                  end in
      let mockFile := {| mf_name := name; mf_content := combinedContent |} in
      (processFile (step self) mockFile (type node) (customPrompt node), tick self)
  end.

Definition successRecord (node : Node) (result : ProcessResult) (stamp : string)
    : ExecutionResult :=
  {| nodeId := id node; nodeType := type node;
     systemName := pr_fileName result;
     content := pr_result result;
     contentType := getOutputContentType (type node);
     size := match pr_result result with Some r => String.length r | None => 0 end;
     success := pr_success result;
     error := None;
     executedAt := stamp |}.

Definition errorRecord (node : Node) (e : JsError) (stamp : string) : ExecutionResult :=
  {| nodeId := id node; nodeType := type node;
     systemName := type node +:+ "_error.txt";
     content := Some ("Error: " +:+ message e);
     contentType := JS.Str "text/plain";
     size := String.length (message e);
     success := false;
     error := Some (message e);
     executedAt := stamp |}.

(** [this.executionResults.push(record)] with a fresh time stamp. *)
Definition pushResult (mk : string -> ExecutionResult) (self : t) : t :=
  tick (setResults (executionResults self ++ [mk (toISOString (step self))])%list self).

Definition executeNode (node : Node) (workflow : Workflow) (self : t)
    : (JsError + ProcessResult) * t :=
  let s1 := emit (StatusUpdate ("Processing " +:+ type node +:+ "...")) self in
  let inputData := getNodeInputData node workflow s1 in
  match processNodeData node inputData s1 with
  | (inr result, s2) => (inr result, pushResult (successRecord node result) s2)
  | (inl e, s2) => (inl e, pushResult (errorRecord node e) s2)
  end.

(** [for (const node of sortedNodes) await this.executeNode(node, workflow);] *)
Fixpoint forSorted (sortedNodes : list Node) (workflow : Workflow) (self : t)
    : (JsError + unit) * t :=
  match sortedNodes with
  | [] => (inr tt, self)
  | node :: rest =>
      match executeNode node workflow self with
      | (inl e, s') => (inl e, s')
      | (inr _, s') => forSorted rest workflow s'
      end
  end.

(** The engine once the [try] block has set the flag, emptied the results
    and announced the run. *)
Definition started (self : t) : t :=
  emit (StatusUpdate "Executing workflow...") (setResults [] (setExecuting true self)).

Definition executeWorkflow (workflow : option Workflow) (self : t)
    : option ((JsError + list ExecutionResult) * t) :=
  let workflowToExecute :=
    match workflow with Some w => Some w | None => currentWorkflow self end in
  match workflowToExecute with
  | None => Some (inl {| message := "No workflow to execute" |}, self)
  | Some w =>
      if isExecuting self then
        Some (inl {| message := "Workflow execution already in progress" |}, self)
      else
        (* try *)
        let s1 := started self in
        match topologicalSort w with
        | None => None
        | Some (inl e) => (* catch: rethrow; finally *)
            Some (inl e, setExecuting false s1)
        | Some (inr sortedNodes) =>
            match forSorted sortedNodes w s1 with
            | (inl e, s2) => Some (inl e, setExecuting false s2)
            | (inr _, s2) =>
                let s3 := emit (WorkflowExecuted (executionResults s2)) s2 in
                Some (inr (executionResults s3), setExecuting false s3)
            end
        end
  end.

End Engine.

End WorkflowEngine.

(** ** InputFilesManager: the labels A to ZZZ of the uploaded files *)

Module InputFilesManager.

(** An uploaded file, as the manager reads it. *)
Record File := { name : string; type : string; size : nat }.

(** [label] (and [id], which holds the same value) is [undefined] once the
    label sequence has run out. *)
Record InputFileLabel := {
  label : option string;
  originalName : string;
  fileType : string;
  fileSize : nat
}.

Record t := {
  inputFileLabels : list InputFileLabel;
  nextLabelIndex : nat;
  currentlySelectedLabel : option string
}.

(** [String.fromCharCode(65 + i)] *)
Definition letter (i : nat) : string := String (ascii_of_nat (65 + i)) EmptyString.

(** [generateLabelSequence()]: A ... Z, AA ... ZZ, AAA ... ZZZ. *)
Definition generateLabelSequence : list string :=
  let range := seq 0 26 in
  (map letter range
   ++ flat_map (fun i => map (fun j => letter i +:+ letter j) range) range
   ++ flat_map (fun i =>
        flat_map (fun j => map (fun k => letter i +:+ letter j +:+ letter k) range) range)
        range)%list.

(** The field [labelSequence], set once by the constructor. *)
Definition labelSequence : list string := generateLabelSequence.

#[global] Arguments labelSequence : simpl never.

(** [new InputFilesManager(eventBus)] *)
Definition new : t :=
  {| inputFileLabels := []; nextLabelIndex := 0; currentlySelectedLabel := None |}.

Definition clearInputFileLabels (self : t) : t :=
  {| inputFileLabels := []; nextLabelIndex := 0; currentlySelectedLabel := None |}.

(** [files.forEach((file, index) => { ... this.inputFileLabels.push(...) })] *)
Fixpoint forFiles (files : list File) (self : t) : t :=
  match files with
  | [] => self
  | file :: files' =>
      let inputFileLabel :=
        {| label := labelSequence !! nextLabelIndex self;
           originalName := name file; fileType := type file; fileSize := size file |} in
      forFiles files'
        {| inputFileLabels := (inputFileLabels self ++ [inputFileLabel])%list;
           nextLabelIndex := S (nextLabelIndex self);
           currentlySelectedLabel := currentlySelectedLabel self |}
  end.

(** [handleFilesUploaded(files)]: the manager afterwards and the payload of
    the event input-file-labels-created that it emits. *)
Definition handleFilesUploaded (files : list File) (self : t) : t * list InputFileLabel :=
  let self1 := clearInputFileLabels self in
  let self2 :=
    forFiles files {| inputFileLabels := inputFileLabels self1; nextLabelIndex := 0;
                      currentlySelectedLabel := currentlySelectedLabel self1 |} in
  (self2, inputFileLabels self2).

Definition getInputFileLabels (self : t) : list InputFileLabel := inputFileLabels self.

(** [item.label === label] *)
Definition labelIs (l : string) (item : InputFileLabel) : bool :=
  match label item with
  | Some x => String.eqb x l
  | None => false
  end.

Definition hasLabel (l : string) (self : t) : bool :=
  existsb (labelIs l) (inputFileLabels self).

Definition removeLabel (l : string) (self : t) : t :=
  {| inputFileLabels := List.filter (fun item => negb (labelIs l item)) (inputFileLabels self);
     nextLabelIndex := nextLabelIndex self;
     currentlySelectedLabel := currentlySelectedLabel self |}.

(** The number that a label spells when A ... Z are the digits 1 ... 26. *)
Fixpoint labelNumber (acc : N) (s : string) : N :=
  match s with
  | EmptyString => acc
  | String c s' => labelNumber (acc * 26 + (N_of_ascii c - 64))%N s'
  end.

Fixpoint increasing (l : list N) : bool :=
  match l with
  | a :: (b :: _) as l' => (a <? b)%N && increasing l'
  | _ => true
  end.

End InputFilesManager.

(** ** TextFilesManager: the .txt labels that can be dropped on nodes *)

Module TextFilesManager.

Record TextFileLabel := {
  id : string;
  label : string;
  originalLabel : option string;   (* [undefined] is [None] *)
  sourceType : string;
  sourceNodeId : string;
  sourceNodeType : option string;
  isVisible : bool
}.

Record t := { textFileLabels : list TextFileLabel }.

(** The events of [handleNodeOutputCreated], which it returns in the order
    it emits them. *)
Inductive Signal :=
| OutputAdded (nodeId nodeType systemName type : string)          (* 'output-added' *)
| CreateOutputConnection (from to label outputId : string).       (* 'create-output-connection' *)

(** [new TextFilesManager(eventBus)] *)
Definition new : t := {| textFileLabels := [] |}.

(** A value in a template literal: [undefined] prints as such. *)
Definition inTemplate (v : option string) : string := default "undefined" v.

Definition clearTextFileLabels (self : t) : t := {| textFileLabels := [] |}.

Definition handleInputFileLabelsCreated
    (inputFileLabels : list InputFilesManager.InputFileLabel) (self : t) : t :=
  let self1 := clearTextFileLabels self in
  {| textFileLabels :=
       (textFileLabels self1
        ++ map (fun inputFileLabel =>
                  {| id := inTemplate (InputFilesManager.label inputFileLabel) +:+ ".txt";
                     label := inTemplate (InputFilesManager.label inputFileLabel) +:+ ".txt";
                     originalLabel := InputFilesManager.label inputFileLabel;
                     sourceType := "auto-generated";
                     sourceNodeId := "upload";
                     sourceNodeType := None;
                     isVisible := true |})
               inputFileLabels)%list |}.

Definition getFileTypeFromExtension (fileName : string) : string :=
  if JS.endsWith ".pdf" fileName then "application/pdf"
  else if JS.endsWith ".docx" fileName then
    "application/vnd.openxmlformats-officedocument.wordprocessingml.document"
  else if JS.endsWith ".html" fileName || JS.endsWith ".htm" fileName then "text/html"
  else "text/plain".

(** [this.textFileLabels.find(item => item.id === id)] as a condition *)
Definition hasId (i : string) (self : t) : bool :=
  existsb (fun item => String.eqb (id item) i) (textFileLabels self).

(** [handleNodeOutputCreated({ fileName, nodeId, nodeType, sourceLabels })] *)
Definition handleNodeOutputCreated (fileName nodeId nodeType : string)
    (sourceLabels : option (list string)) (self : t) : t * list Signal :=
  if negb (JS.endsWith ".txt" fileName) then
    (self, [OutputAdded nodeId nodeType fileName (getFileTypeFromExtension fileName);
            CreateOutputConnection nodeId "output-zone" fileName fileName])
  else
    let textFileLabel :=
      {| id := fileName; label := fileName;
         originalLabel := Some match sourceLabels with
                               | Some labels => JS.join "" labels
                               | None => "processed"
                               end;
         sourceType := "node-output";
         sourceNodeId := nodeId;
         sourceNodeType := Some nodeType;
         isVisible := true |} in
    if negb (hasId (id textFileLabel) self)
    then ({| textFileLabels := (textFileLabels self ++ [textFileLabel])%list |}, [])
    else (self, []).

(** [handleRemoveTextFileLabel({ fileName, sourceNodeId })] *)
Definition handleRemoveTextFileLabel (fileName nodeId : string) (self : t) : t :=
  {| textFileLabels :=
       List.filter (fun item => negb (String.eqb (label item) fileName
                                      && String.eqb (sourceNodeId item) nodeId))
                   (textFileLabels self) |}.

Definition setVisible (b : bool) (item : TextFileLabel) : TextFileLabel :=
  {| id := id item; label := label item; originalLabel := originalLabel item;
     sourceType := sourceType item; sourceNodeId := sourceNodeId item;
     sourceNodeType := sourceNodeType item; isVisible := b |}.

(** [handleFilterByInputFile({ label })] *)
Definition handleFilterByInputFile (l : string) (self : t) : t :=
  {| textFileLabels :=
       map (fun item =>
              let isRelated :=
                match originalLabel item with Some o => String.eqb o l | None => false end
                || JS.startsWith l (label item)
                || JS.includes l (label item) in
              setVisible isRelated item)
           (textFileLabels self) |}.

Definition clearFilter (self : t) : t :=
  {| textFileLabels := map (setVisible true) (textFileLabels self) |}.

Definition clearNodeOutputLabels (self : t) : t :=
  {| textFileLabels :=
       List.filter (fun item => negb (String.eqb (sourceType item) "node-output"))
                   (textFileLabels self) |}.

(** [addTextFileLabel(labelData)] *)
Definition addTextFileLabel (labelData : TextFileLabel) (self : t) : t :=
  if negb (hasId (id labelData) self)
  then {| textFileLabels := (textFileLabels self ++ [setVisible true labelData])%list |}
  else self.

Definition getTextFileLabels (self : t) : list TextFileLabel := textFileLabels self.

Definition removeLabel (l : string) (self : t) : t :=
  {| textFileLabels :=
       List.filter (fun item => negb (String.eqb (label item) l)) (textFileLabels self) |}.

(** No two labels of the panel share an id. *)
Definition distinctIds (self : t) : Prop := List.NoDup (map id (textFileLabels self)).

(** The subscriptions of the panel to the events of the node manager:
    node-output-created goes to [handleNodeOutputCreated] and
    remove-text-file-label to [handleRemoveTextFileLabel]. *)
Definition deliver (e : NodeDataManager.Event) (self : t) : t * list Signal :=
  match e with
  | NodeDataManager.NodeOutputCreated fileName nodeId nodeType sourceLabels =>
      handleNodeOutputCreated fileName nodeId nodeType (Some sourceLabels) self
  | NodeDataManager.RemoveTextFileLabel fileName nodeId =>
      (handleRemoveTextFileLabel fileName nodeId self, [])
  | _ => (self, [])
  end.

(** The events of a log, delivered in the order they were emitted. *)
Fixpoint deliverAll (es : list NodeDataManager.Event) (self : t) : t * list Signal :=
  match es with
  | [] => (self, [])
  | e :: es' =>
      let '(self1, signals1) := deliver e self in
      let '(self2, signals2) := deliverAll es' self1 in
      (self2, (signals1 ++ signals2)%list)
  end.

End TextFilesManager.

(** ** ConnectionManager: the connections drawn on the canvas *)

Module ConnectionManager.

(** [{ type, id }] *)
Record Endpoint := { kind : string; ref : string }.

(** A connection, with the fields the manager compares ([metadata] and
    [createdAt] are left out). *)
Record Connection := {
  id : string;
  from : Endpoint;
  to : Endpoint;
  fileName : string
}.

Record t := { connections : list Connection }.

Inductive Signal :=
| ConnectionEstablished (connection : Connection)    (* 'connection-established' *)
| ConnectionRemoved (connectionId : string).         (* 'connection-removed' *)

Definition new : t := {| connections := [] |}.

(** The test of [createConnection] for an existing connection. *)
Definition sameLink (fromType fromId toType toId name : string) (c : Connection) : bool :=
  String.eqb (kind (from c)) fromType && String.eqb (ref (from c)) fromId
  && String.eqb (kind (to c)) toType && String.eqb (ref (to c)) toId
  && String.eqb (fileName c) name.

(** [createConnection(fromType, fromId, toType, toId, fileName)]; [stamp]
    stands for the time and the random number that the id is made of. *)
Definition createConnection (fromType fromId toType toId name stamp : string) (self : t)
    : Connection * t * list Signal :=
  match List.find (sameLink fromType fromId toType toId name) (connections self) with
  | Some existingConnection => (existingConnection, self, [])
  | None =>
      let connection :=
        {| id := "conn_" +:+ stamp;
           from := {| kind := fromType; ref := fromId |};
           to := {| kind := toType; ref := toId |};
           fileName := name |} in
      (connection, {| connections := (connections self ++ [connection])%list |},
       [ConnectionEstablished connection])
  end.

(** [handleCreateOutputConnection({ from, to, label, outputId })] *)
Definition handleCreateOutputConnection (fromId toId label stamp : string) (self : t)
    : t * list Signal :=
  let '(_, self', signals) := createConnection "node" fromId "output-zone" toId label stamp self in
  (self', signals).

(** [handleConnectionCreated({ from, to, fileName })]; an absent or empty
    field is falsy. *)
Definition handleConnectionCreated (fromId toId name : option string) (stamp : string)
    (self : t) : t * list Signal :=
  match fromId, toId, name with
  | Some f, Some t', Some n =>
      if negb (String.eqb f "") && negb (String.eqb t' "") && negb (String.eqb n "") then
        let '(_, self', signals) := createConnection "node" f "node" t' n stamp self in
        (self', signals)
      else (self, [])
  | _, _, _ => (self, [])
  end.

Definition removeConnection (connectionId : string) (self : t) : t * list Signal :=
  ({| connections :=
        List.filter (fun c => negb (String.eqb (id c) connectionId)) (connections self) |},
   [ConnectionRemoved connectionId]).

(** The test of [getConnectionsForNode] and [handleNodeDeleted]. *)
Definition involves (nodeId : string) (c : Connection) : bool :=
  (String.eqb (kind (from c)) "node" && String.eqb (ref (from c)) nodeId)
  || (String.eqb (kind (to c)) "node" && String.eqb (ref (to c)) nodeId).

Definition getConnectionsForNode (nodeId : string) (self : t) : list Connection :=
  List.filter (involves nodeId) (connections self).

(** [conns.forEach(conn => this.removeConnection(conn.id))] *)
Fixpoint removeEach (conns : list Connection) (self : t) : t * list Signal :=
  match conns with
  | [] => (self, [])
  | conn :: conns' =>
      let '(self1, signals1) := removeConnection (id conn) self in
      let '(self2, signals2) := removeEach conns' self1 in
      (self2, (signals1 ++ signals2)%list)
  end.

Definition handleNodeDeleted (nodeId : string) (self : t) : t * list Signal :=
  removeEach (List.filter (involves nodeId) (connections self)) self.

Definition getAllConnections (self : t) : list Connection := connections self.

Definition clearAllConnections (self : t) : t * list Signal :=
  let '(_, signals) := removeEach (connections self) self in
  ({| connections := [] |}, signals).

(** What a connection links: its two ends and the file it passes. *)
Definition link (c : Connection) : Endpoint * Endpoint * string := (from c, to c, fileName c).

(** No two connections link the same ends with the same file. *)
Definition distinctLinks (self : t) : Prop := List.NoDup (map link (connections self)).

End ConnectionManager.

(** ** NodeColorManager: the red, yellow and green states of a node *)

Module NodeColorManager.

(** The ids of the tools of the palette ([ToolPalette.getToolDefinitions]),
    category by category; [findToolById] finds a tool exactly for these. *)
Definition toolIds : list string :=
  ["pdf2text"; "audio2text"; "image2text"; "video2text"; "webscraper";
   "summarizer"; "translator"; "analyzer"; "join";
   "text2pdf"; "text2docx"; "template"].

(** [this.toolPalette.findToolById(toolId)] as a condition *)
Definition findToolById (toolId : string) : bool := JS.arrIncludes toolId toolIds.

(** The tables of this class are read by [evaluateNodeColor] once
    [findToolById] has found the tool, hence with the ids of the palette
    only: they are read among their own properties. *)
Inductive PromptRequirement := none | optional | mandatory.

Definition requirements : list (string * PromptRequirement) :=
  [("pdf2text", none); ("audio2text", none); ("image2text", none); ("video2text", none);
   ("webscraper", mandatory); ("translator", mandatory); ("analyzer", mandatory);
   ("summarizer", optional); ("join", optional); ("text2pdf", none); ("text2docx", none)].

Definition getPromptRequirement (toolType : string) : PromptRequirement :=
  default none (OutputNaming.assoc toolType requirements).

(** The [minInputs] of the rules of [getInputRules]. *)
Definition minInputsTable : list (string * nat) :=
  [("pdf2text", 1); ("audio2text", 1); ("image2text", 1); ("video2text", 1);
   ("webscraper", 0); ("summarizer", 1); ("translator", 1); ("analyzer", 1); ("join", 2);
   ("text2pdf", 1); ("text2docx", 1); ("text2template", 1)].

Definition minInputs (nodeType : string) : nat :=
  default 1 (OutputNaming.assoc nodeType minInputsTable).

Definition getErrorMessage (toolType : string) : string :=
  default "Required prompt missing"
    (OutputNaming.assoc toolType
       [("webscraper", "URL required"); ("translator", "Target language required");
        ("analyzer", "Analysis type required")]).

Definition getDefaultMessage (toolType : string) : string :=
  default "Using default settings"
    (OutputNaming.assoc toolType
       [("summarizer", "Using default: Brief summary");
        ("join", "Using default: Standard separator")]).

Record ColorState := {
  color : string;
  status : string;
  message : string;
  canExecute : bool
}.

(** [evaluateNodeColor] returns the bare string ['red'] for a tool that the
    palette does not know, and a state object otherwise. *)
Inductive Evaluation :=
| Bare (color : string)
| State (colorState : ColorState).

Definition evaluateNodeColor (nodeData : NodeDataManager.NodeData) : Evaluation :=
  let type := NodeDataManager.type nodeData in
  if negb (findToolById type) then Bare "red"
  else
    let promptRequirement := getPromptRequirement type in
    let hasUserPrompt :=
      negb (String.eqb (NodeDataManager.userPrompt nodeData) "")
      && (0 <? String.length (JS.trim (NodeDataManager.userPrompt nodeData)))%nat in
    let inputCount := length (default [] (NodeDataManager.inputLabels nodeData)) in
    if (inputCount <? minInputs type)%nat then
      State {| color := "red"; status := "error";
               message := type +:+ " requires at least " +:+ pretty (minInputs type)
                          +:+ " input" +:+ (if (1 <? minInputs type)%nat then "s" else "");
               canExecute := false |}
    else
      let ready := State {| color := "green"; status := "ready";
                            message := "Ready to execute"; canExecute := true |} in
      match promptRequirement with
      | mandatory =>
          if negb hasUserPrompt then
            State {| color := "red"; status := "error"; message := getErrorMessage type;
                     canExecute := false |}
          else ready
      | optional =>
          if negb hasUserPrompt then
            State {| color := "yellow"; status := "warning"; message := getDefaultMessage type;
                     canExecute := true |}
          else ready
      | none => ready
      end.

(** *** The stored states and the check before execution *)

(** [nodeStates]: node id to what [evaluateNodeColor] returned. *)
Record t := { nodeStates : gmap string Evaluation }.

Definition new : t := {| nodeStates := ∅ |}.

(** [updateNodeColor(nodeId, colorState)], as far as the manager's state
    goes. *)
Definition updateNodeColor (nodeId : string) (colorState : Evaluation) (self : t) : t :=
  {| nodeStates := <[nodeId := colorState]> (nodeStates self) |}.

Record Finding := { nodeId : string; nodeType : string; finding : string }.

Record Summary := { total : nat; ready : nat; warnings : nat; errors : nat }.

Record Validation := {
  mayExecute : bool;                 (* [canExecute] *)
  errorList : list Finding;          (* [errors] *)
  warningList : list Finding;        (* [warnings] *)
  summary : Summary
}.

(** One round of [nodes.forEach(node => { ... })]. *)
Definition check (self : t) (validation : Validation) (node : NodeDataManager.NodeData)
    : Validation :=
  match nodeStates self !! NodeDataManager.id node with
  | None => validation
  | Some (Bare _) => validation   (* the [color] of a string is [undefined] *)
  | Some (State colorState) =>
      let entry := {| nodeId := NodeDataManager.id node;
                      nodeType := NodeDataManager.type node;
                      finding := message colorState |} in
      let counts := summary validation in
      if String.eqb (color colorState) "red" then
        {| mayExecute := false;
           errorList := (errorList validation ++ [entry])%list;
           warningList := warningList validation;
           summary := {| total := total counts; ready := ready counts;
                         warnings := warnings counts; errors := S (errors counts) |} |}
      else if String.eqb (color colorState) "yellow" then
        {| mayExecute := mayExecute validation;
           errorList := errorList validation;
           warningList := (warningList validation ++ [entry])%list;
           summary := {| total := total counts; ready := ready counts;
                         warnings := S (warnings counts); errors := errors counts |} |}
      else if String.eqb (color colorState) "green" then
        {| mayExecute := mayExecute validation;
           errorList := errorList validation;
           warningList := warningList validation;
           summary := {| total := total counts; ready := S (ready counts);
                         warnings := warnings counts; errors := errors counts |} |}
      else validation
  end.

Definition forceUpdateAllNodes (nodes : list NodeDataManager.NodeData) (self : t) : t :=
  fold_left (fun self node =>
               updateNodeColor (NodeDataManager.id node) (evaluateNodeColor node) self)
    nodes self.

(** The node has a stored state object of the given color. *)
Definition hasColor (c : string) (self : t) (node : NodeDataManager.NodeData) : bool :=
  match nodeStates self !! NodeDataManager.id node with
  | Some (State colorState) => String.eqb (color colorState) c
  | _ => false
  end.

Definition validateWorkflowExecution (nodes : list NodeDataManager.NodeData) (self : t)
    : Validation :=
  fold_left (check self) nodes
    {| mayExecute := true; errorList := []; warningList := [];
       summary := {| total := length nodes; ready := 0; warnings := 0; errors := 0 |} |}.

End NodeColorManager.

(** ** Example data *)

Module Examples.

Definition joinNode (inputs : list string) : NodeDataManager.NodeData :=
  {| NodeDataManager.id := "node_1"; NodeDataManager.type := "join";
     NodeDataManager.inputLabels := Some inputs;
     NodeDataManager.outputLabels := Some [];
     NodeDataManager.userPrompt := EmptyString;
     NodeDataManager.isManuallyCreated := true;
     NodeDataManager.updatedAt := 0 |}.

(** A node as [createNode] makes it, with inputs dropped on it. *)
Definition toolNode (i ty : string) (inputs : list string) : NodeDataManager.NodeData :=
  {| NodeDataManager.id := i; NodeDataManager.type := ty;
     NodeDataManager.inputLabels := Some inputs;
     NodeDataManager.outputLabels := Some [];
     NodeDataManager.userPrompt := EmptyString;
     NodeDataManager.isManuallyCreated := true;
     NodeDataManager.updatedAt := 0 |}.

(** A join node with two inputs, a summarizer with none. *)
Definition nodeStore : NodeDataManager.t :=
  {| NodeDataManager.nodes := [joinNode ["A.txt"; "B.txt"]; toolNode "node_2" "summarizer" []];
     NodeDataManager.nextNodeId := 3;
     NodeDataManager.emitted := [] |}.

Definition aFile (n : string) : InputFilesManager.File :=
  {| InputFilesManager.name := n; InputFilesManager.type := "application/pdf";
     InputFilesManager.size := 1024 |}.

Definition anOutput : OutputZone.Output :=
  {| OutputZone.systemName := "A.txt"; OutputZone.businessName := "A.txt" |}.

Definition joinStore : CascadingDeleteManager.t :=
  {| CascadingDeleteManager.allNodes := [joinNode ["A.txt"; "B.txt"]];
     CascadingDeleteManager.allConnections := [];
     CascadingDeleteManager.inputFilesManager := Some ["A"; "B"];
     CascadingDeleteManager.textFilesManager := Some ["A.txt"; "B.txt"; "AB-joi.txt"];
     CascadingDeleteManager.outputZone := Some {| OutputZone.outputs := [] |} |}.

Definition labelled (i ty : string) (labels : list string) : ToolFlowBuilder.Node :=
  {| ToolFlowBuilder.id := i; ToolFlowBuilder.type := ty;
     ToolFlowBuilder.fileInputs := None; ToolFlowBuilder.inputLabels := Some labels |}.

Definition threeNodes : list ToolFlowBuilder.Node :=
  [labelled "node_1" "summarizer" ["B.txt"; "A.txt"];
   labelled "node_2" "summarizer" ["A.txt"; "B.txt"];
   labelled "node_3" "translator" ["D.txt"; "C.txt"]].

Definition stepNode (i : string) : WorkflowEngine.Node :=
  {| WorkflowEngine.id := i; WorkflowEngine.type := "summarizer";
     WorkflowEngine.fileInputs := None;
     WorkflowEngine.outputLabels := Some [i +:+ "-sum.txt"];
     WorkflowEngine.customPrompt := None |}.

Definition edge (a b : string) : WorkflowEngine.Connection :=
  {| WorkflowEngine.from := a; WorkflowEngine.to := b; WorkflowEngine.fileName := a +:+ "-sum.txt" |}.

Definition chain : WorkflowEngine.Workflow :=
  {| WorkflowEngine.nodes := [stepNode "X"; stepNode "Y"; stepNode "Z"];
     WorkflowEngine.connections := Some [edge "X" "Y"; edge "Y" "Z"] |}.

Definition ring : WorkflowEngine.Workflow :=
  {| WorkflowEngine.nodes := [stepNode "X"; stepNode "Y"];
     WorkflowEngine.connections := Some [edge "X" "Y"; edge "Y" "X"] |}.

(** A backend that fails on the file Y-sum.txt and answers otherwise. *)
Definition failsOnY (k : nat) (file : WorkflowEngine.MockFile) (toolType : string)
    (prompt : option string) : WorkflowEngine.JsError + WorkflowEngine.ProcessResult :=
  if String.eqb (WorkflowEngine.mf_name file) "Y-sum.txt"
  then inl {| WorkflowEngine.message := "backend unavailable" |}
  else inr {| WorkflowEngine.pr_fileName := WorkflowEngine.mf_name file;
              WorkflowEngine.pr_result := Some "done";
              WorkflowEngine.pr_success := true |}.

(** A backend that answers every file. *)
Definition answers (k : nat) (file : WorkflowEngine.MockFile) (toolType : string)
    (prompt : option string) : WorkflowEngine.JsError + WorkflowEngine.ProcessResult :=
  inr {| WorkflowEngine.pr_fileName := WorkflowEngine.mf_name file;
         WorkflowEngine.pr_result := Some "done";
         WorkflowEngine.pr_success := true |}.

Definition plainNode (i : string) : ToolFlowBuilder.Node :=
  {| ToolFlowBuilder.id := i; ToolFlowBuilder.type := "summarizer";
     ToolFlowBuilder.fileInputs := None; ToolFlowBuilder.inputLabels := Some [i +:+ ".txt"] |}.

Definition link (a b : string) : ToolFlowBuilder.Connection :=
  {| ToolFlowBuilder.from := a; ToolFlowBuilder.to := b |}.

(** X -> Y -> Z -> X *)
Definition triangle : option (list ToolFlowBuilder.Connection) :=
  Some [link "X" "Y"; link "Y" "Z"; link "Z" "X"].

(** X -> Y, X -> Z, Y -> W, Z -> W *)
Definition diamond : option (list ToolFlowBuilder.Connection) :=
  Some [link "X" "Y"; link "X" "Z"; link "Y" "W"; link "Z" "W"].

(** A ranking that every connection of the diamond increases. *)
Definition diamondRank (x : string) : nat :=
  if String.eqb x "X" then 0
  else if String.eqb x "Y" then 1
  else if String.eqb x "Z" then 1
  else 2.

End Examples.

(** * Properties *)

Import Examples.

(** ** Strings *)

Section StringFacts.

Lemma append_length (s1 s2 : string) :
  String.length (s1 +:+ s2) = String.length s1 + String.length s2.
Proof.
  induction s1 as [|a s1 IH]; [reflexivity|].
  change (S (String.length (s1 +:+ s2)) = S (String.length s1) + String.length s2).
  rewrite IH. reflexivity.
Qed.

Lemma append_cons (a : ascii) (s1 s2 : string) :
  String a s1 +:+ s2 = String a (s1 +:+ s2).
Proof. reflexivity. Qed.

Lemma append_nil_l (s : string) : "" +:+ s = s.
Proof. reflexivity. Qed.

Lemma append_inj_r (e s1 s2 : string) : s1 +:+ e = s2 +:+ e -> s1 = s2.
Proof.
  revert s2. induction s1 as [|a s1 IH]; intros [|b s2] H.
  - reflexivity.
  - apply (f_equal String.length) in H. rewrite append_nil_l, append_cons in H.
    cbn [String.length] in H. rewrite append_length in H. lia.
  - apply (f_equal String.length) in H. rewrite append_nil_l, append_cons in H.
    cbn [String.length] in H. rewrite append_length in H. lia.
  - rewrite !append_cons in H. injection H as -> H. f_equal. apply IH, H.
Qed.

Lemma numbered_inj (baseName extension : string) (i j : nat) :
  OutputNaming.numbered baseName i extension = OutputNaming.numbered baseName j extension ->
  i = j.
Proof.
  unfold OutputNaming.numbered. intros H.
  apply String.app_inj in H. apply append_inj_r in H.
  apply (inj pretty) in H. exact H.
Qed.

Lemma numbered_2_ne_plain (baseName extension : string) :
  OutputNaming.numbered baseName 2 extension <> baseName +:+ extension.
Proof.
  unfold OutputNaming.numbered. intros H. apply String.app_inj in H.
  apply (f_equal String.length) in H. rewrite append_length in H.
  change (String.length (pretty 2)) with 1 in H. lia.
Qed.

End StringFacts.

(** ** OutputNaming: conflict resolution *)

Section Resolver.

Import OutputNaming.

(** The loop ends within [size cc + 1] rounds: the names it tries are
    pairwise distinct, and only [size cc] names are taken. *)
Lemma whileHas_finds (baseName extension : string) (cc : gmap string nat) :
  forall (fuel counter : nat) (taken : gset string),
    (forall j, counter <= j -> is_Some (cc !! numbered baseName j extension) ->
               numbered baseName j extension ∈ taken) ->
    size taken < fuel ->
    exists k, whileHas fuel cc baseName extension counter = Some k
              /\ counter <= k
              /\ cc !! numbered baseName k extension = None.
Proof.
  induction fuel as [|fuel IH]; intros counter taken Htaken Hsize; [lia|].
  cbn [whileHas].
  destruct (cc !! numbered baseName counter extension) as [v|] eqn:Hc.
  - assert (Hin : numbered baseName counter extension ∈ taken).
    { apply Htaken; [lia|]. rewrite Hc. eauto. }
    destruct (IH (S counter) (taken ∖ {[numbered baseName counter extension]}))
      as (k & Hk & Hle & Hfree).
    + intros j Hj Hsome. apply elem_of_difference. split; [apply Htaken; [lia|done]|].
      rewrite elem_of_singleton. intros Heq. apply numbered_inj in Heq. lia.
    + assert (size taken =
              size ({[numbered baseName counter extension]} : gset string)
              + size (taken ∖ {[numbered baseName counter extension]})) as Hsz.
      { rewrite <- size_union by set_solver. f_equal.
        apply set_eq. intros x. rewrite elem_of_union, elem_of_difference, elem_of_singleton.
        destruct (decide (x = numbered baseName counter extension)); naive_solver. }
      rewrite size_singleton in Hsz. lia.
    + exists k. repeat split; [exact Hk | lia | exact Hfree].
  - exists counter. repeat split; [lia | exact Hc].
Qed.

Lemma whileHas_total (baseName extension : string) (cc : gmap string nat) (counter : nat) :
  exists k, whileHas (S (size cc)) cc baseName extension counter = Some k
            /\ cc !! numbered baseName k extension = None.
Proof.
  destruct (whileHas_finds baseName extension cc (S (size cc)) counter (dom cc))
    as (k & Hk & _ & Hfree).
  - intros j _ Hsome. apply elem_of_dom. exact Hsome.
  - rewrite size_dom. lia.
  - eauto.
Qed.

(** One call: it returns, the name is new to the counter map, and the map
    only grows, recording the name. *)
Lemma resolveNamingConflict_fresh (baseName extension : string) (self : t) :
  exists name self',
    resolveNamingConflict baseName extension self = Some (name, self')
    /\ conflictCounter self !! name = None
    /\ is_Some (conflictCounter self' !! name)
    /\ (forall x, is_Some (conflictCounter self !! x) -> is_Some (conflictCounter self' !! x)).
Proof.
  unfold resolveNamingConflict.
  destruct (conflictCounter self !! (baseName +:+ extension)) as [c|] eqn:Hfull.
  - destruct (whileHas_total baseName extension (conflictCounter self) (c + 1))
      as (k & -> & Hfree).
    eexists _, _. split; [reflexivity|]. cbn [conflictCounter].
    split; [exact Hfree|]. split.
    + rewrite lookup_insert_eq. eauto.
    + intros x Hx.
      destruct (decide (numbered baseName k extension = x)) as [->|Hne].
      * rewrite lookup_insert_eq. eauto.
      * rewrite lookup_insert_ne by done.
        destruct (decide (baseName +:+ extension = x)) as [->|Hne'].
        -- rewrite lookup_insert_eq. eauto.
        -- rewrite lookup_insert_ne by done. exact Hx.
  - eexists _, _. split; [reflexivity|]. cbn [conflictCounter].
    split; [exact Hfull|]. split.
    + rewrite lookup_insert_eq. eauto.
    + intros x Hx.
      destruct (decide (baseName +:+ extension = x)) as [->|Hne].
      * rewrite lookup_insert_eq. eauto.
      * rewrite lookup_insert_ne by done. exact Hx.
Qed.

Lemma resolveAll_fresh (calls : list (string * string)) :
  forall self : t,
  exists names self',
    resolveAll calls self = Some (names, self')
    /\ NoDup names
    /\ (forall name, name ∈ names -> conflictCounter self !! name = None)
    /\ (forall x, is_Some (conflictCounter self !! x) -> is_Some (conflictCounter self' !! x))
    /\ (forall name, name ∈ names -> is_Some (conflictCounter self' !! name)).
Proof.
  induction calls as [|[baseName extension] calls IH]; intros self.
  - exists [], self. cbn. repeat split; [constructor | | done |]; intros name Hin; inversion Hin.
  - cbn [resolveAll].
    destruct (resolveNamingConflict_fresh baseName extension self)
      as (name & self1 & -> & Hnew & Hrec & Hgrow).
    destruct (IH self1) as (names & self2 & -> & Hnd & Hnone & Hgrow2 & Hrec2).
    exists (name :: names), self2. split; [reflexivity|]. repeat split.
    + constructor; [|exact Hnd]. intros Hin. apply Hnone in Hin.
      rewrite Hin in Hrec. destruct Hrec as [? [=]].
    + intros x Hx. apply elem_of_cons in Hx as [->|Hx]; [exact Hnew|].
      destruct (conflictCounter self !! x) eqn:E; [|reflexivity].
      assert (is_Some (conflictCounter self1 !! x)) as Hs by (apply Hgrow; rewrite E; eauto).
      rewrite (Hnone x Hx) in Hs. destruct Hs as [? [=]].
    + intros x Hx. apply Hgrow2, Hgrow, Hx.
    + intros x Hx. apply elem_of_cons in Hx as [->|Hx]; [apply Hgrow2, Hrec | apply Hrec2, Hx].
Qed.

(** C7.  Asking the resolver twice in a row for a base name and extension
    that were not used before (in particular on a new resolver) yields the
    plain name and then the name with suffix 2, as in AB-sum.txt then
    AB-sum2.txt; and over any sequence of calls, from any state, the resolver
    returns every time and never hands out a name twice, nor a name its
    counter map already holds. *)
Theorem C7_resolveNamingConflict_unique :
  (forall baseName extension : string,
     exists s1 s2,
       resolveNamingConflict baseName extension new = Some (baseName +:+ extension, s1)
       /\ resolveNamingConflict baseName extension s1
          = Some (baseName +:+ "2" +:+ extension, s2))
  /\ (forall (self : t) (baseName extension : string),
        conflictCounter self !! (baseName +:+ extension) = None ->
        conflictCounter self !! (baseName +:+ "2" +:+ extension) = None ->
        exists s1 s2,
          resolveNamingConflict baseName extension self = Some (baseName +:+ extension, s1)
          /\ resolveNamingConflict baseName extension s1
             = Some (baseName +:+ "2" +:+ extension, s2))
  /\ (forall (calls : list (string * string)) (self : t),
        exists names self',
          resolveAll calls self = Some (names, self')
          /\ NoDup names
          /\ forall name, name ∈ names -> conflictCounter self !! name = None).
Proof.
  assert (Htwice : forall (self : t) (baseName extension : string),
        conflictCounter self !! (baseName +:+ extension) = None ->
        conflictCounter self !! (baseName +:+ "2" +:+ extension) = None ->
        exists s1 s2,
          resolveNamingConflict baseName extension self = Some (baseName +:+ extension, s1)
          /\ resolveNamingConflict baseName extension s1
             = Some (baseName +:+ "2" +:+ extension, s2)).
  { intros self baseName extension Hplain Htwo.
    unfold resolveNamingConflict at 1. rewrite Hplain.
    eexists _, _. split; [reflexivity|].
    unfold resolveNamingConflict. cbn [conflictCounter].
    rewrite lookup_insert_eq. cbn [whileHas].
    change (numbered baseName (1 + 1) extension) with (baseName +:+ "2" +:+ extension).
    rewrite lookup_insert_ne, Htwo; [reflexivity|].
    intros Heq. symmetry in Heq. exact (numbered_2_ne_plain _ _ Heq). }
  split; [|split].
  - intros baseName extension. apply Htwice; apply lookup_empty.
  - exact Htwice.
  - intros calls self.
    destruct (resolveAll_fresh calls self) as (names & self' & H & Hnd & Hnone & _).
    eauto.
Qed.

Lemma C7_witness :
  exists s1 s2,
    resolveNamingConflict "AB-sum" ".txt" new = Some ("AB-sum.txt", s1)
    /\ resolveNamingConflict "AB-sum" ".txt" s1 = Some ("AB-sum2.txt", s2).
Proof.
  destruct C7_resolveNamingConflict_unique as (_ & H & _).
  apply (H new "AB-sum" ".txt"); reflexivity.
Defined.

End Resolver.

(** ** Combined output names *)

Section CombinedNames.

Lemma sort_sorted (l : list string) : Sorted String.le (JS.sort l).
Proof. apply Sorted_merge_sort; apply _. Qed.

Lemma sort_permutation (l : list string) : JS.sort l ≡ₚ l.
Proof. apply merge_sort_Permutation. Qed.

(** [sort] yields the one ascending arrangement of its argument, so it does
    not depend on the order of the argument. *)
Lemma sort_order_independent (l l' : list string) :
  l ≡ₚ l' -> JS.sort l = JS.sort l'.
Proof.
  intros Hp. apply (Sorted_unique String.le); try apply sort_sorted.
  rewrite !sort_permutation. exact Hp.
Qed.

Lemma sort_idempotent (l : list string) : JS.sort (JS.sort l) = JS.sort l.
Proof. apply sort_order_independent, sort_permutation. Qed.

(** [OutputNaming.generateProcessingOutput] sorts: the name it generates is
    the same for every order of the same labels. *)
Lemma generateProcessingOutput_order_independent
    (l l' : list string) (toolType : string) (params : OutputNaming.Params)
    (self : OutputNaming.t) :
  l ≡ₚ l' ->
  OutputNaming.generateProcessingOutput l toolType params self
  = OutputNaming.generateProcessingOutput l' toolType params self.
Proof.
  intros Hp. unfold OutputNaming.generateProcessingOutput.
  rewrite (sort_order_independent l l' Hp). reflexivity.
Qed.

Lemma generateProcessingOutput_swap :
  OutputNaming.generateProcessingOutput ["B"; "A"] "summarizer"
    {| OutputNaming.language := None |} OutputNaming.new
  = OutputNaming.generateProcessingOutput ["A"; "B"] "summarizer"
      {| OutputNaming.language := None |} OutputNaming.new.
Proof.
  apply (generateProcessingOutput_order_independent ["B"; "A"] ["A"; "B"]).
  apply perm_swap.
Defined.

Lemma generateProcessingOutput_BA :
  fst <$> OutputNaming.generateProcessingOutput ["B"; "A"] "summarizer"
            {| OutputNaming.language := None |} OutputNaming.new
  = Some ["AB-sum.txt"].
Proof. vm_compute. reflexivity. Qed.

(** C1.  [NodeDataManager.outputCombinedFiles], the generator of the
    combined-flow tools (join, analyzer), concatenates the labels in the
    order in which they were added and does not sort them: for the inputs B
    then A and the suffix -sum.txt it yields BA-sum.txt, not AB-sum.txt; a
    join node yields BA-joi.txt or AB-joi.txt depending on the order of its
    inputs. *)
Theorem C1_outputCombinedFiles_keeps_input_order :
  NodeDataManager.outputCombinedFiles ["B"; "A"] "-sum.txt" = ["BA-sum.txt"]
  /\ NodeDataManager.outputCombinedFiles ["A"; "B"] "-sum.txt" = ["AB-sum.txt"]
  /\ NodeDataManager.generateSimulatedOutputs (joinNode ["B.txt"; "A.txt"]) = ["BA-joi.txt"]
  /\ NodeDataManager.generateSimulatedOutputs (joinNode ["A.txt"; "B.txt"]) = ["AB-joi.txt"].
Proof. repeat split; vm_compute; reflexivity. Qed.

End CombinedNames.

(** ** Execution readiness *)

Section Readiness.

Import ToolFlowBuilder.

(** C8, as stated, fails: with an output entry and no node, but no uploaded
    file, the workflow is judged not executable. *)
Lemma C8_counterexample :
  exists files outputs workflow heap,
    nodes workflow = Some []
    /\ outputs <> []
    /\ files = []
    /\ validateWorkflow files outputs (Some workflow) heap = Some (false, heap).
Proof.
  exists [], [anOutput], {| nodes := Some []; connections := None |}, [].
  repeat split. intros [=].
Qed.

(** C8, amended.  A workflow with zero nodes (or none at all) is judged
    valid whenever at least one file is uploaded and at least one Output
    Entry exists; with no uploaded file it is judged invalid, whatever the
    Output Entries are.  Either way the store of node objects is left as it
    was. *)
Theorem C8_validateWorkflow_no_nodes
    (files : list string) (outputs : list OutputZone.Output)
    (workflow : option Workflow) (heap : list Node) :
  (workflow = None \/ exists wf, workflow = Some wf /\ (nodes wf = None \/ nodes wf = Some [])) ->
  (files <> [] -> outputs <> [] ->
   validateWorkflow files outputs workflow heap = Some (true, heap))
  /\ (files = [] -> validateWorkflow files outputs workflow heap = Some (false, heap)).
Proof.
  intros Hw. unfold validateWorkflow. split.
  - intros Hf Ho.
    destruct files as [|f files]; [done|].
    destruct outputs as [|o outputs]; [done|].
    cbn [length Nat.eqb].
    destruct Hw as [->|(wf & -> & [-> | ->])]; reflexivity.
  - intros ->. reflexivity.
Qed.

Lemma C8_witness :
  validateWorkflow ["report.pdf"] [anOutput] (Some {| nodes := Some []; connections := None |}) []
  = Some (true, [])
  /\ validateWorkflow [] [anOutput] (Some {| nodes := Some []; connections := None |}) []
     = Some (false, []).
Proof.
  assert (Hzero : Some {| nodes := Some []; connections := None |} = None
                  \/ exists wf, Some {| nodes := Some []; connections := None |} = Some wf
                                /\ (nodes wf = None \/ nodes wf = Some [])).
  { right. eexists. split; [reflexivity|]. right. reflexivity. }
  split.
  - destruct (C8_validateWorkflow_no_nodes ["report.pdf"] [anOutput]
                (Some {| nodes := Some []; connections := None |}) [] Hzero) as [Hvalid _].
    apply Hvalid; intros [=].
  - destruct (C8_validateWorkflow_no_nodes [] [anOutput]
                (Some {| nodes := Some []; connections := None |}) [] Hzero) as [_ Hinvalid].
    apply Hinvalid. reflexivity.
Defined.

End Readiness.

(** ** Node Store: rejected labels *)

Section Rejection.

Import NodeDataManager.

Lemma arrIncludes_In (x : string) (arr : list string) :
  JS.arrIncludes x arr = true <-> In x arr.
Proof.
  unfold JS.arrIncludes. rewrite existsb_exists. split.
  - intros (y & Hin & Heq). apply String.eqb_eq in Heq. subst. exact Hin.
  - intros Hin. exists x. split; [exact Hin | apply String.eqb_refl].
Qed.

(** Reading a table. *)
Lemma get_Own {A} (key : string) (object : list (string * A)) (value : A) :
  JS.get key object = JS.Own value -> In (key, value) object.
Proof.
  induction object as [|[name v] object IH]; cbn [JS.get].
  - destruct (JS.arrIncludes key JS.objectPrototype); discriminate.
  - destruct (String.eqb_spec key name) as [->|_].
    + intros [= ->]. left. reflexivity.
    + intros H. right. apply IH, H.
Qed.

Lemma get_Inherited {A} (key : string) (object : list (string * A)) :
  JS.get key object = JS.Inherited ->
  In key JS.objectPrototype /\ ~ In key (map fst object).
Proof.
  induction object as [|[name v] object IH]; cbn [JS.get map fst In].
  - destruct (JS.arrIncludes key JS.objectPrototype) eqn:E; [|discriminate].
    intros _. split; [apply arrIncludes_In, E | tauto].
  - destruct (String.eqb_spec key name) as [->|Hne]; [discriminate|].
    intros H. destruct (IH H) as [H1 H2]. split; [exact H1|].
    intros [E|Hin]; [congruence | exact (H2 Hin)].
Qed.

Lemma get_Undefined {A} (key : string) (object : list (string * A)) :
  JS.get key object = JS.Undefined ->
  ~ In key JS.objectPrototype /\ ~ In key (map fst object).
Proof.
  induction object as [|[name v] object IH]; cbn [JS.get map fst In].
  - destruct (JS.arrIncludes key JS.objectPrototype) eqn:E; [discriminate|].
    intros _. split; [|tauto]. rewrite <- arrIncludes_In, E. discriminate.
  - destruct (String.eqb_spec key name) as [->|Hne]; [discriminate|].
    intros H. destruct (IH H) as [H1 H2]. split; [exact H1|].
    intros [E|Hin]; [congruence | exact (H2 Hin)].
Qed.

(** Every type has rules with an accepted-type set and a minimum, but the
    names of the members of [Object.prototype]: they find the member, which
    has neither. *)
Lemma getInputRules_fields (nodeType : string) :
  (In nodeType JS.objectPrototype /\ getInputRules nodeType = inheritedMember)
  \/ (~ In nodeType JS.objectPrototype
      /\ exists accepted min, getInputRules nodeType
                              = rulesObject accepted min (maxInputs (getInputRules nodeType))).
Proof.
  unfold getInputRules. destruct (JS.get nodeType rules) as [r| |] eqn:E.
  - right. apply get_Own in E. cbn in E.
    repeat (destruct E as [[= <- <-]|E];
            [split; [cbn; intuition discriminate | eexists _, _; reflexivity]|]).
    destruct E.
  - left. apply get_Inherited in E. tauto.
  - right. apply get_Undefined in E. split; [tauto|]. eexists _, _. reflexivity.
Qed.

Lemma acceptedTypes_defined (nodeType : string) :
  (exists accepted, acceptedTypes (getInputRules nodeType) = Some accepted)
  <-> ~ In nodeType JS.objectPrototype.
Proof.
  destruct (getInputRules_fields nodeType) as [[Hin ->] | (Hout & accepted & min & ->)].
  - cbn. split; [intros [? [=]] | contradiction].
  - cbn. split; [auto | eauto].
Qed.




(** The type check throws for a type that has no accepted-type set, and so
    do the validation and the two calls that start with it; nothing is
    written or emitted before. *)
Lemma validateNodeInput_throws (N : NodeData) (L : string) :
  acceptedTypes (getInputRules (type N)) = None ->
  validateNodeInput N L = inl (JS.CannotReadProperties "includes").
Proof.
  intros Hset. unfold validateNodeInput, isInputTypeValid. cbv zeta. rewrite Hset. reflexivity.
Qed.


End Rejection.


(** ** Cascading delete analysis *)

Section Cascade.

Import CascadingDeleteManager.

Lemma scanNodes_affected (self : t) (base : string) (nodes : list NodeDataManager.NodeData) :
  forall acc,
    (scanNodes self base nodes acc).1.1
    = (acc.1.1 ++ map (fun n => analyzeNodeDeletion n base)
                      (List.filter (fun n => nodeUsesLabel n base) nodes))%list.
Proof.
  induction nodes as [|node nodes IH]; intros [[affected deleted] total].
  - cbn. rewrite app_nil_r. reflexivity.
  - cbn [scanNodes List.filter].
    destruct (nodeUsesLabel node base).
    + destruct (willBeDeleted (analyzeNodeDeletion node base));
        rewrite IH; cbn [fst snd map]; rewrite <- app_assoc; reflexivity.
    + rewrite IH. reflexivity.
Qed.

Lemma scanNodes_unused (self : t) (base : string) (nodes : list NodeDataManager.NodeData) :
  (forall node, In node nodes -> nodeUsesLabel node base = false) ->
  forall acc, scanNodes self base nodes acc = acc.
Proof.
  induction nodes as [|node nodes IH]; intros Hun [[affected deleted] total]; [reflexivity|].
  cbn [scanNodes]. rewrite (Hun node) by (left; reflexivity).
  apply IH. intros n Hn. apply Hun. right. exact Hn.
Qed.

Lemma affectedNodes_eq (L : string) (self : t) :
  affectedNodes (analyzeDeletionImpact L self)
  = map (fun n => analyzeNodeDeletion n (JS.replaceFirst ".txt" "" L))
        (List.filter (fun n => nodeUsesLabel n (JS.replaceFirst ".txt" "" L)) (allNodes self)).
Proof.
  unfold analyzeDeletionImpact.
  pose proof (scanNodes_affected self (JS.replaceFirst ".txt" "" L) (allNodes self) ([], [], 0)) as H.
  destruct (scanNodes self (JS.replaceFirst ".txt" "" L) (allNodes self) ([], [], 0))
    as [[affected deleted] total].
  cbn in H |- *. exact H.
Qed.

Lemma cascadingDeletes_eq (L : string) (self : t) :
  cascadingDeletes (analyzeDeletionImpact L self)
  = List.filter (fun label =>
                   if String.eqb label L then false
                   else JS.includes (JS.replaceFirst ".txt" "" L)
                                    (JS.stripSuffix knownExtensions label))
                (getAllLabelsInSystem self).
Proof.
  unfold analyzeDeletionImpact.
  destruct (scanNodes self (JS.replaceFirst ".txt" "" L) (allNodes self) ([], [], 0))
    as [[affected deleted] total].
  reflexivity.
Qed.

(** Removing the inputs that a predicate selects, when it selects one,
    leaves fewer inputs. *)
Lemma filter_negb_shorter {A} (p : A -> bool) (l : list A) :
  existsb p l = true -> length (List.filter (fun x => negb (p x)) l) < length l.
Proof.
  induction l as [|x l IH]; cbn; [discriminate|].
  destruct (p x) eqn:Hp; cbn.
  - intros _. pose proof (List.filter_length_le (fun x => negb (p x)) l). lia.
  - intros H. apply IH in H. lia.
Qed.

(** On the node types of the Node Store's rules table, the analyzer's own
    table gives the same minimum. *)
Lemma minInputs_tables_agree (nodeType : string) :
  In nodeType (map fst NodeDataManager.rules) ->
  minInputs (getInputRules nodeType)
  = NodeDataManager.minInputs (NodeDataManager.getInputRules nodeType).
Proof.
  cbn. intros H. repeat (destruct H as [<-|H]; [reflexivity|]). destruct H.
Qed.

(** The minimum of a type: two for join, one for every other type, but for
    the names of the members of [Object.prototype], which find the member
    in place of rules and have no minimum. *)
Lemma getInputRules_minimum (nodeType : string) :
  minInputs (getInputRules nodeType)
  = if String.eqb nodeType "join" then Some 2
    else if JS.arrIncludes nodeType JS.objectPrototype then None
    else Some 1.
Proof.
  unfold getInputRules. destruct (JS.get nodeType rules) as [r| |] eqn:E.
  - apply get_Own in E. cbn in E.
    repeat (destruct E as [[= <- <-]|E]; [reflexivity|]). destruct E.
  - apply get_Inherited in E as [Hin Hout].
    destruct (String.eqb_spec nodeType "join") as [->|_]; [exfalso; apply Hout; cbn; tauto|].
    apply arrIncludes_In in Hin. rewrite Hin. reflexivity.
  - apply get_Undefined in E as [Hin Hout].
    destruct (String.eqb_spec nodeType "join") as [->|_]; [exfalso; apply Hout; cbn; tauto|].
    destruct (JS.arrIncludes nodeType JS.objectPrototype) eqn:E;
      [apply arrIncludes_In in E; contradiction | reflexivity].
Qed.

(** What the analysis says of a node that uses the deleted label. *)
Lemma analyzeNodeDeletion_describes (node : NodeDataManager.NodeData) (L : string) :
  nodeUsesLabel node (inputBase L) = true ->
  let ni := analyzeNodeDeletion node (inputBase L) in
  nodeId ni = NodeDataManager.id node
  /\ nodeType ni = NodeDataManager.type node
  /\ currentInputs ni = default [] (NodeDataManager.inputLabels node)
  /\ remainingInputs ni
     = List.filter (fun x => negb (String.eqb (inputBase x) (inputBase L))) (currentInputs ni)
  /\ length (remainingInputs ni) < length (currentInputs ni)
  /\ ((forall x, In x (currentInputs ni) -> inputBase x = inputBase L -> x = L) ->
      remainingInputs ni = List.filter (fun x => negb (String.eqb x L)) (currentInputs ni))
  /\ (willBeDeleted ni = true <->
      exists min, minInputs (getInputRules (NodeDataManager.type node)) = Some min
                  /\ length (remainingInputs ni) < min)
  /\ (willBeDeleted ni = false -> reason ni = "Node will continue with remaining inputs")
  /\ (minInputs (getInputRules (NodeDataManager.type node)) = Some 2 ->
      length (currentInputs ni) = 2 -> willBeDeleted ni = true).
Proof.
  intros Huses ni. subst ni. unfold analyzeNodeDeletion.
  cbn [nodeId nodeType currentInputs remainingInputs willBeDeleted reason].
  assert (Hshorter :
            length (List.filter (fun input => negb (String.eqb (inputBase input) (inputBase L)))
                                (default [] (NodeDataManager.inputLabels node)))
            < length (default [] (NodeDataManager.inputLabels node))).
  { unfold nodeUsesLabel in Huses.
    destruct (NodeDataManager.inputLabels node) as [ins|]; [|discriminate].
    exact (filter_negb_shorter (fun input => String.eqb (inputBase input) (inputBase L))
             ins Huses). }
  split_and!; try reflexivity.
  - exact Hshorter.
  - intros Hone. apply filter_ext_in. intros x Hx. f_equal.
    destruct (String.eqb_spec x L) as [->|Hne]; [apply String.eqb_refl|].
    apply String.eqb_neq. intros Hbase. apply Hne, Hone; assumption.
  - unfold JS.lt. destruct (minInputs (getInputRules (NodeDataManager.type node))) as [min|].
    + rewrite Nat.ltb_lt. split; [eauto | intros (m & [= <-] & Hlt); exact Hlt].
    + split; [discriminate | intros (m & [=] & _)].
  - intros ->. reflexivity.
  - intros Hmin Hlen. rewrite Hmin. cbn [JS.lt]. apply Nat.ltb_lt. lia.
Qed.

(** C3.  The analysis reports the nodes of the store that use the deleted
    label (one of their inputs names it, with or without .txt), each once,
    in the order of the store, and no other node.  The remaining inputs of a
    reported node are its current inputs without those that name the deleted
    label: without the deleted label itself when no other input names it.
    The node is marked deleted entirely exactly when its type has a minimum
    and the remaining inputs are fewer, and modified otherwise.  The minimum
    is two for join and one for every other type (the name of a member of
    Object.prototype has none).  So a node whose type needs two inputs and
    that has exactly two, one of them the deleted label, is marked deleted
    entirely. *)
Theorem C3_willBeDeleted_iff_below_minimum (self : t) (L : string) :
  let impact := analyzeDeletionImpact L self in
  let uses (node : NodeDataManager.NodeData) := nodeUsesLabel node (inputBase L) = true in
  let describes (node : NodeDataManager.NodeData) (ni : NodeImpact) :=
    nodeId ni = NodeDataManager.id node
    /\ nodeType ni = NodeDataManager.type node
    /\ currentInputs ni = default [] (NodeDataManager.inputLabels node)
    /\ remainingInputs ni
       = List.filter (fun x => negb (String.eqb (inputBase x) (inputBase L))) (currentInputs ni)
    /\ length (remainingInputs ni) < length (currentInputs ni)
    /\ ((forall x, In x (currentInputs ni) -> inputBase x = inputBase L -> x = L) ->
        remainingInputs ni = List.filter (fun x => negb (String.eqb x L)) (currentInputs ni))
    /\ (willBeDeleted ni = true <->
        exists min, minInputs (getInputRules (NodeDataManager.type node)) = Some min
                    /\ length (remainingInputs ni) < min)
    /\ (willBeDeleted ni = false -> reason ni = "Node will continue with remaining inputs")
    /\ (minInputs (getInputRules (NodeDataManager.type node)) = Some 2 ->
        length (currentInputs ni) = 2 -> willBeDeleted ni = true) in
  map nodeId (affectedNodes impact)
  = map NodeDataManager.id
        (List.filter (fun node => nodeUsesLabel node (inputBase L)) (allNodes self))
  /\ (forall ni, In ni (affectedNodes impact) ->
        exists node, In node (allNodes self) /\ uses node /\ describes node ni)
  /\ (forall node, In node (allNodes self) -> uses node ->
        exists ni, In ni (affectedNodes impact) /\ describes node ni)
  /\ (forall nodeType,
        minInputs (getInputRules nodeType)
        = if String.eqb nodeType "join" then Some 2
          else if JS.arrIncludes nodeType JS.objectPrototype then None
          else Some 1).
Proof.
  intros impact uses describes. subst impact uses describes. cbv beta.
  rewrite affectedNodes_eq. fold (inputBase L). split_and!.
  - rewrite map_map. reflexivity.
  - intros ni Hin. apply in_map_iff in Hin as (node & <- & Hnode).
    apply filter_In in Hnode as [Hnode Huses].
    exists node. split; [exact Hnode|]. split; [exact Huses|].
    exact (analyzeNodeDeletion_describes node L Huses).
  - intros node Hnode Huses. exists (analyzeNodeDeletion node (inputBase L)). split.
    + apply in_map_iff. exists node. split; [reflexivity|]. apply filter_In. auto.
    + exact (analyzeNodeDeletion_describes node L Huses).
  - exact getInputRules_minimum.
Qed.

End Cascade.

Lemma C3_witness :
  (exists ni,
     In ni (CascadingDeleteManager.affectedNodes
              (CascadingDeleteManager.analyzeDeletionImpact "A.txt" joinStore))
     /\ CascadingDeleteManager.nodeId ni = "node_1"
     /\ CascadingDeleteManager.currentInputs ni = ["A.txt"; "B.txt"]
     /\ CascadingDeleteManager.remainingInputs ni = ["B.txt"]
     /\ CascadingDeleteManager.willBeDeleted ni = true)
  /\ (exists ni,
        In ni (CascadingDeleteManager.affectedNodes
                 (CascadingDeleteManager.analyzeDeletionImpact "A.txt"
                    {| CascadingDeleteManager.allNodes :=
                         [toolNode "node_2" "summarizer" ["A.txt"; "B.txt"]];
                       CascadingDeleteManager.allConnections := [];
                       CascadingDeleteManager.inputFilesManager := None;
                       CascadingDeleteManager.textFilesManager := None;
                       CascadingDeleteManager.outputZone := None |}))
        /\ CascadingDeleteManager.nodeId ni = "node_2"
        /\ CascadingDeleteManager.remainingInputs ni = ["B.txt"]
        /\ CascadingDeleteManager.willBeDeleted ni = false).
Proof.
  split.
  - destruct (C3_willBeDeleted_iff_below_minimum joinStore "A.txt") as (_ & _ & Hall & Hmin).
    destruct (Hall (joinNode ["A.txt"; "B.txt"]))
      as (ni & Hin & Hid & _ & Hcur & Hrem & _ & _ & _ & _ & Htwo).
    + left. reflexivity.
    + reflexivity.
    + exists ni. split; [exact Hin|]. split; [exact Hid|]. split; [exact Hcur|].
      split.
      * rewrite Hrem, Hcur. reflexivity.
      * apply Htwo; [exact (Hmin "join") | rewrite Hcur; reflexivity].
  - destruct (C3_willBeDeleted_iff_below_minimum
                {| CascadingDeleteManager.allNodes :=
                     [toolNode "node_2" "summarizer" ["A.txt"; "B.txt"]];
                   CascadingDeleteManager.allConnections := [];
                   CascadingDeleteManager.inputFilesManager := None;
                   CascadingDeleteManager.textFilesManager := None;
                   CascadingDeleteManager.outputZone := None |} "A.txt")
      as (_ & _ & Hall & Hmin).
    destruct (Hall (toolNode "node_2" "summarizer" ["A.txt"; "B.txt"]))
      as (ni & Hin & Hid & _ & Hcur & Hrem & _ & _ & Hiff & _ & _).
    + left. reflexivity.
    + reflexivity.
    + assert (Hremaining : CascadingDeleteManager.remainingInputs ni = ["B.txt"])
        by (rewrite Hrem, Hcur; reflexivity).
      exists ni. split; [exact Hin|]. split; [exact Hid|]. split; [exact Hremaining|].
      destruct (CascadingDeleteManager.willBeDeleted ni); [|reflexivity].
      exfalso. destruct (proj1 Hiff eq_refl) as (min & Hsome & Hlt).
      change (NodeDataManager.type (toolNode "node_2" "summarizer" ["A.txt"; "B.txt"]))
        with "summarizer" in Hsome.
      rewrite (Hmin "summarizer") in Hsome. vm_compute in Hsome. injection Hsome as <-.
      rewrite Hremaining in Hlt. cbn in Hlt. lia.
Defined.

Section CascadeLabels.

Import CascadingDeleteManager.

Lemma dedupe_In (arr : list string) :
  forall seen x, In x (JS.dedupe seen arr) <-> In x arr /\ ~ In x seen.
Proof.
  induction arr as [|y arr IH]; intros seen x; cbn [JS.dedupe].
  - cbn. tauto.
  - destruct (JS.arrIncludes y seen) eqn:Hy.
    + apply arrIncludes_In in Hy. rewrite IH. cbn. split.
      * intros [H1 H2]. tauto.
      * intros [[->|H1] H2]; [contradiction|tauto].
    + assert (~ In y seen) as Hn.
      { rewrite <- arrIncludes_In. rewrite Hy. discriminate. }
      cbn [In]. rewrite IH. cbn [In]. split.
      * intros [->|[H1 H2]]; [tauto|]. split; [tauto|]. intros H3. apply H2. right. exact H3.
      * intros [[->|H1] H2]; [left; reflexivity|].
        destruct (String.eqb_spec y x) as [->|Hne]; [left; reflexivity|].
        right. split; [exact H1|]. intros [H3|H3]; [contradiction|contradiction].
Qed.

Lemma dedupe_NoDup (arr : list string) :
  forall seen, List.NoDup (JS.dedupe seen arr).
Proof.
  induction arr as [|y arr IH]; intros seen; cbn [JS.dedupe]; [constructor|].
  destruct (JS.arrIncludes y seen); [apply IH|].
  constructor; [|apply IH].
  rewrite dedupe_In. intros [_ H]. apply H. left. reflexivity.
Qed.

Lemma getAllLabelsInSystem_In (self : t) (l : string) :
  In l (default [] (inputFilesManager self)) \/ In l (default [] (textFilesManager self)) ->
  In l (getAllLabelsInSystem self).
Proof.
  intros H. unfold getAllLabelsInSystem. apply dedupe_In. split; [|intros []].
  rewrite !in_app_iff. tauto.
Qed.

Lemma getAllLabelsInSystem_stores (self : t) (l : string) :
  In l (getAllLabelsInSystem self) ->
  In l (default [] (inputFilesManager self))
  \/ In l (default [] (textFilesManager self))
  \/ exists zone, outputZone self = Some zone /\ OutputZone.hasLabel l zone = true.
Proof.
  unfold getAllLabelsInSystem. rewrite dedupe_In, !in_app_iff.
  intros [[H|[H|H]] _]; [tauto|tauto|].
  exfalso. destruct (outputZone self); cbn in H; exact H.
Qed.

(** C2, as stated, fails: deleting the label A.pdf does not cascade to the
    text label A.txt, although A.txt without its extension contains A, the
    label A.pdf without its extension. *)
Lemma C2_counterexample :
  exists (self : t) (L l : string),
    In l (default [] (textFilesManager self))
    /\ l <> L
    /\ JS.includes (Spec.withoutExtension L) (Spec.withoutExtension l) = true
    /\ ~ In l (cascadingDeletes (analyzeDeletionImpact L self)).
Proof.
  exists {| allNodes := []; allConnections := [];
            inputFilesManager := Some ["A"]; textFilesManager := Some ["A.txt"];
            outputZone := None |}, "A.pdf", "A.txt".
  split; [left; reflexivity|]. split; [discriminate|]. split; [reflexivity|].
  vm_compute. intros [].
Qed.

(** C2, amended.  The cascading-delete list of [analyzeDeletionImpact L]
    holds no label twice and only labels of the stores other than L whose
    name, with a final .txt, .pdf, .docx or .xlsx removed, contains L with its
    first .txt removed; every such label of the input-file and text-file
    stores is in the list.  When no node uses the label, no node is affected
    and no connection disappears; when no other label contains the base name,
    no label cascades. *)
Theorem C2_cascadingDeletes_by_containment (self : t) (L : string) :
  let impact := analyzeDeletionImpact L self in
  let contains l := JS.includes (JS.replaceFirst ".txt" "" L)
                                (JS.stripSuffix [".txt"; ".pdf"; ".docx"; ".xlsx"] l) in
  List.NoDup (cascadingDeletes impact)
  /\ (forall l, In l (cascadingDeletes impact) ->
        l <> L /\ contains l = true
        /\ (In l (default [] (inputFilesManager self))
            \/ In l (default [] (textFilesManager self))
            \/ exists zone, outputZone self = Some zone /\ OutputZone.hasLabel l zone = true))
  /\ (forall l, In l (default [] (inputFilesManager self))
                \/ In l (default [] (textFilesManager self)) ->
        l <> L -> contains l = true -> In l (cascadingDeletes impact))
  /\ ((forall node, In node (allNodes self) -> nodeUsesLabel node (inputBase L) = false) ->
      affectedNodes impact = [] /\ totalNodesDeleted impact = 0
      /\ deletedConnections impact = [] /\ totalConnectionsDeleted impact = 0)
  /\ ((forall l, In l (getAllLabelsInSystem self) -> l <> L -> contains l = false) ->
      cascadingDeletes impact = []).
Proof.
  cbv zeta. rewrite cascadingDeletes_eq. fold knownExtensions.
  split; [|split; [|split; [|split]]].
  - apply List.NoDup_filter, dedupe_NoDup.
  - intros l Hl. apply filter_In in Hl as [Hall Hp].
    destruct (String.eqb_spec l L) as [->|Hne]; [discriminate|].
    split; [exact Hne|]. split; [exact Hp|].
    apply getAllLabelsInSystem_stores, Hall.
  - intros l Hstore Hne Hc. apply filter_In. split.
    + apply getAllLabelsInSystem_In, Hstore.
    + destruct (String.eqb_spec l L) as [->|_]; [contradiction|exact Hc].
  - intros Hun. unfold analyzeDeletionImpact. fold (inputBase L).
    rewrite (scanNodes_unused self (inputBase L) (allNodes self) Hun). cbn. tauto.
  - intros Hnone.
    destruct (List.filter _ (getAllLabelsInSystem self)) as [|l rest] eqn:E; [reflexivity|].
    assert (In l (l :: rest)) as Hin by (left; reflexivity).
    rewrite <- E in Hin. apply filter_In in Hin as [Hall Hp].
    destruct (String.eqb_spec l L) as [->|Hne]; [discriminate|].
    rewrite (Hnone l Hall Hne) in Hp. discriminate.
Qed.

End CascadeLabels.

Lemma C2_witness :
  let self := {| CascadingDeleteManager.allNodes := [];
                 CascadingDeleteManager.allConnections := [];
                 CascadingDeleteManager.inputFilesManager := Some ["A"; "B"];
                 CascadingDeleteManager.textFilesManager := Some ["B.txt"];
                 CascadingDeleteManager.outputZone := Some {| OutputZone.outputs := [] |} |} in
  CascadingDeleteManager.affectedNodes (CascadingDeleteManager.analyzeDeletionImpact "A" self) = []
  /\ CascadingDeleteManager.cascadingDeletes
       (CascadingDeleteManager.analyzeDeletionImpact "A" self) = [].
Proof.
  intros self.
  destruct (C2_cascadingDeletes_by_containment self "A") as (_ & _ & _ & Hnodes & Hlabels).
  split.
  - apply Hnodes. intros node [].
  - apply Hlabels. intros l Hin Hne. vm_compute in Hin.
    destruct Hin as [<-|[<-|[<-|[]]]]; [contradiction|reflexivity|reflexivity].
Defined.

(** ** Duplicate-action detection *)

Section Duplicates.

Import ToolFlowBuilder.

Lemma sortedInPlace_idempotent (node : Node) :
  sortedInPlace (sortedInPlace node) = sortedInPlace node.
Proof.
  unfold sortedInPlace. cbn. destruct (inputLabels node) as [labels|]; cbn; [|reflexivity].
  rewrite sort_idempotent. reflexivity.
Qed.

Lemma typeInputKey_sortedInPlace (node : Node) :
  typeInputKey (sortedInPlace node) = typeInputKey node.
Proof.
  unfold typeInputKey, sortedInPlace. cbn. destruct (inputLabels node) as [labels|]; cbn;
    [|reflexivity].
  rewrite sort_idempotent. reflexivity.
Qed.

Lemma typeInputKeys_insert (heap : list Node) (a : nat) (node : Node) (addrs : list nat) :
  heap !! a = Some node ->
  typeInputKeys (<[a := sortedInPlace node]> heap) addrs = typeInputKeys heap addrs.
Proof.
  intros Ha. unfold typeInputKeys. induction addrs as [|b addrs IH]; [reflexivity|].
  cbn [omap list_omap]. destruct (decide (b = a)) as [->|Hne].
  - rewrite list_lookup_insert_eq by (eapply lookup_lt_Some, Ha). rewrite Ha. cbn [map].
    rewrite typeInputKey_sortedInPlace. f_equal. exact IH.
  - rewrite list_lookup_insert_ne by congruence.
    destruct (heap !! b); cbn [map]; [f_equal|]; exact IH.
Qed.

Lemma forDuplicates_step (m : gmap string nat) (a : nat) (addrs : list nat)
    (heap : list Node) (node : Node) :
  heap !! a = Some node ->
  forDuplicates m (a :: addrs) heap
  = match m !! typeInputKey node with
    | Some _ => (true, <[a := sortedInPlace node]> heap)
    | None => forDuplicates (<[typeInputKey node := a]> m) addrs
                            (<[a := sortedInPlace node]> heap)
    end.
Proof.
  intros Ha. cbn [forDuplicates]. rewrite Ha. unfold typeInputKey, sortedInPlace.
  destruct (inputLabels node) as [labels|] eqn:Hl; cbn [fmap option_fmap option_map].
  - reflexivity.
  - assert (<[a := {| id := id node; type := type node; fileInputs := fileInputs node;
                      inputLabels := None |}]> heap = heap) as ->; [|reflexivity].
    apply list_insert_id. rewrite Ha. f_equal. destruct node; cbn in Hl |- *.
    rewrite Hl. reflexivity.
Qed.

Lemma forDuplicates_decides (addrs : list nat) :
  forall (m : gmap string nat) (heap : list Node),
    (forDuplicates m addrs heap).1 = false
    <-> List.NoDup (typeInputKeys heap addrs)
        /\ forall k, In k (typeInputKeys heap addrs) -> m !! k = None.
Proof.
  induction addrs as [|a addrs IH]; intros m heap.
  - cbn. split; [intros _; split; [constructor | intros k []] | reflexivity].
  - destruct (heap !! a) as [node|] eqn:Ha.
    + rewrite (forDuplicates_step _ _ _ _ _ Ha).
      assert (Hkeys : typeInputKeys heap (a :: addrs)
                      = typeInputKey node :: typeInputKeys heap addrs).
      { unfold typeInputKeys. cbn [omap list_omap]. rewrite Ha. reflexivity. }
      rewrite Hkeys. destruct (m !! typeInputKey node) as [b|] eqn:Hm.
      * cbn. split; [discriminate|]. intros [_ H]. specialize (H _ (or_introl eq_refl)).
        congruence.
      * rewrite IH, (typeInputKeys_insert _ _ _ _ Ha). split.
        -- intros [Hnd Hfree]. split.
           ++ constructor; [|exact Hnd]. intros Hin. specialize (Hfree _ Hin).
              rewrite lookup_insert_eq in Hfree. discriminate.
           ++ intros k [<-|Hin]; [exact Hm|]. specialize (Hfree _ Hin).
              destruct (decide (typeInputKey node = k)) as [<-|Hne]; [exact Hm|].
              rewrite lookup_insert_ne in Hfree by exact Hne. exact Hfree.
        -- intros [Hnd Hfree]. inversion Hnd as [|? ? Hnotin Hnd']; subst. split; [exact Hnd'|].
           intros k Hin. rewrite lookup_insert_ne; [apply Hfree; right; exact Hin|].
           intros <-. contradiction.
    + cbn [forDuplicates]. rewrite Ha.
      assert (Hkeys : typeInputKeys heap (a :: addrs) = typeInputKeys heap addrs).
      { unfold typeInputKeys. cbn [omap list_omap]. rewrite Ha. reflexivity. }
      rewrite Hkeys. apply IH.
Qed.

Lemma detectDuplicateActions_NoDup (heap : list Node) (addrs : list nat) :
  (detectDuplicateActions heap addrs).1 = false <-> List.NoDup (typeInputKeys heap addrs).
Proof.
  unfold detectDuplicateActions. rewrite forDuplicates_decides. split; [tauto|].
  intros H. split; [exact H|]. intros k _. apply lookup_empty.
Qed.

(** The scan stops at the first duplicate: at the first node whose key one
    of the nodes before it has (or the map holds already).  The node objects
    it has come by until then have their input labels sorted, the others are
    untouched. *)
Lemma forDuplicates_visited (addrs : list nat) :
  forall (m : gmap string nat) (heap : list Node) (found : bool) (heap' : list Node),
    forDuplicates m addrs heap = (found, heap') ->
    exists visited rest,
      addrs = (visited ++ rest)%list
      /\ (found = false -> rest = [])
      /\ (found = true ->
          exists before a node,
            visited = (before ++ [a])%list
            /\ heap !! a = Some node
            /\ List.NoDup (typeInputKeys heap before)
            /\ (forall k, In k (typeInputKeys heap before) -> m !! k = None)
            /\ (In (typeInputKey node) (typeInputKeys heap before)
                \/ is_Some (m !! typeInputKey node)))
      /\ forall b, heap' !! b = if decide (b ∈ visited) then sortedInPlace <$> heap !! b
                               else heap !! b.
Proof.
  induction addrs as [|a addrs IH]; intros m heap found heap' Hrun.
  - cbn [forDuplicates] in Hrun. injection Hrun as <- <-. exists [], [].
    split_and!; [reflexivity | reflexivity | discriminate |].
    intros b. rewrite decide_False by apply not_elem_of_nil. reflexivity.
  - destruct (heap !! a) as [node|] eqn:Ha.
    + rewrite (forDuplicates_step _ _ _ _ _ Ha) in Hrun.
      assert (Hlen : a < length heap) by (eapply lookup_lt_Some; exact Ha).
      assert (H1 : forall b, <[a := sortedInPlace node]> heap !! b
                             = if decide (b = a) then Some (sortedInPlace node)
                               else heap !! b).
      { intros b. destruct (decide (b = a)) as [->|Hne].
        - apply list_lookup_insert_eq, Hlen.
        - apply list_lookup_insert_ne. congruence. }
      destruct (m !! typeInputKey node) as [c|] eqn:Hm.
      * injection Hrun as <- <-. exists [a], addrs.
        split_and!; [reflexivity | discriminate | |].
        -- intros _. exists [], a, node.
           split_and!; [reflexivity | exact Ha | constructor | intros k [] |].
           right. rewrite Hm. eauto.
        -- intros b. rewrite H1. destruct (decide (b = a)) as [->|Hne].
           ++ rewrite decide_True by (apply list_elem_of_singleton; reflexivity).
              rewrite Ha. reflexivity.
           ++ rewrite decide_False; [reflexivity|].
              rewrite list_elem_of_singleton. exact Hne.
      * destruct (IH _ _ _ _ Hrun) as (visited & rest & -> & Hrest & Hfound & Hlook).
        exists (a :: visited), rest.
        split_and!; [reflexivity | exact Hrest | |].
        -- intros Hf.
           destruct (Hfound Hf) as (before & a' & node' & -> & Ha' & Hnd & Hfresh & Hdup).
           rewrite (typeInputKeys_insert _ _ _ _ Ha) in Hnd, Hfresh, Hdup.
           assert (Hnode : exists node'', heap !! a' = Some node''
                                          /\ typeInputKey node'' = typeInputKey node').
           { rewrite H1 in Ha'. destruct (decide (a' = a)) as [->|_].
             - injection Ha' as <-. exists node.
               split; [exact Ha | symmetry; apply typeInputKey_sortedInPlace].
             - eauto. }
           destruct Hnode as (node'' & Ha'' & Hkey).
           assert (Hkeys : typeInputKeys heap (a :: before)
                           = typeInputKey node :: typeInputKeys heap before).
           { unfold typeInputKeys. cbn [omap list_omap]. rewrite Ha. reflexivity. }
           exists (a :: before), a', node''. rewrite Hkeys, Hkey. split_and!.
           ++ reflexivity.
           ++ exact Ha''.
           ++ constructor; [|exact Hnd]. intros Hin. specialize (Hfresh _ Hin).
              rewrite lookup_insert_eq in Hfresh. discriminate.
           ++ intros k [<-|Hin]; [exact Hm|]. specialize (Hfresh _ Hin).
              destruct (decide (typeInputKey node = k)) as [<-|Hne]; [exact Hm|].
              rewrite lookup_insert_ne in Hfresh by exact Hne. exact Hfresh.
           ++ destruct Hdup as [Hin|Hsome]; [left; right; exact Hin|].
              destruct (decide (typeInputKey node = typeInputKey node')) as [E|Hne];
                [left; left; exact E|].
              right. rewrite lookup_insert_ne in Hsome by exact Hne. exact Hsome.
        -- intros b. rewrite Hlook, H1.
           destruct (decide (b = a)) as [->|Hba].
           ++ rewrite (decide_True (P := a ∈ a :: visited)) by (left).
              rewrite Ha. cbn. destruct (decide (a ∈ visited)); cbn;
                [rewrite sortedInPlace_idempotent|]; reflexivity.
           ++ destruct (decide (b ∈ visited)) as [Hin|Hin].
              ** rewrite decide_True by (right; exact Hin). reflexivity.
              ** rewrite decide_False; [reflexivity|].
                 rewrite elem_of_cons. tauto.
    + cbn [forDuplicates] in Hrun. rewrite Ha in Hrun.
      destruct (IH _ _ _ _ Hrun) as (visited & rest & -> & Hrest & Hfound & Hlook).
      exists (a :: visited), rest.
      split_and!; [reflexivity | exact Hrest | |].
      * intros Hf.
        destruct (Hfound Hf) as (before & a' & node' & -> & Ha' & Hnd & Hfresh & Hdup).
        assert (Hkeys : typeInputKeys heap (a :: before) = typeInputKeys heap before).
        { unfold typeInputKeys. cbn [omap list_omap]. rewrite Ha. reflexivity. }
        exists (a :: before), a', node'. rewrite Hkeys. auto.
      * intros b. rewrite Hlook.
        destruct (decide (b = a)) as [->|Hba].
        -- rewrite (decide_True (P := a ∈ a :: visited)) by (left).
           rewrite Ha. destruct (decide (a ∈ visited)); reflexivity.
        -- destruct (decide (b ∈ visited)) as [Hin|Hin].
           ++ rewrite decide_True by (right; exact Hin). reflexivity.
           ++ rewrite decide_False; [reflexivity|].
              rewrite elem_of_cons. tauto.
Qed.

(** C9, as stated, fails: the scan returns at the first duplicate, and a
    node behind it keeps its input labels in the order they had. *)
Lemma C9_counterexample :
  exists (heap : list Node) (addrs : list nat) (a : nat) (node : Node) (labels : list string),
    a ∈ addrs
    /\ heap !! a = Some node
    /\ inputLabels node = Some labels
    /\ (detectDuplicateActions heap addrs).2 !! a = Some node
    /\ labels <> JS.sort labels.
Proof.
  exists threeNodes, [0; 1; 2], 2, (labelled "node_3" "translator" ["D.txt"; "C.txt"]),
         ["D.txt"; "C.txt"].
  split; [set_solver|]. split; [reflexivity|]. split; [reflexivity|].
  split; [vm_compute; reflexivity|]. vm_compute. discriminate.
Qed.

(** C9, amended.  Duplicate-action detection is not read-only: it goes
    through the nodes of the workflow in order and stops at the first
    duplicate, that is at the first node whose key (its type and sorted
    input labels) a node before it has, or at the end when the keys are
    pairwise distinct.  It sorts in place the input labels of every node
    object it has come by until then, and leaves every other object of the
    store as it was: the nodes behind the first duplicate keep the order of
    their input labels. *)
Theorem C9_detectDuplicateActions_sorts_in_place (heap : list Node) (addrs : list nat) :
  let result := detectDuplicateActions heap addrs in
  exists visited rest,
    addrs = (visited ++ rest)%list
    /\ (result.1 = false -> rest = [] /\ List.NoDup (typeInputKeys heap addrs))
    /\ (result.1 = true ->
        exists before a node,
          visited = (before ++ [a])%list
          /\ heap !! a = Some node
          /\ List.NoDup (typeInputKeys heap before)
          /\ In (typeInputKey node) (typeInputKeys heap before))
    /\ forall b, result.2 !! b
                 = if decide (b ∈ visited) then sortedInPlace <$> heap !! b else heap !! b.
Proof.
  intros result. subst result.
  pose proof (detectDuplicateActions_NoDup heap addrs) as Hdistinct.
  unfold detectDuplicateActions in *.
  destruct (forDuplicates ∅ addrs heap) as [found heap'] eqn:Hrun. cbn [fst snd] in *.
  destruct (forDuplicates_visited addrs ∅ heap found heap' Hrun)
    as (visited & rest & Happ & Hrest & Hfound & Hlook).
  exists visited, rest. split_and!; [exact Happ | | | exact Hlook].
  - intros Hf. split; [exact (Hrest Hf) | apply Hdistinct, Hf].
  - intros Hf. destruct (Hfound Hf) as (before & a & node & Hv & Ha & Hnd & _ & Hdup).
    exists before, a, node. split_and!; try assumption.
    destruct Hdup as [Hin|Hsome]; [exact Hin|].
    rewrite lookup_empty in Hsome. destruct Hsome as [? [=]].
Qed.

Lemma C9_witness :
  (detectDuplicateActions threeNodes [0; 1; 2]).1 = true
  /\ (detectDuplicateActions threeNodes [0; 1; 2]).2 !! 0
     = Some (labelled "node_1" "summarizer" ["A.txt"; "B.txt"])
  /\ (detectDuplicateActions threeNodes [0; 1; 2]).2 !! 2
     = Some (labelled "node_3" "translator" ["D.txt"; "C.txt"]).
Proof.
  destruct (C9_detectDuplicateActions_sorts_in_place threeNodes [0; 1; 2])
    as (visited & rest & Happ & _ & Hfound & Hlook).
  assert (Hres : (detectDuplicateActions threeNodes [0; 1; 2]).1 = true)
    by (vm_compute; reflexivity).
  split; [exact Hres|].
  destruct (Hfound Hres) as (before & a & node & -> & _ & Hnd & Hdup).
  rewrite !Hlook. clear Hlook Hfound.
  destruct before as [|b0 [|b1 before]].
  - destruct Hdup.
  - cbn [app] in Happ. injection Happ as <- <- _. split; vm_compute; reflexivity.
  - exfalso. cbn [app] in Happ. injection Happ as <- <- _.
    unfold typeInputKeys in Hnd. cbn [omap list_omap] in Hnd.
    change (threeNodes !! 0) with (Some (labelled "node_1" "summarizer" ["B.txt"; "A.txt"]))
      in Hnd.
    change (threeNodes !! 1) with (Some (labelled "node_2" "summarizer" ["A.txt"; "B.txt"]))
      in Hnd.
    cbn [fmap option_fmap option_map map] in Hnd.
    inversion Hnd as [|? ? Hnotin _]. apply Hnotin. left. vm_compute. reflexivity.
Defined.

End Duplicates.

(** ** Finite sets of ids *)

Section IdSets.

Implicit Types U V : gset string.

Lemma size_list_to_set_le (l : list string) :
  size (list_to_set l : gset string) <= length l.
Proof.
  induction l as [|x l IH]; cbn [list_to_set length].
  - rewrite size_empty. lia.
  - rewrite size_union_alt, size_singleton.
    pose proof (subseteq_size (list_to_set l ∖ {[x]}) (list_to_set l : gset string)) as H.
    assert (size (list_to_set l ∖ {[x]} : gset string) <= size (list_to_set l : gset string))
      by (apply H; set_solver).
    lia.
Qed.

Lemma size_remaining_decr U V (x : string) :
  x ∈ U -> x ∉ V -> size (U ∖ ({[x]} ∪ V)) < size (U ∖ V).
Proof.
  intros HU HV. apply subset_size. split; [set_solver|].
  intros Hsub. assert (x ∈ U ∖ ({[x]} ∪ V)) by (apply Hsub; set_solver). set_solver.
Qed.

Lemma size_remaining_mono U V V' :
  V ⊆ V' -> size (U ∖ V') <= size (U ∖ V).
Proof. intros H. apply subseteq_size. set_solver. Qed.

End IdSets.

(** ** Execution orchestrator *)

Section TopologicalSort.

Import WorkflowEngine.
Local Abbreviation size := base.size.

Variable nodes : list Node.
Variable conns : list Connection.

Local Abbreviation sortIds := (WorkflowEngine.sortIds nodes conns).
Local Abbreviation returns := (WorkflowEngine.returns nodes conns).

Lemma forEachVisit_returns v bound :
  returns v bound ->
  forall ids st,
    (forall i, i ∈ ids -> i ∈ sortIds) -> size (sortIds ∖ marked st) < bound ->
    exists r, forEachVisit v ids st = Some r
              /\ forall st', r = inr st' -> marked st ⊆ marked st'.
Proof.
  intros Hv. induction ids as [|i ids IH]; intros st Hids Hsize; cbn [forEachVisit].
  - eexists. split; [reflexivity|]. intros st' [= <-]. reflexivity.
  - destruct (Hv i st) as ([e|st1] & -> & Hmono); [apply Hids; left | exact Hsize | |].
    + eexists. split; [reflexivity|]. intros st' [=].
    + specialize (Hmono st1 eq_refl).
      destruct (IH st1) as (r & -> & Hmono').
      * intros j Hj. apply Hids. right. exact Hj.
      * pose proof (size_remaining_mono sortIds _ _ Hmono). lia.
      * eexists. split; [reflexivity|]. intros st' Hr. etrans; [exact Hmono | apply Hmono', Hr].
Qed.

Lemma forRemaining_returns v bound :
  returns v bound ->
  forall ids st,
    (forall i, i ∈ ids -> i ∈ sortIds) -> size (sortIds ∖ marked st) < bound ->
    exists r, forRemaining v ids st = Some r.
Proof.
  intros Hv. induction ids as [|i ids IH]; intros st Hids Hsize; cbn [forRemaining].
  - eauto.
  - assert (forall j, j ∈ ids -> j ∈ sortIds) as Hids' by (intros j Hj; apply Hids; right; exact Hj).
    destruct (decide (i ∈ visited st)); [apply IH; assumption|].
    destruct (Hv i st) as ([e|st1] & -> & Hmono); [apply Hids; left | exact Hsize | eauto |].
    specialize (Hmono st1 eq_refl). apply IH; [exact Hids'|].
    pose proof (size_remaining_mono sortIds _ _ Hmono). lia.
Qed.

Lemma dependents_in_sortIds (nodeId i : string) :
  i ∈ dependents conns nodeId -> i ∈ sortIds.
Proof.
  unfold dependents, sortIds. intros Hi.
  apply list_elem_of_In, in_map_iff in Hi as (c & <- & Hc).
  apply filter_In in Hc as [Hc _].
  apply elem_of_list_to_set, elem_of_app. right.
  apply list_elem_of_In, in_map, Hc.
Qed.

Lemma visit_returns (fuel : nat) : returns (visit fuel nodes conns) fuel.
Proof.
  induction fuel as [|fuel IH]; intros nodeId st HU Hsize; [lia|].
  cbn [visit].
  destruct (decide (nodeId ∈ temp st)) as [Htemp|Htemp].
  { eexists. split; [reflexivity|]. intros st' [=]. }
  destruct (decide (nodeId ∈ visited st)) as [Hvis|Hvis].
  { eexists. split; [reflexivity|]. intros st' [= <-]. reflexivity. }
  set (st1 := {| sorted := sorted st; visited := visited st; temp := {[nodeId]} ∪ temp st |}).
  assert (Hm1 : marked st1 = {[nodeId]} ∪ marked st).
  { unfold marked, st1. cbn. set_solver. }
  destruct (forEachVisit_returns _ fuel IH (dependents conns nodeId) st1)
    as ([e|st2] & -> & Hmono).
  - intros i. apply dependents_in_sortIds.
  - rewrite Hm1.
    assert (nodeId ∉ marked st) by (unfold marked; set_solver).
    pose proof (size_remaining_decr sortIds (marked st) nodeId HU H). lia.
  - eexists. split; [reflexivity|]. intros st' [=].
  - eexists. split; [reflexivity|]. intros st' [= <-].
    specialize (Hmono st2 eq_refl). rewrite Hm1 in Hmono.
    unfold marked in *. cbn. intros x Hx.
    destruct (decide (x = nodeId)) as [->|Hne]; [set_solver|].
    assert (x ∈ visited st2 ∪ temp st2) by (apply Hmono; set_solver). set_solver.
Qed.

End TopologicalSort.

Section Orchestrator.

Import WorkflowEngine.
Local Abbreviation size := base.size.

(** The sort returns on every workflow: a list or the dependency error. *)
Lemma topologicalSort_total (workflow : Workflow) :
  exists r, topologicalSort workflow = Some r.
Proof.
  unfold topologicalSort.
  set (ns := WorkflowEngine.nodes workflow).
  set (cs := default [] (connections workflow)).
  pose proof (visit_returns ns cs (sortFuel ns cs)) as Hv.
  assert (Hfuel : size (sortIds ns cs ∖ marked {| sorted := []; visited := ∅; temp := ∅ |})
                  < sortFuel ns cs).
  { unfold sortFuel, sortIds.
    pose proof (size_list_to_set_le (map id ns ++ map to cs)) as Hle.
    rewrite length_app, !length_map in Hle.
    pose proof (subseteq_size
                  (list_to_set (map id ns ++ map to cs)
                   ∖ marked {| sorted := []; visited := ∅; temp := ∅ |})
                  (list_to_set (map id ns ++ map to cs) : gset string)) as Hsub.
    assert (size (list_to_set (map id ns ++ map to cs)
                  ∖ marked {| sorted := []; visited := ∅; temp := ∅ |})
            <= size (list_to_set (map id ns ++ map to cs) : gset string))
      by (apply Hsub; set_solver).
    lia. }
  assert (Hids : forall l, (forall n, In n l -> In n ns) ->
                           forall i, i ∈ map id l -> i ∈ sortIds ns cs).
  { intros l Hl i Hi. apply list_elem_of_In, in_map_iff in Hi as (n & <- & Hn).
    apply elem_of_list_to_set, elem_of_app. left. apply list_elem_of_In, in_map, Hl, Hn. }
  destruct (forEachVisit_returns ns cs _ _ Hv
              (map id (List.filter (fun node =>
                         negb (existsb (fun conn => String.eqb (to conn) (id node)) cs)) ns))
              {| sorted := []; visited := ∅; temp := ∅ |})
    as ([e|st] & -> & Hmono); [| exact Hfuel | eauto |].
  - apply Hids. intros n Hn. apply filter_In in Hn. tauto.
  - specialize (Hmono st eq_refl).
    destruct (forRemaining_returns ns cs _ _ Hv (map id ns) st) as ([e|st'] & ->); [| |eauto..].
    + apply Hids. tauto.
    + pose proof (size_remaining_mono (sortIds ns cs) _ _ Hmono). lia.
Qed.

Variable processFile : nat -> MockFile -> string -> option string -> JsError + ProcessResult.
Variable toISOString : nat -> string.

Local Abbreviation executeNode := (executeNode processFile toISOString).
Local Abbreviation forSorted := (forSorted processFile toISOString).
Local Abbreviation executeWorkflow := (executeWorkflow processFile toISOString).
Local Abbreviation processNodeData := (processNodeData processFile).
Local Abbreviation pushResult := (pushResult toISOString).

Lemma processNodeData_frame node inputData self r self' :
  processNodeData node inputData self = (r, self') ->
  executionResults self' = executionResults self
  /\ emitted self' = emitted self
  /\ isExecuting self' = isExecuting self.
Proof.
  unfold WorkflowEngine.processNodeData.
  destruct (outputLabels node); intros [= <- <-]; auto.
Qed.

(** What a throw while a node is processed leaves behind. *)
Lemma executeNode_throws node workflow self e self1 :
  processNodeData node
    (getNodeInputData node workflow (emit (StatusUpdate ("Processing " +:+ type node +:+ "...")) self))
    (emit (StatusUpdate ("Processing " +:+ type node +:+ "...")) self) = (inl e, self1) ->
  executeNode node workflow self = (inl e, pushResult (errorRecord node e) self1).
Proof. intros H. unfold WorkflowEngine.executeNode. rewrite H. reflexivity. Qed.

Lemma executeNode_isExecuting node workflow self r self' :
  executeNode node workflow self = (r, self') -> isExecuting self' = isExecuting self.
Proof.
  unfold WorkflowEngine.executeNode.
  destruct (processNodeData _ _ _) as [[e|res] s2] eqn:Hp;
    apply processNodeData_frame in Hp as (_ & _ & Hx); intros [= <- <-]; exact Hx.
Qed.

Lemma executeNode_returns node workflow self res self' :
  executeNode node workflow self = (inr res, self') ->
  exists record,
    executionResults self' = (executionResults self ++ [record])%list
    /\ nodeId record = id node.
Proof.
  unfold WorkflowEngine.executeNode.
  destruct (processNodeData _ _ _) as [[e|res'] s2] eqn:Hp; [discriminate|].
  apply processNodeData_frame in Hp as (Hres & _ & _). intros [= <- <-].
  eexists. cbn. rewrite Hres. split; reflexivity.
Qed.

Lemma forSorted_isExecuting sortedNodes workflow :
  forall self r self',
    forSorted sortedNodes workflow self = (r, self') -> isExecuting self' = isExecuting self.
Proof.
  induction sortedNodes as [|node rest IH]; intros self r self'; cbn [WorkflowEngine.forSorted].
  - intros [= <- <-]. reflexivity.
  - destruct (executeNode node workflow self) as [[e|res] s1] eqn:Hn.
    + intros [= <- <-]. eapply executeNode_isExecuting, Hn.
    + intros H. rewrite (IH _ _ _ H). eapply executeNode_isExecuting, Hn.
Qed.

(** When every node of a list is processed without a throw, each has left
    one record, in order. *)
Lemma forSorted_returns sortedNodes workflow :
  forall self u self',
    forSorted sortedNodes workflow self = (inr u, self') ->
    exists records,
      executionResults self' = (executionResults self ++ records)%list
      /\ map nodeId records = map id sortedNodes.
Proof.
  induction sortedNodes as [|node rest IH]; intros self u self'; cbn [WorkflowEngine.forSorted].
  - intros H. inversion H; subst. exists []. rewrite app_nil_r. split; reflexivity.
  - destruct (executeNode node workflow self) as [[e|res] s1] eqn:Hn; [discriminate|].
    intros H. apply executeNode_returns in Hn as (record & Hrec & Hid).
    apply IH in H as (records & Hrecs & Hids).
    exists (record :: records). split.
    + rewrite Hrecs, Hrec, <- app_assoc. reflexivity.
    + cbn. rewrite Hid, Hids. reflexivity.
Qed.

Lemma forSorted_app pre rest workflow :
  forall self,
    forSorted (pre ++ rest) workflow self
    = match forSorted pre workflow self with
      | (inl e, s') => (inl e, s')
      | (inr _, s') => forSorted rest workflow s'
      end.
Proof.
  induction pre as [|node pre IH]; intros self; cbn [app WorkflowEngine.forSorted].
  - reflexivity.
  - destruct (executeNode node workflow self) as [[e|res] s1]; [reflexivity|]. apply IH.
Qed.

(** C6.  When the nodes before some node n of the sorted order are processed
    without a throw and processing n throws e, [executeWorkflow] throws e to
    its caller; the results are those of the earlier nodes followed by one
    error record for n (success false, the message of e, a time stamp); no
    node after n leaves a record or a processing notice. *)
Theorem C6_failure_aborts_run
    (w : Workflow) (self : t) (pre post : list Node) (n : Node) (sPre sThrown : t)
    (e : JsError) :
  isExecuting self = false ->
  topologicalSort w = Some (inr (pre ++ n :: post)%list) ->
  forSorted pre w (started self) = (inr tt, sPre) ->
  processNodeData n
    (getNodeInputData n w (emit (StatusUpdate ("Processing " +:+ type n +:+ "...")) sPre))
    (emit (StatusUpdate ("Processing " +:+ type n +:+ "...")) sPre) = (inl e, sThrown) ->
  exists (self' : t) (record : ExecutionResult),
    executeWorkflow (Some w) self = Some (inl e, self')
    /\ executionResults self' = (executionResults sPre ++ [record])%list
    /\ nodeId record = id n
    /\ success record = false
    /\ error record = Some (message e)
    /\ executedAt record = toISOString (step sThrown)
    /\ map nodeId (executionResults self') = map id (pre ++ [n])%list
    /\ emitted self'
       = (emitted sPre ++ [StatusUpdate ("Processing " +:+ type n +:+ "...")])%list
    /\ isExecuting self' = false.
Proof.
  intros Hidle Hsort Hpre Hthrow.
  exists (setExecuting false (pushResult (errorRecord n e) sThrown)),
         (errorRecord n e (toISOString (step sThrown))).
  pose proof (processNodeData_frame _ _ _ _ _ Hthrow) as (Hres & Hem & _).
  cbn [emit executionResults emitted] in Hres, Hem.
  destruct (forSorted_returns _ _ _ _ _ Hpre) as (records & Hrecs & Hids).
  cbn [started emit setResults executionResults app] in Hrecs.
  split_and!.
  - unfold WorkflowEngine.executeWorkflow. rewrite Hidle, Hsort.
    rewrite forSorted_app, Hpre. cbn [WorkflowEngine.forSorted].
    rewrite (executeNode_throws _ _ _ _ _ Hthrow). reflexivity.
  - cbn. rewrite Hres. reflexivity.
  - reflexivity.
  - reflexivity.
  - reflexivity.
  - reflexivity.
  - cbn [setExecuting WorkflowEngine.pushResult tick setResults executionResults].
    rewrite Hres, Hrecs, !map_app, Hids. reflexivity.
  - cbn. exact Hem.
  - reflexivity.
Qed.

(** C10.  However a run that was admitted ends (the result list, an error
    thrown while a node is processed, the dependency error of the sort), and
    also when there is no workflow to run, [executeWorkflow] returns and
    leaves [isExecuting] false, so the guard does not refuse the next run. *)
Theorem C10_isExecuting_reset (workflow : option Workflow) (self : t) :
  isExecuting self = false ->
  exists r self',
    executeWorkflow workflow self = Some (r, self') /\ isExecuting self' = false.
Proof.
  intros Hidle. unfold WorkflowEngine.executeWorkflow.
  destruct (match workflow with Some w => Some w | None => currentWorkflow self end)
    as [w|]; [|eauto].
  rewrite Hidle.
  destruct (topologicalSort_total w) as ([e|sortedNodes] & ->); [eauto|].
  destruct (forSorted sortedNodes w (started self)) as [[e|u] s2]; eauto.
Qed.

End Orchestrator.

Lemma topologicalSort_ring :
  WorkflowEngine.topologicalSort ring = Some (inl WorkflowEngine.circular).
Proof. vm_compute. reflexivity. Qed.

Lemma C6_witness :
  exists (self' : WorkflowEngine.t) (record : WorkflowEngine.ExecutionResult),
    WorkflowEngine.executeWorkflow failsOnY pretty (Some chain) WorkflowEngine.new
    = Some (inl {| WorkflowEngine.message := "backend unavailable" |}, self')
    /\ map WorkflowEngine.nodeId (WorkflowEngine.executionResults self') = ["X"; "Y"]
    /\ WorkflowEngine.success record = false
    /\ WorkflowEngine.isExecuting self' = false.
Proof.
  destruct (C6_failure_aborts_run failsOnY pretty chain WorkflowEngine.new
              [stepNode "X"] [stepNode "Z"] (stepNode "Y")
              (WorkflowEngine.forSorted failsOnY pretty [stepNode "X"] chain
                 (WorkflowEngine.started WorkflowEngine.new)).2
              (WorkflowEngine.processNodeData failsOnY (stepNode "Y") []
                 (WorkflowEngine.emit (WorkflowEngine.StatusUpdate "Processing summarizer...")
                    (WorkflowEngine.forSorted failsOnY pretty [stepNode "X"] chain
                       (WorkflowEngine.started WorkflowEngine.new)).2)).2
              {| WorkflowEngine.message := "backend unavailable" |})
    as (self' & record & Hrun & _ & _ & Hfail & _ & _ & Hids & _ & Hidle).
  - reflexivity.
  - vm_compute. reflexivity.
  - vm_compute. reflexivity.
  - vm_compute. reflexivity.
  - exists self', record. split_and!; [exact Hrun | exact Hids | exact Hfail | exact Hidle].
Defined.

Lemma C10_witness :
  (exists r self',
     WorkflowEngine.executeWorkflow failsOnY pretty (Some ring) WorkflowEngine.new
     = Some (r, self') /\ WorkflowEngine.isExecuting self' = false)
  /\ (exists r self',
        WorkflowEngine.executeWorkflow failsOnY pretty (Some chain) WorkflowEngine.new
        = Some (r, self') /\ WorkflowEngine.isExecuting self' = false).
Proof.
  split; apply (C10_isExecuting_reset failsOnY pretty); reflexivity.
Defined.

(** ** Cycle detection *)

Section CycleDetection.

Import ToolFlowBuilder.

Variable conns : option (list Connection).
Variable ids : list string.

Local Abbreviation arrow := (ToolFlowBuilder.arrow conns).
Local Abbreviation loopIds := (ToolFlowBuilder.loopIds conns ids).
Local Abbreviation settled := (ToolFlowBuilder.settled conns).
Local Abbreviation searches := (ToolFlowBuilder.searches conns ids).

Lemma successors_in_loopIds (u v : string) : arrow u v -> v ∈ loopIds.
Proof.
  unfold arrow, successors, loopIds. intros Hv.
  apply list_elem_of_In, in_map_iff in Hv as (c & <- & Hc).
  apply filter_In in Hc as [Hc _].
  apply elem_of_list_to_set, elem_of_app. right.
  apply list_elem_of_In, in_map, Hc.
Qed.

Lemma settled_rtc (st : DfsState) (x y : string) :
  settled st -> x ∈ finished st -> rtc arrow x y -> y ∈ finished st.
Proof.
  intros [Hclosed _] Hx Hpath. induction Hpath as [|x y z Hxy _ IH]; [exact Hx|].
  apply IH. eapply Hclosed; [exact Hx | exact Hxy].
Qed.

Lemma forConnections_searches f bound :
  searches f bound ->
  forall targets st,
    (forall t, t ∈ targets -> t ∈ loopIds) ->
    size (loopIds ∖ visited st) < bound ->
    (forall t r, t ∈ targets -> r ∈ recStack st -> tc arrow r t) ->
    settled st ->
    exists b st',
      forConnections f targets st = Some (b, st')
      /\ visited st ⊆ visited st'
      /\ (b = true -> exists t x, t ∈ targets /\ rtc arrow t x /\ tc arrow x x)
      /\ (b = false ->
          recStack st' = recStack st
          /\ (forall t, t ∈ targets -> t ∈ finished st')
          /\ settled st').
Proof.
  intros Hf. induction targets as [|t targets IH]; intros st Hin Hsize Hstack Hset;
    cbn [forConnections].
  - exists false, st. split_and!; [reflexivity | reflexivity | discriminate |].
    intros _. split_and!; [reflexivity | | exact Hset]. intros t Ht. inversion Ht.
  - destruct (Hf t st) as (b & st1 & -> & Hmono & Htrue & Hfalse);
      [apply Hin; left | exact Hsize | intros r Hr; apply Hstack; [left | exact Hr] | exact Hset |].
    destruct b.
    + exists true, st1. split_and!; [reflexivity | exact Hmono | | discriminate].
      intros _. destruct (Htrue eq_refl) as (x & Hreach & Hcyc).
      exists t, x. split_and!; [left | exact Hreach | exact Hcyc].
    + destruct (Hfalse eq_refl) as (Hstack1 & Hfin1 & Hset1).
      destruct (IH st1) as (b & st2 & -> & Hmono2 & Htrue2 & Hfalse2).
      * intros t' Ht'. apply Hin. right. exact Ht'.
      * pose proof (size_remaining_mono loopIds _ _ Hmono). lia.
      * intros t' r Ht' Hr. rewrite Hstack1 in Hr. apply Hstack; [right; exact Ht' | exact Hr].
      * exact Hset1.
      * exists b, st2. split_and!; [reflexivity | etrans; eassumption | |].
        -- intros Hb. destruct (Htrue2 Hb) as (t' & x & Ht' & Hreach & Hcyc).
           exists t', x. split_and!; [right; exact Ht' | exact Hreach | exact Hcyc].
        -- intros Hb. destruct (Hfalse2 Hb) as (Hstack2 & Hfin2 & Hset2).
           split_and!; [congruence | | exact Hset2].
           intros t' Ht'. apply elem_of_cons in Ht' as [->|Ht']; [|apply Hfin2, Ht'].
           unfold finished in *. rewrite Hstack2. set_solver.
Qed.

Lemma dfs_searches (fuel : nat) : searches (dfs fuel conns) fuel.
Proof.
  induction fuel as [|fuel IH]; intros u st HU Hsize Hstack Hset; [lia|].
  cbn [dfs].
  destruct (decide (u ∈ recStack st)) as [Hrec|Hrec].
  { exists true, st. split_and!; [reflexivity | reflexivity | | discriminate].
    intros _. exists u. split; [reflexivity | apply Hstack, Hrec]. }
  destruct (decide (u ∈ visited st)) as [Hvis|Hvis].
  { exists false, st. split_and!; [reflexivity | reflexivity | discriminate |].
    intros _. split_and!; [reflexivity | unfold finished; set_solver | exact Hset]. }
  set (st1 := {| visited := {[u]} ∪ visited st; recStack := {[u]} ∪ recStack st |}).
  assert (Hfin1 : finished st1 = finished st).
  { unfold finished, st1. cbn. set_solver. }
  assert (Hset1 : settled st1).
  { destruct Hset as [Hc Ha]. split; intros x; rewrite ?Hfin1; [intros y|]; eauto. }
  destruct (forConnections_searches _ fuel IH (successors conns u) st1)
    as (b & st2 & -> & Hmono & Htrue & Hfalse).
  - intros t. apply successors_in_loopIds.
  - cbn [visited st1]. pose proof (size_remaining_decr loopIds (visited st) u HU Hvis). lia.
  - intros t r Ht Hr. cbn [recStack st1] in Hr.
    apply elem_of_union in Hr as [Hr|Hr].
    + apply elem_of_singleton in Hr as ->. apply tc_once. exact Ht.
    + eapply tc_r; [apply Hstack, Hr | exact Ht].
  - exact Hset1.
  - destruct b.
    + exists true, st2. split_and!; [reflexivity | cbn in Hmono; set_solver | | discriminate].
      intros _. destruct (Htrue eq_refl) as (t & x & Ht & Hreach & Hcyc).
      exists x. split; [|exact Hcyc]. eapply rtc_l; [exact Ht | exact Hreach].
    + destruct (Hfalse eq_refl) as (Hstack2 & Hsucc & [Hc2 Ha2]).
      cbn [recStack st1] in Hstack2.
      eexists false, _. split_and!; [reflexivity | cbn in Hmono |- *; set_solver | discriminate |].
      intros _.
      assert (Hu2 : u ∉ finished st2) by (unfold finished; rewrite Hstack2; set_solver).
      assert (Hfin3 : forall x, x ∈ finished {| visited := visited st2;
                                                recStack := recStack st2 ∖ {[u]} |}
                                <-> x = u \/ x ∈ finished st2).
      { intros x. unfold finished. cbn. rewrite Hstack2. cbn in Hmono.
        destruct (decide (x = u)) as [->|Hne]; set_solver. }
      split_and!.
      * cbn. rewrite Hstack2. set_solver.
      * apply Hfin3. left. reflexivity.
      * split.
        -- intros x y Hx Hxy. apply Hfin3. apply Hfin3 in Hx as [->|Hx].
           ++ right. apply Hsucc, Hxy.
           ++ right. eapply Hc2; [exact Hx | exact Hxy].
        -- intros x Hx Hcyc. apply Hfin3 in Hx as [->|Hx]; [|exact (Ha2 x Hx Hcyc)].
           apply Hu2.
           assert (exists v, arrow u v /\ rtc arrow v u) as (v & Huv & Hvu).
           { clear -Hcyc. inversion Hcyc as [? ? H|? v ? H H']; subst.
             - exists u. split; [exact H | reflexivity].
             - exists v. split; [exact H | apply tc_rtc, H']. }
           eapply (settled_rtc st2); [split; [exact Hc2 | exact Ha2] | apply Hsucc, Huv | exact Hvu].
Qed.

Lemma forNodes_searches (fuel : nat) :
  forall l st,
    (forall i, i ∈ l -> i ∈ loopIds) ->
    size (loopIds ∖ visited st) < fuel ->
    recStack st = ∅ ->
    settled st ->
    exists b,
      forNodes fuel conns l st = Some b
      /\ (b = true -> exists i x, i ∈ l /\ rtc arrow i x /\ tc arrow x x)
      /\ (b = false -> forall i x, i ∈ l -> rtc arrow i x -> ~ tc arrow x x).
Proof.
  assert (Hgen : forall l st,
    (forall i, i ∈ l -> i ∈ loopIds) ->
    size (loopIds ∖ visited st) < fuel ->
    recStack st = ∅ ->
    settled st ->
    exists b,
      forNodes fuel conns l st = Some b
      /\ (b = true -> exists i x, i ∈ l /\ rtc arrow i x /\ tc arrow x x)
      /\ (b = false -> exists st', settled st' /\ recStack st' = ∅
                                   /\ visited st ⊆ visited st'
                                   /\ forall i, i ∈ l -> i ∈ visited st')).
  { induction l as [|i l IH]; intros st Hin Hsize Hempty Hset; cbn [forNodes].
    - exists false. split_and!; [reflexivity | discriminate |].
      intros _. exists st. split_and!; [exact Hset | exact Hempty | reflexivity |].
      intros i Hi. inversion Hi.
    - assert (Hin' : forall j, j ∈ l -> j ∈ loopIds) by (intros j Hj; apply Hin; right; exact Hj).
      destruct (decide (i ∈ visited st)) as [Hvis|Hvis].
      + destruct (IH st Hin' Hsize Hempty Hset) as (b & -> & Htrue & Hfalse).
        exists b. split_and!; [reflexivity | |].
        * intros Hb. destruct (Htrue Hb) as (j & x & Hj & Hreach & Hcyc).
          exists j, x. split_and!; [right; exact Hj | exact Hreach | exact Hcyc].
        * intros Hb. destruct (Hfalse Hb) as (st' & Hset' & Hempty' & Hmono & Hall).
          exists st'. split_and!; [exact Hset' | exact Hempty' | exact Hmono |].
          intros j Hj. apply elem_of_cons in Hj as [->|Hj]; [apply Hmono, Hvis | apply Hall, Hj].
      + destruct (dfs_searches fuel i st) as (b & st1 & -> & Hmono & Htrue & Hfalse);
          [apply Hin; left | exact Hsize | | exact Hset |].
        { intros r Hr. rewrite Hempty in Hr. set_solver. }
        destruct b.
        * exists true. split_and!; [reflexivity | | discriminate].
          intros _. destruct (Htrue eq_refl) as (x & Hreach & Hcyc).
          exists i, x. split_and!; [left | exact Hreach | exact Hcyc].
        * destruct (Hfalse eq_refl) as (Hstack1 & Hfin1 & Hset1).
          destruct (IH st1) as (b & -> & Htrue2 & Hfalse2); [exact Hin' | | congruence | exact Hset1 |].
          { pose proof (size_remaining_mono loopIds _ _ Hmono). lia. }
          exists b. split_and!; [reflexivity | |].
          -- intros Hb. destruct (Htrue2 Hb) as (j & x & Hj & Hreach & Hcyc).
             exists j, x. split_and!; [right; exact Hj | exact Hreach | exact Hcyc].
          -- intros Hb. destruct (Hfalse2 Hb) as (st' & Hset' & Hempty' & Hmono' & Hall).
             exists st'. split_and!; [exact Hset' | exact Hempty' | etrans; eassumption |].
             intros j Hj. apply elem_of_cons in Hj as [->|Hj]; [|apply Hall, Hj].
             apply Hmono'. unfold finished in Hfin1. set_solver. }
  intros l st Hin Hsize Hempty Hset.
  destruct (Hgen l st Hin Hsize Hempty Hset) as (b & Hrun & Htrue & Hfalse).
  exists b. split_and!; [exact Hrun | exact Htrue |].
  intros Hb i x Hi Hreach. destruct (Hfalse Hb) as (st' & Hset' & Hempty' & _ & Hall).
  assert (Hfin : i ∈ finished st') by (unfold finished; rewrite Hempty'; specialize (Hall i Hi); set_solver).
  destruct Hset' as [Hc Ha]. apply Ha.
  eapply settled_rtc; [split; [exact Hc | exact Ha] | exact Hfin | exact Hreach].
Qed.

End CycleDetection.

Section CycleDetectionCorrect.

Import ToolFlowBuilder.

Lemma arrow_connection (conns : option (list Connection)) (u v : string) :
  arrow conns u v <-> exists c, In c (default [] conns) /\ from c = u /\ to c = v.
Proof.
  unfold arrow, successors. rewrite list_elem_of_In, in_map_iff. split.
  - intros (c & Hto & Hc). apply filter_In in Hc as [Hc Hfrom].
    apply String.eqb_eq in Hfrom. eauto.
  - intros (c & Hc & Hfrom & Hto). exists c. split; [exact Hto|].
    apply filter_In. split; [exact Hc|]. apply String.eqb_eq, Hfrom.
Qed.

Lemma detectWorkflowLoops_decides (heap : list Node) (addrs : list nat)
    (conns : option (list Connection)) :
  exists b,
    detectWorkflowLoops heap addrs conns = Some b
    /\ (b = true ->
        exists i x, i ∈ nodeIds heap addrs /\ rtc (arrow conns) i x /\ tc (arrow conns) x x)
    /\ (b = false ->
        forall i x, i ∈ nodeIds heap addrs -> rtc (arrow conns) i x -> ~ tc (arrow conns) x x).
Proof.
  unfold detectWorkflowLoops.
  apply (forNodes_searches conns (nodeIds heap addrs)).
  - intros i Hi. apply elem_of_list_to_set, elem_of_app. left. exact Hi.
  - unfold loopFuel, loopIds.
    pose proof (size_list_to_set_le (nodeIds heap addrs ++ map to (default [] conns))) as Hle.
    rewrite length_app, length_map in Hle. cbn [visited].
    pose proof (subseteq_size
                  (list_to_set (nodeIds heap addrs ++ map to (default [] conns)) ∖ ∅)
                  (list_to_set (nodeIds heap addrs ++ map to (default [] conns)) : gset string))
      as Hsub.
    assert (size (list_to_set (nodeIds heap addrs ++ map to (default [] conns)) ∖ ∅)
            <= size (list_to_set (nodeIds heap addrs ++ map to (default [] conns)) : gset string))
      by (apply Hsub; set_solver).
    lia.
  - reflexivity.
  - split; intros x; unfold finished; cbn; set_solver.
Qed.

(** C5.  Cycle detection returns on every workflow.  It returns false when
    the connection graph has no cycle, diamonds included, and true when a
    cycle can be reached from a node of the workflow; when the connections
    go from node to node, that is whenever the graph has a cycle. *)
Theorem C5_detectWorkflowLoops_correct (heap : list Node) (addrs : list nat)
    (conns : option (list Connection)) :
  (exists b, detectWorkflowLoops heap addrs conns = Some b)
  /\ ((forall x, ~ tc (arrow conns) x x) ->
      detectWorkflowLoops heap addrs conns = Some false)
  /\ ((exists i x, i ∈ nodeIds heap addrs /\ rtc (arrow conns) i x /\ tc (arrow conns) x x) ->
      detectWorkflowLoops heap addrs conns = Some true)
  /\ ((forall c, In c (default [] conns) -> from c ∈ nodeIds heap addrs) ->
      (exists x, tc (arrow conns) x x) ->
      detectWorkflowLoops heap addrs conns = Some true).
Proof.
  destruct (detectWorkflowLoops_decides heap addrs conns) as (b & Hrun & Htrue & Hfalse).
  assert (Hreach : (exists i x, i ∈ nodeIds heap addrs /\ rtc (arrow conns) i x
                                /\ tc (arrow conns) x x) ->
                   detectWorkflowLoops heap addrs conns = Some true).
  { intros (i & x & Hi & Hix & Hcyc). destruct b; [exact Hrun|].
    exfalso. exact (Hfalse eq_refl i x Hi Hix Hcyc). }
  split_and!.
  - exists b. exact Hrun.
  - intros Hacyclic. destruct b; [|exact Hrun].
    destruct (Htrue eq_refl) as (i & x & _ & _ & Hcyc). exfalso. exact (Hacyclic x Hcyc).
  - exact Hreach.
  - intros Hnodes (x & Hcyc). apply Hreach. exists x, x. split_and!; [|reflexivity|exact Hcyc].
    assert (exists y, arrow conns x y) as (y & Hxy).
    { inversion Hcyc; subst; eauto. }
    apply arrow_connection in Hxy as (c & Hc & <- & _). apply Hnodes, Hc.
Qed.

End CycleDetectionCorrect.

Lemma diamond_acyclic (x : string) : ~ tc (ToolFlowBuilder.arrow diamond) x x.
Proof.
  assert (Hstep : forall u v, ToolFlowBuilder.arrow diamond u v -> diamondRank u < diamondRank v).
  { intros u v Huv. apply arrow_connection in Huv as (c & Hc & <- & <-).
    cbn in Hc. destruct Hc as [<-|[<-|[<-|[<-|[]]]]]; cbn; lia. }
  assert (Hpath : forall u v, tc (ToolFlowBuilder.arrow diamond) u v -> diamondRank u < diamondRank v).
  { intros u v Huv. induction Huv as [u v H|u v w H _ IH].
    - apply Hstep, H.
    - apply Hstep in H. lia. }
  intros Hcyc. apply Hpath in Hcyc. lia.
Qed.

Lemma triangle_cycle : tc (ToolFlowBuilder.arrow triangle) "X" "X".
Proof.
  assert (Hlink : forall a b, In (link a b) (default [] triangle) -> ToolFlowBuilder.arrow triangle a b).
  { intros a b H. apply arrow_connection. exists (link a b). split_and!; [exact H|reflexivity..]. }
  apply tc_l with "Y"; [|apply tc_l with "Z"; [|apply tc_once]];
    apply Hlink; cbn; tauto.
Qed.

Lemma C5_witness :
  ToolFlowBuilder.detectWorkflowLoops [plainNode "X"; plainNode "Y"; plainNode "Z"] [0; 1; 2]
    triangle = Some true
  /\ ToolFlowBuilder.detectWorkflowLoops
       [plainNode "X"; plainNode "Y"; plainNode "Z"; plainNode "W"] [0; 1; 2; 3]
       diamond = Some false.
Proof.
  split.
  - destruct (C5_detectWorkflowLoops_correct [plainNode "X"; plainNode "Y"; plainNode "Z"]
                [0; 1; 2] triangle) as (_ & _ & Hcyclic & _).
    apply Hcyclic. exists "X", "X". split_and!; [left | reflexivity | exact triangle_cycle].
  - destruct (C5_detectWorkflowLoops_correct
                [plainNode "X"; plainNode "Y"; plainNode "Z"; plainNode "W"] [0; 1; 2; 3] diamond)
      as (_ & Hacyclic & _).
    apply Hacyclic. exact diamond_acyclic.
Defined.

(** * Further properties of the code *)

(** ** Node Store: accepting, removing, invariants *)

Section NodeStore.

Import NodeDataManager.

Lemma findIndex_Some (nodeId : string) (l : list NodeData) (i : nat) :
  findIndex nodeId l = Some i ->
  exists n, l !! i = Some n /\ id n = nodeId.
Proof.
  revert i. induction l as [|n l IH]; intros i; cbn [findIndex]; [discriminate|].
  destruct (String.eqb_spec (id n) nodeId) as [Heq|Hne].
  - intros [= <-]. exists n. split; [reflexivity | exact Heq].
  - destruct (findIndex nodeId l) as [j|]; [|discriminate].
    intros [= <-]. cbn. apply IH. reflexivity.
Qed.

Lemma findIndex_None (nodeId : string) (l : list NodeData) :
  findIndex nodeId l = None <-> ~ In nodeId (map id l).
Proof.
  induction l as [|n l IH]; cbn [findIndex map In]; [tauto|].
  destruct (String.eqb_spec (id n) nodeId) as [Heq|Hne].
  - split; [discriminate | intros H; exfalso; apply H; left; exact Heq].
  - destruct (findIndex nodeId l) as [j|] eqn:E; cbn.
    + split; [discriminate|]. intros H. exfalso.
      assert (~ In nodeId (map id l)) as H' by tauto. apply IH in H'. discriminate.
    + split; [|reflexivity]. intros _ [H|H]; [contradiction|]. apply IH in H; [exact H | reflexivity].
Qed.

Lemma getNodeById_Some (nodeId : string) (self : t) (node : NodeData) :
  getNodeById nodeId self = Some node ->
  exists i, findIndex nodeId (nodes self) = Some i /\ nodes self !! i = Some node
            /\ id node = nodeId.
Proof.
  unfold getNodeById. destruct (findIndex nodeId (nodes self)) as [i|] eqn:E; [|discriminate].
  intros H. exists i. split; [reflexivity|]. split; [exact H|].
  destruct (findIndex_Some _ _ _ E) as (n & Hn & Hid). congruence.
Qed.

(** The outputs depend on the type, the inputs and the prompt only. *)
Lemma generateSimulatedOutputs_ext (n1 n2 : NodeData) :
  type n1 = type n2 -> inputLabels n1 = inputLabels n2 -> userPrompt n1 = userPrompt n2 ->
  generateSimulatedOutputs n1 = generateSimulatedOutputs n2.
Proof. intros H1 H2 H3. unfold generateSimulatedOutputs. rewrite H1, H2, H3. reflexivity. Qed.

Lemma validateNodeInput_accepts (N : NodeData) (L : string) (validation : Validation) :
  validateNodeInput N L = inr validation ->
  canAccept validation = true ->
  JS.arrIncludes L (default [] (inputLabels N)) = false
  /\ isInputTypeValid (type N) L = inr true.
Proof.
  unfold validateNodeInput.
  destruct (isInputTypeValid (type N) L) as [e|[|]]; [discriminate| |];
    cbn [negb]; intros [= <-]; [|discriminate].
  destruct (maxInputsReached _ _); [discriminate|].
  destruct (JS.arrIncludes L (default [] (inputLabels N))); [discriminate|]. auto.
Qed.

(** What [updateNodeOutputs] leaves in a node that has inputs. *)
Lemma updateNodeOutputs_fields (now : nat) (node : NodeData) :
  let node' := (updateNodeOutputs now node).1 in
  id node' = id node /\ type node' = type node /\ userPrompt node' = userPrompt node
  /\ inputLabels node' = inputLabels node
  /\ isManuallyCreated node' = isManuallyCreated node
  /\ outputLabels node'
     = Some (match inputLabels node with
             | None | Some [] => []
             | Some ins =>
                 if JS.geq (length ins) (minInputs (getInputRules (type node)))
                 then generateSimulatedOutputs node else []
             end).
Proof.
  unfold updateNodeOutputs. destruct (inputLabels node) as [[|x ins]|] eqn:E;
    cbn [fst snd id type userPrompt inputLabels isManuallyCreated outputLabels];
    try (rewrite ?E; repeat split; reflexivity).
  cbv zeta.
  destruct (JS.geq (length (x :: ins)) (minInputs (getInputRules (type node))));
    cbn [fst snd id type userPrompt inputLabels isManuallyCreated outputLabels];
    rewrite ?E; repeat split; reflexivity.
Qed.

Lemma addLabelToNode_spec (now : nat) (self : t) (nodeId L : string) :
  (addLabelToNode now nodeId L self).1 = canNodeAcceptInput nodeId L self
  /\ (forall typeError, (addLabelToNode now nodeId L self).1 = inl typeError ->
        (addLabelToNode now nodeId L self).2 = self)
  /\ ((addLabelToNode now nodeId L self).1 = inr true ->
      exists i node node',
        findIndex nodeId (nodes self) = Some i
        /\ nodes self !! i = Some node
        /\ nodes (addLabelToNode now nodeId L self).2 = <[i := node']> (nodes self)
        /\ id node' = id node /\ type node' = type node
        /\ userPrompt node' = userPrompt node
        /\ inputLabels node' = Some (default [] (inputLabels node) ++ [L])%list
        /\ outputLabels node'
           = Some (if JS.geq (length (default [] (inputLabels node) ++ [L])%list)
                             (minInputs (getInputRules (type node)))
                   then generateSimulatedOutputs node' else [])).
Proof.
  unfold addLabelToNode, canNodeAcceptInput, getNodeById.
  destruct (findIndex nodeId (nodes self)) as [i|] eqn:Hidx;
    [|split_and!; [reflexivity | discriminate | discriminate]].
  destruct (nodes self !! i) as [node|] eqn:Hnode;
    [|split_and!; [reflexivity | discriminate | discriminate]].
  destruct (validateNodeInput node L) as [e|validation] eqn:Hval;
    [split_and!; [reflexivity | reflexivity | discriminate]|].
  destruct (canAccept validation) eqn:Hacc; cbn [negb];
    [|split_and!; [reflexivity | discriminate | discriminate]].
  destruct (validateNodeInput_accepts node L validation Hval Hacc) as [Hdup _].
  rewrite Hdup. cbn [negb].
  set (node2 := {| id := id node; type := type node;
                   inputLabels := Some (default [] (inputLabels node) ++ [L])%list;
                   outputLabels := outputLabels node; userPrompt := userPrompt node;
                   isManuallyCreated := isManuallyCreated node; updatedAt := now |}).
  pose proof (updateNodeOutputs_fields now node2) as Hf. cbv zeta in Hf.
  destruct (updateNodeOutputs now node2) as [node3 evs]. cbn [fst snd] in Hf |- *.
  destruct Hf as (Hid & Hty & Hpr & Hin & _ & Hout).
  split; [reflexivity|]. split; [discriminate|]. intros _. exists i, node, node3.
  split_and!; try reflexivity; try assumption.
  rewrite Hout. cbn [inputLabels type node2].
  assert (generateSimulatedOutputs node2 = generateSimulatedOutputs node3) as ->
    by (apply generateSimulatedOutputs_ext; congruence).
  destruct (default [] (inputLabels node) ++ [L])%list as [|x rest] eqn:E; [|reflexivity].
  destruct (default [] (inputLabels node)); discriminate.
Qed.

Lemma canNodeAcceptInput_accepts (self : t) (nodeId L : string) (node : NodeData) :
  getNodeById nodeId self = Some node ->
  canNodeAcceptInput nodeId L self = inr true ->
  exists validation,
    validateNodeInput node L = inr validation /\ canAccept validation = true.
Proof.
  intros Hget. unfold canNodeAcceptInput. rewrite Hget.
  destruct (validateNodeInput node L) as [e|validation]; [discriminate|].
  intros [= Hacc]. eauto.
Qed.

Lemma addLabelToNode_result (now : nat) (self : t) (nodeId L : string) :
  (addLabelToNode now nodeId L self).1 = canNodeAcceptInput nodeId L self.
Proof. apply addLabelToNode_spec. Qed.

Lemma addLabelToNode_effect (now : nat) (self : t) (nodeId L : string) :
  (addLabelToNode now nodeId L self).1 = inr true ->
  exists i node node',
    findIndex nodeId (nodes self) = Some i
    /\ nodes self !! i = Some node
    /\ nodes (addLabelToNode now nodeId L self).2 = <[i := node']> (nodes self)
    /\ id node' = id node /\ type node' = type node
    /\ userPrompt node' = userPrompt node
    /\ inputLabels node' = Some (default [] (inputLabels node) ++ [L])%list
    /\ outputLabels node'
       = Some (if JS.geq (length (default [] (inputLabels node) ++ [L])%list)
                         (minInputs (getInputRules (type node)))
               then generateSimulatedOutputs node' else []).
Proof. apply addLabelToNode_spec. Qed.

(** [canNodeAcceptInput] predicts [addLabelToNode]: the two return or throw
    alike, a throw leaves the manager as it was, and the label is added
    exactly when the check says so; it is then appended to the inputs of the
    node, whose outputs are regenerated from the new inputs; no other node
    changes. *)
Theorem addLabelToNode_as_predicted (now : nat) (self : t) (nodeId L : string) :
  (addLabelToNode now nodeId L self).1 = canNodeAcceptInput nodeId L self
  /\ (forall typeError, (addLabelToNode now nodeId L self).1 = inl typeError ->
        (addLabelToNode now nodeId L self).2 = self)
  /\ ((addLabelToNode now nodeId L self).1 = inr true ->
      exists i node node',
        findIndex nodeId (nodes self) = Some i
        /\ nodes self !! i = Some node
        /\ nodes (addLabelToNode now nodeId L self).2 = <[i := node']> (nodes self)
        /\ id node' = id node /\ type node' = type node
        /\ userPrompt node' = userPrompt node
        /\ inputLabels node' = Some (default [] (inputLabels node) ++ [L])%list
        /\ outputLabels node'
           = Some (if JS.geq (length (default [] (inputLabels node) ++ [L])%list)
                             (minInputs (getInputRules (type node)))
                   then generateSimulatedOutputs node' else [])).
Proof. apply addLabelToNode_spec. Qed.

(** The type check throws exactly for the node types that name a member of
    [Object.prototype].  For a node of such a type [validateNodeInput],
    [canNodeAcceptInput] and [addLabelToNode] throw the [TypeError] of
    reading [includes] of [undefined], whatever the label is, and nothing is
    written or emitted; for a node of any other type the three return. *)
Theorem addLabelToNode_throws (now : nat) (self : t) (nodeId L : string) (node : NodeData) :
  getNodeById nodeId self = Some node ->
  (In (type node) JS.objectPrototype ->
   validateNodeInput node L = inl (JS.CannotReadProperties "includes")
   /\ canNodeAcceptInput nodeId L self = inl (JS.CannotReadProperties "includes")
   /\ addLabelToNode now nodeId L self = (inl (JS.CannotReadProperties "includes"), self))
  /\ (~ In (type node) JS.objectPrototype ->
      exists validation accepts,
        validateNodeInput node L = inr validation
        /\ canNodeAcceptInput nodeId L self = inr accepts
        /\ (addLabelToNode now nodeId L self).1 = inr accepts).
Proof.
  intros Hget. pose proof (addLabelToNode_result now self nodeId L) as Hsame.
  unfold canNodeAcceptInput in *. rewrite Hget in *.
  pose proof (acceptedTypes_defined (type node)) as Hdef. split.
  - intros Hin.
    assert (Hnone : acceptedTypes (getInputRules (type node)) = None).
    { destruct (acceptedTypes (getInputRules (type node))) as [accepted|] eqn:E;
        [|reflexivity].
      exfalso. apply Hdef; eauto. }
    pose proof (validateNodeInput_throws node L Hnone) as Hthrow.
    rewrite Hthrow in *. split; [reflexivity|]. split; [reflexivity|].
    unfold getNodeById in Hget. unfold addLabelToNode in *.
    destruct (findIndex nodeId (nodes self)) as [i|]; [|discriminate].
    rewrite Hget, Hthrow. reflexivity.
  - intros Hout. apply Hdef in Hout as (accepted & Haccepted).
    assert (Hval : exists validation, validateNodeInput node L = inr validation).
    { unfold validateNodeInput, isInputTypeValid. cbv zeta. rewrite Haccepted. eauto. }
    destruct Hval as (validation & Hval). rewrite Hval in *.
    exists validation, (canAccept validation). auto.
Qed.

Lemma addLabelToNode_throws_witness :
  addLabelToNode 5 "node_9" "A.txt"
    {| nodes := [toolNode "node_9" "constructor" []]; nextNodeId := 10; emitted := [] |}
  = (inl (JS.CannotReadProperties "includes"),
     {| nodes := [toolNode "node_9" "constructor" []]; nextNodeId := 10; emitted := [] |}).
Proof.
  destruct (addLabelToNode_throws 5
              {| nodes := [toolNode "node_9" "constructor" []]; nextNodeId := 10;
                 emitted := [] |}
              "node_9" "A.txt" (toolNode "node_9" "constructor" []) eq_refl) as [Hthrows _].
  apply Hthrows. left. reflexivity.
Defined.

End NodeStore.

Section NodeStoreInvariants.

Import NodeDataManager.

Lemma In_insert {A} (l : list A) (i : nat) (x y : A) :
  In y (<[i := x]> l) -> y = x \/ In y l.
Proof.
  revert i. induction l as [|z l IH]; intros [|i]; cbn; try tauto.
  - intros [H|H]; [left; congruence | right; right; exact H].
  - intros [H|H]; [right; left; exact H|]. apply IH in H. tauto.
Qed.

Lemma map_id_insert (l : list NodeData) (i : nat) (node node' : NodeData) :
  l !! i = Some node -> id node' = id node -> map id (<[i := node']> l) = map id l.
Proof.
  intros Hl Hid. change (map id) with (fmap (M := list) id).
  rewrite list_fmap_insert, Hid. apply list_insert_id. rewrite list_lookup_fmap, Hl. reflexivity.
Qed.

Lemma findIndex_insert (nodeId : string) (l : list NodeData) (i : nat)
    (node node' : NodeData) :
  findIndex nodeId l = Some i -> l !! i = Some node -> id node' = id node ->
  findIndex nodeId (<[i := node']> l) = Some i.
Proof.
  intros Hidx Hl Hid. revert i Hidx Hl.
  induction l as [|n l IH]; intros i; cbn [findIndex]; [discriminate|].
  destruct (String.eqb (id n) nodeId) eqn:E.
  - intros [= <-] [= ->]. cbn. rewrite Hid, E. reflexivity.
  - destruct (findIndex nodeId l) as [j|] eqn:Ej; [|discriminate].
    intros [= <-] Hl. change (<[S j := node']> (n :: l)) with (n :: <[j := node']> l).
    cbn [findIndex]. rewrite E, (IH j eq_refl Hl). reflexivity.
Qed.

Lemma removeFirst_In (x y : string) (l : list string) :
  In y (removeFirst x l) -> In y l.
Proof.
  induction l as [|z l IH]; cbn; [tauto|].
  destruct (String.eqb z x); cbn; tauto.
Qed.

Lemma removeFirst_NoDup (x : string) (l : list string) :
  List.NoDup l -> List.NoDup (removeFirst x l) /\ ~ In x (removeFirst x l).
Proof.
  induction l as [|z l IH]; cbn; intros Hnd; [split; [constructor | tauto]|].
  inversion Hnd as [|? ? Hz Hl]; subst.
  destruct (String.eqb_spec z x) as [->|Hne]; [split; assumption|].
  destruct (IH Hl) as [H1 H2]. split.
  - constructor; [|exact H1]. intros H. apply Hz. eapply removeFirst_In, H.
  - intros [H|H]; [contradiction | exact (H2 H)].
Qed.

Lemma removeFirst_filter (x : string) (l : list string) :
  List.NoDup l -> removeFirst x l = List.filter (fun y => negb (String.eqb y x)) l.
Proof.
  induction l as [|z l IH]; cbn; intros Hnd; [reflexivity|].
  inversion Hnd as [|? ? Hz Hl]; subst.
  destruct (String.eqb_spec z x) as [->|Hne]; cbn.
  - symmetry. apply List.forallb_filter_id. apply forallb_forall. intros y Hy.
    apply negb_true_iff, String.eqb_neq. intros ->. contradiction.
  - rewrite IH by exact Hl. reflexivity.
Qed.

Lemma removeFirst_snoc (x : string) (l : list string) :
  ~ In x l -> removeFirst x (l ++ [x]) = l.
Proof.
  induction l as [|z l IH]; cbn; intros Hn.
  - rewrite String.eqb_refl. reflexivity.
  - destruct (String.eqb_spec z x) as [->|Hne]; [tauto|]. rewrite IH by tauto. reflexivity.
Qed.

(** What a successful [removeLabelFromNode] does to the node array. *)
Lemma removeLabelFromNode_effect (now : nat) (self : t) (nodeId L : string) :
  (exists node ins,
      getNodeById nodeId self = Some node /\ inputLabels node = Some ins /\ In L ins
      /\ exists i node',
          findIndex nodeId (nodes self) = Some i
          /\ nodes self !! i = Some node
          /\ removeLabelFromNode now nodeId L self
             = (true, (removeLabelFromNode now nodeId L self).1.2, Some nodeId)
          /\ nodes (removeLabelFromNode now nodeId L self).1.2 = <[i := node']> (nodes self)
          /\ id node' = id node /\ type node' = type node
          /\ userPrompt node' = userPrompt node
          /\ isManuallyCreated node' = isManuallyCreated node
          /\ inputLabels node' = Some (removeFirst L ins))
  \/ (removeLabelFromNode now nodeId L self = (false, self, None)
      /\ forall node ins, getNodeById nodeId self = Some node ->
                          inputLabels node = Some ins -> ~ In L ins).
Proof.
  unfold removeLabelFromNode, getNodeById.
  destruct (findIndex nodeId (nodes self)) as [i|] eqn:Hidx;
    [|right; split; [reflexivity | discriminate]].
  destruct (nodes self !! i) as [node|] eqn:Hnode;
    [|right; split; [reflexivity | discriminate]].
  destruct (inputLabels node) as [ins|] eqn:Hins;
    [|right; split; [reflexivity | intros n l [= <-]; congruence]].
  destruct (JS.arrIncludes L ins) eqn:Hinc.
  - left. exists node, ins. split; [reflexivity|]. split; [exact Hins|].
    split; [apply arrIncludes_In, Hinc|].
    set (node1 := {| id := id node; type := type node; inputLabels := Some (removeFirst L ins);
                     outputLabels := outputLabels node; userPrompt := userPrompt node;
                     isManuallyCreated := isManuallyCreated node; updatedAt := now |}).
    pose proof (updateNodeOutputs_fields now node1) as Hf. cbv zeta in Hf.
    destruct (updateNodeOutputs now node1) as [node2 evs]. cbn [fst snd] in Hf |- *.
    destruct Hf as (Hid & Hty & Hpr & Hin & Hman & _).
    exists i, node2. split_and!; try reflexivity; assumption.
  - right. split; [reflexivity|]. intros n l [= <-] Hl Hin.
    rewrite Hins in Hl. injection Hl as <-.
    apply arrIncludes_In in Hin. congruence.
Qed.

(** Removing a label from a node succeeds exactly when the node holds it,
    and then schedules the cleanup check of the node; when the node held
    no label twice, the label is gone and the other inputs keep their
    order; a refused call changes nothing. *)
Theorem removeLabelFromNode_removes (now : nat) (self : t) (nodeId L : string)
    (node : NodeData) (ins : list string) :
  getNodeById nodeId self = Some node ->
  inputLabels node = Some ins ->
  List.NoDup ins ->
  let result := removeLabelFromNode now nodeId L self in
  (In L ins ->
   result.1.1 = true /\ result.2 = Some nodeId
   /\ exists node',
       getNodeById nodeId result.1.2 = Some node'
       /\ inputLabels node' = Some (List.filter (fun y => negb (String.eqb y L)) ins)
       /\ ~ In L (default [] (inputLabels node')))
  /\ (~ In L ins -> result = (false, self, None)).
Proof.
  intros Hget Hins Hnd result. subst result.
  destruct (removeLabelFromNode_effect now self nodeId L)
    as [(node0 & ins0 & Hget0 & Hins0 & HL & i & node' & Hidx & Hnode & Hres & Hnodes
         & Hid & _ & _ & _ & Hin') | [Hres Hnot]].
  - rewrite Hget in Hget0. injection Hget0 as <-. rewrite Hins in Hins0. injection Hins0 as <-.
    split; [|intros H; contradiction].
    intros _. rewrite Hres. cbn [fst snd]. split_and!; try reflexivity.
    exists node'. split_and!.
    + unfold getNodeById. rewrite Hnodes.
      rewrite (findIndex_insert _ _ _ _ _ Hidx Hnode Hid).
      apply list_lookup_insert_eq. eapply lookup_lt_Some, Hnode.
    + rewrite Hin'. f_equal. apply removeFirst_filter, Hnd.
    + rewrite Hin'. cbn. apply removeFirst_NoDup, Hnd.
  - split; [|intros _; exact Hres].
    intros HL. exfalso. exact (Hnot node ins Hget Hins HL).
Qed.

Lemma removeLabelFromNode_removes_witness :
  (removeLabelFromNode 5 "node_1" "A.txt" nodeStore).1.1 = true
  /\ (removeLabelFromNode 5 "node_1" "C.txt" nodeStore) = (false, nodeStore, None).
Proof.
  assert (Hnd : List.NoDup ["A.txt"; "B.txt"]).
  { repeat (constructor; [cbn; intuition discriminate|]). constructor. }
  destruct (removeLabelFromNode_removes 5 nodeStore "node_1" "A.txt"
              (joinNode ["A.txt"; "B.txt"]) ["A.txt"; "B.txt"] eq_refl eq_refl Hnd) as [Hin _].
  destruct (removeLabelFromNode_removes 5 nodeStore "node_1" "C.txt"
              (joinNode ["A.txt"; "B.txt"]) ["A.txt"; "B.txt"] eq_refl eq_refl Hnd) as [_ Hout].
  split.
  - apply Hin. left. reflexivity.
  - apply Hout. cbn. intuition discriminate.
Defined.

(** Adding a label and removing it again gives the node its former inputs
    back. *)
Theorem add_then_remove_restores_inputs (now now' : nat) (self : t) (nodeId L : string)
    (node : NodeData) :
  getNodeById nodeId self = Some node ->
  (addLabelToNode now nodeId L self).1 = inr true ->
  let added := (addLabelToNode now nodeId L self).2 in
  let result := removeLabelFromNode now' nodeId L added in
  result.1.1 = true
  /\ exists node',
      getNodeById nodeId result.1.2 = Some node'
      /\ inputLabels node' = Some (default [] (inputLabels node))
      /\ map id (nodes result.1.2) = map id (nodes self)
      /\ length (nodes result.1.2) = length (nodes self).
Proof.
  intros Hget Hadd added result. subst added result.
  pose proof (addLabelToNode_effect now self nodeId L) as Heff.
  destruct (Heff Hadd) as (i & n0 & n1 & Hidx & Hn0 & Hnodes & Hid & _ & _ & Hin1 & _).
  assert (n0 = node) as ->.
  { unfold getNodeById in Hget. rewrite Hidx in Hget. congruence. }
  assert (Hacc : JS.arrIncludes L (default [] (inputLabels node)) = false).
  { pose proof (addLabelToNode_result now self nodeId L) as Hr. rewrite Hadd in Hr.
    symmetry in Hr.
    destruct (canNodeAcceptInput_accepts self nodeId L node Hget Hr) as (v & Hval & Hv).
    exact (proj1 (validateNodeInput_accepts node L v Hval Hv)). }
  assert (Hlt : i < length (nodes self)) by (eapply lookup_lt_Some, Hn0).
  assert (Hidx1 : findIndex nodeId (nodes (addLabelToNode now nodeId L self).2) = Some i).
  { rewrite Hnodes. exact (findIndex_insert _ _ _ _ _ Hidx Hn0 Hid). }
  assert (Hget1 : getNodeById nodeId (addLabelToNode now nodeId L self).2 = Some n1).
  { unfold getNodeById. rewrite Hidx1, Hnodes. apply list_lookup_insert_eq, Hlt. }
  destruct (removeLabelFromNode_effect now' (addLabelToNode now nodeId L self).2 nodeId L)
    as [(n1' & ins1 & Hget1' & Hins1 & HL & j & n2 & Hidx2 & Hn1 & Hres & Hnodes2
         & Hid2 & _ & _ & _ & Hin2) | [Hres Hnot]].
  - rewrite Hget1 in Hget1'. injection Hget1' as <-.
    rewrite Hin1 in Hins1. injection Hins1 as <-.
    rewrite Hidx1 in Hidx2. injection Hidx2 as <-.
    rewrite Hres. cbn [fst snd]. split; [reflexivity|].
    exists n2. split_and!.
    + unfold getNodeById. rewrite Hnodes2.
      rewrite (findIndex_insert _ _ _ _ _ Hidx1 Hn1 Hid2).
      apply list_lookup_insert_eq. eapply lookup_lt_Some, Hn1.
    + rewrite Hin2. f_equal. apply removeFirst_snoc.
      rewrite <- arrIncludes_In. rewrite Hacc. discriminate.
    + rewrite Hnodes2, (map_id_insert _ _ _ _ Hn1 Hid2), Hnodes.
      apply (map_id_insert _ _ _ _ Hn0 Hid).
    + rewrite Hnodes2, length_insert, Hnodes, length_insert. reflexivity.
  - exfalso. apply (Hnot n1 _ Hget1 Hin1). apply in_or_app. right. left. reflexivity.
Qed.

Lemma add_then_remove_restores_inputs_witness :
  (removeLabelFromNode 6 "node_2" "C.txt" (addLabelToNode 5 "node_2" "C.txt" nodeStore).2).1.1
  = true.
Proof.
  apply (add_then_remove_restores_inputs 5 6 nodeStore "node_2" "C.txt"
           (toolNode "node_2" "summarizer" []) eq_refl eq_refl).
Defined.

End NodeStoreInvariants.

(** ** Node Store: life cycle *)

Section NodeLifeCycle.

Import NodeDataManager.

Lemma addLabelToNode_cases (now : nat) (self : t) (nodeId L : string) :
  nextNodeId (addLabelToNode now nodeId L self).2 = nextNodeId self
  /\ (nodes (addLabelToNode now nodeId L self).2 = nodes self
      \/ exists i node node',
          nodes self !! i = Some node
          /\ nodes (addLabelToNode now nodeId L self).2 = <[i := node']> (nodes self)
          /\ id node' = id node
          /\ inputLabels node' = Some (default [] (inputLabels node) ++ [L])%list
          /\ ~ In L (default [] (inputLabels node))).
Proof.
  unfold addLabelToNode.
  destruct (findIndex nodeId (nodes self)) as [i|] eqn:Hidx; [|split; [reflexivity|left; reflexivity]].
  destruct (nodes self !! i) as [node|] eqn:Hnode; [|split; [reflexivity|left; reflexivity]].
  destruct (validateNodeInput node L) as [e|validation] eqn:Hval;
    [split; [reflexivity|left; reflexivity]|].
  destruct (canAccept validation) eqn:Hacc; cbn [negb];
    [|split; [reflexivity|left; reflexivity]].
  destruct (validateNodeInput_accepts node L validation Hval Hacc) as [Hdup _].
  rewrite Hdup. cbn [negb].
  set (node2 := {| id := id node; type := type node;
                   inputLabels := Some (default [] (inputLabels node) ++ [L])%list;
                   outputLabels := outputLabels node; userPrompt := userPrompt node;
                   isManuallyCreated := isManuallyCreated node; updatedAt := now |}).
  pose proof (updateNodeOutputs_fields now node2) as Hf. cbv zeta in Hf.
  destruct (updateNodeOutputs now node2) as [node3 evs]. cbn [fst snd] in Hf |- *.
  destruct Hf as (Hid & _ & _ & Hin & _).
  split; [reflexivity|]. right. exists i, node, node3. split_and!; try reflexivity; try assumption.
  rewrite <- arrIncludes_In, Hdup. discriminate.
Qed.

Lemma removeLabelFromNode_cases (now : nat) (self : t) (nodeId L : string) :
  nextNodeId (removeLabelFromNode now nodeId L self).1.2 = nextNodeId self
  /\ (nodes (removeLabelFromNode now nodeId L self).1.2 = nodes self
      \/ exists i node node' ins,
          nodes self !! i = Some node
          /\ nodes (removeLabelFromNode now nodeId L self).1.2 = <[i := node']> (nodes self)
          /\ id node' = id node
          /\ inputLabels node = Some ins
          /\ inputLabels node' = Some (removeFirst L ins)).
Proof.
  split.
  - unfold removeLabelFromNode.
    destruct (findIndex nodeId (nodes self)) as [i|]; [|reflexivity].
    destruct (nodes self !! i) as [node|]; [|reflexivity].
    destruct (inputLabels node) as [ins|]; [|reflexivity].
    destruct (JS.arrIncludes L ins); [|reflexivity].
    destruct (updateNodeOutputs _ _) as [node2 evs]. reflexivity.
  - destruct (removeLabelFromNode_effect now self nodeId L)
      as [(node & ins & _ & Hins & _ & i & node' & _ & Hnode & _ & Hnodes & Hid & _ & _ & _ & Hin')
         | [Hres _]].
    + right. exists i, node, node', ins. split_and!; assumption.
    + left. rewrite Hres. reflexivity.
Qed.

Lemma removeNode_shrinks (nodeId : string) (self : t) :
  sublist (nodes (removeNode nodeId self).1.2) (nodes self)
  /\ nextNodeId (removeNode nodeId self).1.2 = nextNodeId self.
Proof.
  unfold removeNode. destruct (findIndex nodeId (nodes self)) as [i|]; [|split; reflexivity].
  destruct (nodes self !! i); cbn; split; try reflexivity. apply sublist_delete.
Qed.

Lemma deleteNode_shrinks (nodeId : string) (isAutoCleanup : bool) (self : t) :
  sublist (nodes (deleteNode nodeId isAutoCleanup self).1.2) (nodes self)
  /\ nextNodeId (deleteNode nodeId isAutoCleanup self).1.2 = nextNodeId self.
Proof.
  unfold deleteNode. destruct (getNodeById nodeId self); [|split; reflexivity].
  destruct isAutoCleanup; cbn [negb]; [|split; reflexivity].
  pose proof (removeNode_shrinks nodeId self) as H.
  destruct (removeNode nodeId self) as [[b s'] sg]. exact H.
Qed.

Lemma checkNodeForCleanup_shrinks (nodeId : string) (self : t) :
  sublist (nodes (checkNodeForCleanup nodeId self).1.2) (nodes self)
  /\ nextNodeId (checkNodeForCleanup nodeId self).1.2 = nextNodeId self.
Proof.
  unfold checkNodeForCleanup. destruct (getNodeById nodeId self) as [node|]; [|split; reflexivity].
  destruct (isEmptyManual node); [|split; reflexivity].
  pose proof (deleteNode_shrinks nodeId true self) as H.
  destruct (deleteNode nodeId true self) as [[b s'] sg]. exact H.
Qed.

Lemma deleteEach_shrinks (nodeIds : list string) (self : t) :
  sublist (nodes (deleteEach nodeIds self).1) (nodes self)
  /\ nextNodeId (deleteEach nodeIds self).1 = nextNodeId self.
Proof.
  revert self. induction nodeIds as [|a nodeIds IH]; intros self; cbn [deleteEach];
    [split; reflexivity|].
  pose proof (deleteNode_shrinks a true self) as [H1 H2].
  destruct (deleteNode a true self) as [[b s1] sg1]. cbn [fst snd] in H1, H2.
  destruct (IH s1) as [H3 H4]. destruct (deleteEach nodeIds s1) as [s2 sg2].
  cbn [fst snd] in *. split; [etransitivity; eassumption | congruence].
Qed.

Lemma removeEach_shrinks (nodeIds : list string) (self : t) :
  sublist (nodes (removeEach nodeIds self).1) (nodes self)
  /\ nextNodeId (removeEach nodeIds self).1 = nextNodeId self.
Proof.
  revert self. induction nodeIds as [|a nodeIds IH]; intros self; cbn [removeEach];
    [split; reflexivity|].
  pose proof (removeNode_shrinks a self) as [H1 H2].
  destruct (removeNode a self) as [[b s1] sg1]. cbn [fst snd] in H1, H2.
  destruct (IH s1) as [H3 H4]. destruct (removeEach nodeIds s1) as [s2 sg2].
  cbn [fst snd] in *. split; [etransitivity; eassumption | congruence].
Qed.

Lemma wellFormed_shrinks (self self' : t) :
  sublist (nodes self') (nodes self) -> nextNodeId self' = nextNodeId self ->
  wellFormed self -> wellFormed self'.
Proof.
  intros Hsub Hnext (Hids & Hins & Hcnt). split_and!.
  - unfold distinctIds in *. apply NoDup_ListNoDup. apply NoDup_ListNoDup in Hids.
    eapply sublist_NoDup; [exact Hids|].
    change (map id) with (fmap (M := list) id). apply fmap_sublist, Hsub.
  - intros n Hn. apply Hins. apply list_elem_of_In. eapply elem_of_sublist; [|exact Hsub].
    apply list_elem_of_In, Hn.
  - intros n k Hn Hid. rewrite Hnext. apply (Hcnt n k); [|exact Hid].
    apply list_elem_of_In. eapply elem_of_sublist; [|exact Hsub]. apply list_elem_of_In, Hn.
Qed.

Lemma wellFormed_replace (self self' : t) (i : nat) (node node' : NodeData) :
  nodes self !! i = Some node -> nodes self' = <[i := node']> (nodes self) ->
  id node' = id node -> List.NoDup (default [] (inputLabels node')) ->
  nextNodeId self' = nextNodeId self ->
  wellFormed self -> wellFormed self'.
Proof.
  intros Hnode Hnodes Hid Hnd Hnext (Hids & Hins & Hcnt). split_and!.
  - unfold distinctIds in *. rewrite Hnodes, (map_id_insert _ _ _ _ Hnode Hid). exact Hids.
  - intros n Hn. rewrite Hnodes in Hn. apply In_insert in Hn as [->|Hn]; [exact Hnd|].
    apply Hins, Hn.
  - intros n k Hn Hk. rewrite Hnext. rewrite Hnodes in Hn.
    apply In_insert in Hn as [->|Hn]; [|exact (Hcnt n k Hn Hk)].
    apply (Hcnt node k); [|congruence].
    apply list_elem_of_In. eapply list_elem_of_lookup_2, Hnode.
Qed.

Lemma node_prefix_inj (a b : string) : "node_" +:+ a = "node_" +:+ b -> a = b.
Proof. cbn. intros [= H]. exact H. Qed.

Lemma findIndex_app_fresh (nodeId : string) (l : list NodeData) (n : NodeData) :
  ~ In nodeId (map id l) -> id n = nodeId -> findIndex nodeId (l ++ [n]) = Some (length l).
Proof.
  intros Hfresh Hid. induction l as [|m l IH]; cbn.
  - rewrite Hid, String.eqb_refl. reflexivity.
  - destruct (String.eqb_spec (id m) nodeId) as [E|E]; [exfalso; apply Hfresh; left; exact E|].
    rewrite IH; [reflexivity|]. intros H. apply Hfresh. right. exact H.
Qed.

Lemma counterAhead_fresh (self : t) :
  counterAhead self -> ~ In ("node_" +:+ pretty (nextNodeId self)) (map id (nodes self)).
Proof.
  intros Hcnt Hin. apply in_map_iff in Hin as (n & Hid & Hn).
  pose proof (Hcnt n (nextNodeId self) Hn Hid). lia.
Qed.

(** What [createNode] does to the manager when the id it makes is not in
    use. *)
Lemma createNode_effect (now : nat) (toolType : string) (self : t) :
  ~ In ("node_" +:+ pretty (nextNodeId self)) (map id (nodes self)) ->
  let result := createNode now toolType self in
  id result.1.1 = "node_" +:+ pretty (nextNodeId self)
  /\ type result.1.1 = toolType
  /\ inputLabels result.1.1 = Some []
  /\ nextNodeId result.1.2 = S (nextNodeId self)
  /\ (toolType <> "" ->
      nodes result.1.2 = (nodes self ++ [result.1.1])%list
      /\ result.2 = [NodeAdded (id result.1.1)])
  /\ (toolType = "" -> nodes result.1.2 = nodes self /\ result.2 = []).
Proof.
  intros Hfresh. unfold createNode, addNode. cbn [id type].
  change (String.eqb ("node_" +:+ pretty (nextNodeId self)) "") with false. cbn [orb].
  destruct (String.eqb_spec toolType "") as [->|Hty].
  - cbn. split_and!; try reflexivity; [intros H; contradiction | intros _; split; reflexivity].
  - unfold getNodeById. cbn [nodes].
    apply findIndex_None in Hfresh. rewrite Hfresh. cbn.
    split_and!; try reflexivity; [intros _; split; reflexivity | intros H; contradiction].
Qed.

Lemma createNode_wellFormed (now : nat) (toolType : string) (self : t) :
  wellFormed self -> wellFormed (createNode now toolType self).1.2.
Proof.
  intros (Hids & Hins & Hcnt).
  pose proof (counterAhead_fresh self Hcnt) as Hfresh.
  pose proof (createNode_effect now toolType self Hfresh) as Heff. cbv zeta in Heff.
  destruct (createNode now toolType self) as [[node self'] signals]. cbn [fst snd] in *.
  destruct Heff as (Hid & _ & Hin & Hnext & Hadd & Hnot).
  destruct (String.eqb_spec toolType "") as [Hty|Hty].
  - destruct (Hnot Hty) as [Hnodes _]. split_and!.
    + unfold distinctIds. rewrite Hnodes. exact Hids.
    + intros n Hn. rewrite Hnodes in Hn. apply Hins, Hn.
    + intros n k Hn Hk. rewrite Hnodes in Hn. rewrite Hnext.
      pose proof (Hcnt n k Hn Hk). lia.
  - destruct (Hadd Hty) as [Hnodes _]. split_and!.
    + unfold distinctIds in *. rewrite Hnodes, map_app. cbn [map].
      apply NoDup_ListNoDup. apply NoDup_ListNoDup in Hids.
      apply NoDup_app. split_and!; [exact Hids| |apply NoDup_singleton].
      intros x Hx Hx'. apply list_elem_of_singleton in Hx'. subst x.
      apply Hfresh. rewrite <- Hid. apply list_elem_of_In, Hx.
    + intros n Hn. rewrite Hnodes in Hn. apply in_app_or in Hn as [Hn|[<-|[]]].
      * apply Hins, Hn.
      * rewrite Hin. constructor.
    + intros n k Hn Hk. rewrite Hnodes in Hn. rewrite Hnext.
      apply in_app_or in Hn as [Hn|[<-|[]]].
      * pose proof (Hcnt n k Hn Hk). lia.
      * rewrite Hid in Hk. apply node_prefix_inj, pretty_nat_inj in Hk. lia.
Qed.

(** The node array of a manager keeps its shape: starting from a new
    manager, [createNode], [addLabelToNode], [removeLabelFromNode],
    [removeNode], [deleteNode], the cleanup checks and [clearAllNodes] leave
    the ids of the nodes pairwise distinct, no label twice in the inputs of
    a node, and the id counter ahead of every id of the form node_k in the
    array. *)
Theorem node_array_stays_wellFormed :
  wellFormed new
  /\ forall self, wellFormed self ->
     (forall now toolType, wellFormed (createNode now toolType self).1.2)
     /\ (forall now nodeId L, wellFormed (addLabelToNode now nodeId L self).2)
     /\ (forall now nodeId L, wellFormed (removeLabelFromNode now nodeId L self).1.2)
     /\ (forall nodeId, wellFormed (removeNode nodeId self).1.2)
     /\ (forall nodeId isAutoCleanup, wellFormed (deleteNode nodeId isAutoCleanup self).1.2)
     /\ (forall nodeId, wellFormed (checkNodeForCleanup nodeId self).1.2)
     /\ wellFormed (checkAndCleanupEmptyNodes self).1.2
     /\ wellFormed (clearAllNodes self).1.2.
Proof.
  split.
  { split_and!; [constructor | intros n [] | intros n k []]. }
  intros self Hwf. split_and!.
  - intros now toolType. apply createNode_wellFormed, Hwf.
  - intros now nodeId L.
    destruct (addLabelToNode_cases now self nodeId L)
      as [Hnext [Hsame | (i & node & node' & Hnode & Hnodes & Hid & Hin & Hfresh)]].
    + eapply wellFormed_shrinks; [rewrite Hsame; reflexivity | exact Hnext | exact Hwf].
    + eapply wellFormed_replace; try eassumption.
      rewrite Hin. cbn. apply NoDup_ListNoDup, NoDup_app. split_and!.
      * apply NoDup_ListNoDup, Hwf. apply list_elem_of_In. eapply list_elem_of_lookup_2, Hnode.
      * intros x Hx Hx'. apply list_elem_of_singleton in Hx'. subst x.
        apply Hfresh, list_elem_of_In, Hx.
      * apply NoDup_singleton.
  - intros now nodeId L.
    destruct (removeLabelFromNode_cases now self nodeId L)
      as [Hnext [Hsame | (i & node & node' & ins & Hnode & Hnodes & Hid & Hins & Hin')]].
    + eapply wellFormed_shrinks; [rewrite Hsame; reflexivity | exact Hnext | exact Hwf].
    + eapply wellFormed_replace; try eassumption.
      rewrite Hin'. cbn. apply removeFirst_NoDup.
      destruct Hwf as (_ & Hdi & _). specialize (Hdi node). rewrite Hins in Hdi.
      apply Hdi. apply list_elem_of_In. eapply list_elem_of_lookup_2, Hnode.
  - intros nodeId. destruct (removeNode_shrinks nodeId self).
    eapply wellFormed_shrinks; eassumption.
  - intros nodeId isAutoCleanup. destruct (deleteNode_shrinks nodeId isAutoCleanup self).
    eapply wellFormed_shrinks; eassumption.
  - intros nodeId. destruct (checkNodeForCleanup_shrinks nodeId self).
    eapply wellFormed_shrinks; eassumption.
  - unfold checkAndCleanupEmptyNodes.
    destruct (deleteEach_shrinks (map id (List.filter isEmptyManual (nodes self))) self).
    destruct (deleteEach _ self) as [s' sg]. eapply wellFormed_shrinks; eassumption.
  - unfold clearAllNodes.
    destruct (removeEach_shrinks (map id (nodes self)) self).
    destruct (removeEach _ self) as [s' sg]. eapply wellFormed_shrinks; eassumption.
Qed.

(** On a manager whose id counter is ahead of the ids in use, [createNode]
    with a tool type makes a node with a new id, appends it to the array
    and announces it; the node it returns is the one [getNodeById] finds.
    Without a tool type ([addNode] refuses the node) the array is left as
    it was, though the counter has moved on and a node is returned. *)
Theorem createNode_gives_fresh_id (now : nat) (toolType : string) (self : t) :
  counterAhead self ->
  let result := createNode now toolType self in
  let node := result.1.1 in
  ~ In (id node) (map id (nodes self))
  /\ nextNodeId result.1.2 = S (nextNodeId self)
  /\ (toolType <> "" ->
      nodes result.1.2 = (nodes self ++ [node])%list
      /\ getNodeById (id node) result.1.2 = Some node
      /\ isEmptyManual node = true
      /\ result.2 = [NodeAdded (id node)])
  /\ (toolType = "" ->
      nodes result.1.2 = nodes self /\ getNodeById (id node) result.1.2 = None
      /\ result.2 = []).
Proof.
  intros Hcnt result node. subst result node.
  pose proof (counterAhead_fresh self Hcnt) as Hfresh.
  pose proof (createNode_effect now toolType self Hfresh) as Heff. cbv zeta in Heff.
  assert (Hman : isEmptyManual (createNode now toolType self).1.1 = true).
  { unfold createNode. destruct (addNode _ _ _) as [[o s'] sg]. reflexivity. }
  destruct (createNode now toolType self) as [[node self'] signals]. cbn [fst snd] in *.
  destruct Heff as (Hid & _ & Hin & Hnext & Hadd & Hnot).
  rewrite Hid. split_and!; [exact Hfresh | exact Hnext | |].
  - intros Hty. destruct (Hadd Hty) as [Hnodes Hsig]. rewrite <- Hid. split_and!; try assumption.
    unfold getNodeById. rewrite Hnodes.
    rewrite (findIndex_app_fresh (id node) (nodes self) node); [|rewrite Hid; exact Hfresh|reflexivity].
    apply list_lookup_middle. reflexivity.
  - intros Hty. destruct (Hnot Hty) as [Hnodes Hsig]. split_and!; try assumption.
    unfold getNodeById. rewrite Hnodes.
    apply findIndex_None in Hfresh. rewrite Hfresh. reflexivity.
Qed.

Lemma createNode_gives_fresh_id_witness :
  counterAhead nodeStore
  /\ id (createNode 7 "translator" nodeStore).1.1 = "node_3"
  /\ ~ In "node_3" (map id (nodes nodeStore))
  /\ getNodeById "node_3" (createNode 7 "translator" nodeStore).1.2
     = Some (createNode 7 "translator" nodeStore).1.1.
Proof.
  assert (Hcnt : counterAhead nodeStore).
  { intros n k [<-|[<-|[]]] Hk; cbn in Hk;
      change (String "n" (String "o" (String "d" (String "e" (String "_" (pretty k))))))
        with ("node_" +:+ pretty k) in Hk.
    - change "node_1" with ("node_" +:+ pretty 1) in Hk.
      apply node_prefix_inj, pretty_nat_inj in Hk. subst k. cbn. lia.
    - change "node_2" with ("node_" +:+ pretty 2) in Hk.
      apply node_prefix_inj, pretty_nat_inj in Hk. subst k. cbn. lia. }
  destruct (createNode_gives_fresh_id 7 "translator" nodeStore Hcnt) as (Hfresh & _ & Hadd & _).
  destruct (Hadd ltac:(discriminate)) as (_ & Hget & _).
  split_and!; [exact Hcnt | reflexivity | exact Hfresh | exact Hget].
Defined.

Lemma filter_filter_negb {A} (f g : A -> bool) (l : list A) :
  List.filter g (List.filter f l) = List.filter (fun x => f x && g x) l.
Proof.
  induction l as [|x l IH]; cbn; [reflexivity|].
  destruct (f x); cbn; [destruct (g x)|]; rewrite IH; reflexivity.
Qed.

Lemma delete_findIndex (a : string) (l : list NodeData) (i : nat) :
  List.NoDup (map id l) -> findIndex a l = Some i ->
  delete i l = List.filter (fun n => negb (String.eqb (id n) a)) l.
Proof.
  revert i. induction l as [|n l IH]; intros i Hnd; cbn [findIndex]; [discriminate|].
  inversion Hnd as [|? ? Hn Hl]; subst. cbn [List.filter].
  destruct (String.eqb_spec (id n) a) as [E|E]; cbn [negb].
  - intros [= <-]. cbn. symmetry. apply List.forallb_filter_id, forallb_forall.
    intros m Hm. apply negb_true_iff, String.eqb_neq. intros E'. apply Hn.
    rewrite E, <- E'. apply in_map, Hm.
  - destruct (findIndex a l) as [j|] eqn:Ej; [|discriminate].
    intros [= <-]. cbn. f_equal. apply IH; [exact Hl | reflexivity].
Qed.

Lemma filter_absent (a : string) (l : list NodeData) :
  findIndex a l = None -> List.filter (fun n => negb (String.eqb (id n) a)) l = l.
Proof.
  intros H. apply List.forallb_filter_id, forallb_forall.
  intros m Hm. apply negb_true_iff, String.eqb_neq. intros E.
  apply findIndex_None in H. apply H. rewrite <- E. apply in_map, Hm.
Qed.

Lemma deleteNode_auto_nodes (a : string) (self : t) :
  distinctIds self ->
  nodes (deleteNode a true self).1.2
  = List.filter (fun n => negb (String.eqb (id n) a)) (nodes self).
Proof.
  intros Hnd. unfold deleteNode, getNodeById, removeNode.
  destruct (findIndex a (nodes self)) as [i|] eqn:Hidx.
  - destruct (nodes self !! i) as [node|] eqn:Hnode; cbn.
    + apply delete_findIndex; assumption.
    + apply findIndex_Some in Hidx as (n & Hn & _). congruence.
  - cbn. symmetry. apply filter_absent, Hidx.
Qed.

Lemma deleteEach_nodes (nodeIds : list string) (self : t) :
  distinctIds self ->
  nodes (deleteEach nodeIds self).1
  = List.filter (fun n => negb (JS.arrIncludes (id n) nodeIds)) (nodes self).
Proof.
  revert self. induction nodeIds as [|a nodeIds IH]; intros self Hnd; cbn [deleteEach].
  - cbn. symmetry. apply List.forallb_filter_id, forallb_forall. reflexivity.
  - pose proof (deleteNode_auto_nodes a self Hnd) as H1.
    pose proof (deleteNode_shrinks a true self) as [Hsub _].
    destruct (deleteNode a true self) as [[b s1] sg1]. cbn [fst snd] in H1, Hsub.
    assert (Hnd1 : distinctIds s1).
    { unfold distinctIds in *. apply NoDup_ListNoDup. apply NoDup_ListNoDup in Hnd.
      eapply sublist_NoDup; [exact Hnd|].
      change (map id) with (fmap (M := list) id). apply fmap_sublist, Hsub. }
    specialize (IH s1 Hnd1). destruct (deleteEach nodeIds s1) as [s2 sg2]. cbn [fst snd] in *.
    rewrite IH, H1, filter_filter_negb. apply List.filter_ext. intros n.
    unfold JS.arrIncludes. cbn [existsb]. rewrite negb_orb. reflexivity.
Qed.

(** On a manager whose node ids are pairwise distinct, the bulk cleanup
    removes exactly the nodes that were created by hand and hold no input,
    keeps the others in their order and returns how many it removed; when
    there is none it changes nothing and stays silent. *)
Theorem checkAndCleanupEmptyNodes_removes_empty (self : t) :
  distinctIds self ->
  let result := checkAndCleanupEmptyNodes self in
  nodes result.1.2 = List.filter (fun n => negb (isEmptyManual n)) (nodes self)
  /\ result.1.1 = length (List.filter isEmptyManual (nodes self))
  /\ length (nodes result.1.2) + result.1.1 = length (nodes self)
  /\ nextNodeId result.1.2 = nextNodeId self
  /\ (result.1.1 = 0 -> result = (0, self, [])).
Proof.
  intros Hnd result. subst result. unfold checkAndCleanupEmptyNodes.
  pose proof (deleteEach_nodes (map id (List.filter isEmptyManual (nodes self))) self Hnd) as H.
  pose proof (deleteEach_shrinks (map id (List.filter isEmptyManual (nodes self))) self)
    as [_ Hnext].
  assert (Hl : length (List.filter isEmptyManual (nodes self)) = 0 ->
               deleteEach (map id (List.filter isEmptyManual (nodes self))) self = (self, [])).
  { destruct (List.filter isEmptyManual (nodes self)); [reflexivity | discriminate]. }
  destruct (deleteEach _ self) as [s' sg]. cbn [fst snd] in *.
  assert (Hnodes : nodes s' = List.filter (fun n => negb (isEmptyManual n)) (nodes self)).
  { rewrite H. apply filter_ext_in_iff. intros n Hn. f_equal.
    apply eq_true_iff_eq. rewrite arrIncludes_In, in_map_iff. split.
    - intros (m & Hid & Hm). apply filter_In in Hm as [Hm Hem].
      assert (m = n) as <-; [|exact Hem].
      clear -Hnd Hid Hm Hn. unfold distinctIds in Hnd.
      induction (nodes self) as [|x l IH]; [destruct Hn|].
      inversion Hnd as [|? ? Hx Hl]; subst.
      destruct Hm as [<-|Hm], Hn as [<-|Hn]; try reflexivity.
      + exfalso. apply Hx. rewrite Hid. apply in_map, Hn.
      + exfalso. apply Hx. rewrite <- Hid. apply in_map, Hm.
      + apply IH; assumption.
    - intros Hem. exists n. split; [reflexivity|]. apply filter_In. split; assumption. }
  split_and!.
  - exact Hnodes.
  - reflexivity.
  - rewrite Hnodes. clear. induction (nodes self) as [|x l IH]; cbn; [reflexivity|].
    destruct (isEmptyManual x); cbn; lia.
  - exact Hnext.
  - intros H0. rewrite H0. cbn. specialize (Hl H0). injection Hl as -> ->. reflexivity.
Qed.

Lemma checkAndCleanupEmptyNodes_removes_empty_witness :
  map id (nodes (checkAndCleanupEmptyNodes nodeStore).1.2) = ["node_1"]
  /\ (checkAndCleanupEmptyNodes nodeStore).1.1 = 1.
Proof.
  assert (Hnd : distinctIds nodeStore).
  { unfold distinctIds. cbn. repeat (constructor; [cbn; intuition discriminate|]). constructor. }
  destruct (checkAndCleanupEmptyNodes_removes_empty nodeStore Hnd) as (Hnodes & Hcount & _).
  rewrite Hnodes, Hcount. split; reflexivity.
Defined.

Lemma removeEach_all (l : list NodeData) (self : t) :
  nodes self = l ->
  removeEach (map id l) self
  = (setNodes [] self,
     concat (map (fun n =>
                    map (fun outputLabel =>
                           RequestCascadingDelete outputLabel "node-output-cleanup")
                        (default [] (outputLabels n))
                    ++ [NodeRemoved (id n); NodeDeleted (id n)])%list l)).
Proof.
  revert self. induction l as [|n l IH]; intros self Hl; cbn [map removeEach concat].
  - destruct self as [ns nx em]. cbn in Hl. subst ns. reflexivity.
  - unfold removeNode. rewrite Hl. cbn [findIndex]. rewrite String.eqb_refl.
    cbn [lookup list_lookup delete list_delete].
    change ((n :: l) !! 0) with (Some n).
    change (delete 0 (n :: l)) with l.
    rewrite (IH (setNodes l self) eq_refl). reflexivity.
Qed.

(** [clearAllNodes] always leaves the node array empty, also when ids are
    shared, and returns the number of nodes it held; for each node, in
    array order, it requests the cascading delete of the outputs of the
    node and then announces its removal.  The id counter is not reset, so
    ids given out before are not given out again. *)
Theorem clearAllNodes_empties (self : t) :
  let result := clearAllNodes self in
  nodes result.1.2 = []
  /\ result.1.1 = length (nodes self)
  /\ nextNodeId result.1.2 = nextNodeId self
  /\ emitted result.1.2 = emitted self
  /\ result.2
     = concat (map (fun n =>
                      map (fun outputLabel =>
                             RequestCascadingDelete outputLabel "node-output-cleanup")
                          (default [] (outputLabels n))
                      ++ [NodeRemoved (id n); NodeDeleted (id n)])%list (nodes self)).
Proof.
  unfold clearAllNodes. rewrite (removeEach_all (nodes self) self eq_refl). cbn.
  rewrite length_map. split_and!; reflexivity.
Qed.

End NodeLifeCycle.

(** ** Node Store: the outputs of a node *)

Section NodeOutputs.

Import NodeDataManager.

Lemma hasValidUserPrompt_promptGiven (node : NodeData) :
  hasValidUserPrompt node = promptGiven (userPrompt node).
Proof.
  unfold hasValidUserPrompt, promptGiven. f_equal.
  destruct (JS.trim (userPrompt node)); reflexivity.
Qed.

Lemma twoLetterWord_length (prevIsWord : bool) (s code : string) :
  twoLetterWord prevIsWord s = Some code -> String.length code = 2.
Proof.
  revert prevIsWord. induction s as [|a s IH]; intros prevIsWord; cbn [twoLetterWord];
    [discriminate|].
  destruct s as [|b rest]; [apply IH|].
  destruct (negb prevIsWord && isLower a && isLower b && _); [|apply IH].
  intros [= <-]. destruct rest; reflexivity.
Qed.

Lemma languageMap_codes (name code : string) :
  In (name, code) languageMap -> String.length code = 2.
Proof.
  unfold languageMap. intros H.
  repeat (destruct H as [[= <- <-]|H]; [reflexivity|]). destruct H.
Qed.

(** The language code of a translation: none for an empty or blank prompt,
    and otherwise always a code of two characters, the fallback xx
    included. *)
Theorem parseLanguageFromPrompt_two_letters (userPrompt : string) :
  (parseLanguageFromPrompt userPrompt = None <-> promptGiven userPrompt = false)
  /\ (forall code, parseLanguageFromPrompt userPrompt = Some code -> String.length code = 2).
Proof.
  unfold parseLanguageFromPrompt, promptGiven.
  destruct (String.eqb userPrompt ""); cbn [orb andb negb];
    [split; [tauto | discriminate]|].
  destruct (String.eqb (JS.trim userPrompt) ""); cbn [negb];
    [split; [tauto | discriminate]|].
  destruct (List.find _ languageMap) as [[name code]|] eqn:Hfind.
  - split; [split; discriminate|]. intros c [= <-].
    apply find_some in Hfind as [Hin _]. eapply languageMap_codes, Hin.
  - destruct (twoLetterWord false _) as [code|] eqn:Hword.
    + split; [split; discriminate|]. intros c [= <-]. eapply twoLetterWord_length, Hword.
    + split; [split; discriminate|]. intros c [= <-]. reflexivity.
Qed.

(** A type one of whose labels passes the type check is a type of the rules
    table. *)
Lemma isInputTypeValid_table (nodeType L : string) :
  isInputTypeValid nodeType L = inr true -> In nodeType (map fst rules).
Proof.
  unfold isInputTypeValid, getInputRules. cbv zeta.
  destruct (JS.get nodeType rules) as [r| |] eqn:E.
  - intros _. apply get_Own in E. apply (in_map fst) in E. exact E.
  - discriminate.
  - discriminate.
Qed.

Lemma validateNodeInput_accepts_prompt (N : NodeData) (L : string) (validation : Validation) :
  validateNodeInput N L = inr validation ->
  canAccept validation = true ->
  In (type N) (map fst rules)
  /\ (getNodePromptRequirement (type N) = mandatory -> hasValidUserPrompt N = true).
Proof.
  intros Hval Hacc. split.
  - destruct (validateNodeInput_accepts N L validation Hval Hacc) as [_ Hty].
    exact (isInputTypeValid_table _ _ Hty).
  - revert Hval Hacc. unfold validateNodeInput.
    destruct (isInputTypeValid (type N) L) as [e|[|]]; [discriminate| |];
      cbn [negb]; intros [= <-]; [|discriminate].
    destruct (maxInputsReached _ _); [discriminate|].
    destruct (JS.arrIncludes L (default [] (inputLabels N))); [discriminate|].
    destruct (getNodePromptRequirement (type N)); [discriminate| |discriminate].
    destruct (hasValidUserPrompt N); [reflexivity|discriminate].
Qed.

(** The types of the rules table have a minimum. *)
Lemma minInputs_table (nodeType : string) :
  In nodeType (map fst rules) -> exists min, minInputs (getInputRules nodeType) = Some min.
Proof.
  cbn. intros H. repeat (destruct H as [<-|H]; [eexists; reflexivity|]). destruct H.
Qed.

Lemma generateSimulatedOutputs_length (node : NodeData) :
  In (type node) (map fst rules) ->
  (getNodePromptRequirement (type node) = mandatory -> hasValidUserPrompt node = true) ->
  length (generateSimulatedOutputs node)
  = if JS.arrIncludes (type node) ["join"; "analyzer"] then 1
    else length (default [] (inputLabels node)).
Proof.
  intros Hty Hprompt. rewrite hasValidUserPrompt_promptGiven in Hprompt.
  unfold generateSimulatedOutputs, outputIndividualFiles, outputCombinedFiles.
  cbn [map fst rules] in Hty.
  destruct Hty as [<-|Hty]; [cbn; apply length_map|].
  destruct Hty as [<-|Hty]; [cbn; apply length_map|].
  destruct Hty as [<-|Hty]; [cbn; apply length_map|].
  destruct Hty as [<-|Hty]; [cbn; apply length_map|].
  destruct Hty as [<-|Hty]; [cbn; apply length_map|].
  destruct Hty as [E|Hty].
  { rewrite <- E in *. specialize (Hprompt eq_refl). cbn [String.eqb Ascii.eqb Bool.eqb orb].
    destruct (parseLanguageFromPrompt_two_letters (userPrompt node)) as [Hnone Hcode].
    destruct (parseLanguageFromPrompt (userPrompt node)) as [code|].
    - specialize (Hcode code eq_refl).
      destruct code as [|c code]; [discriminate|]. cbn [String.eqb]. cbn. apply length_map.
    - destruct Hnone as [Hnone _]. rewrite Hnone in Hprompt; [discriminate | reflexivity]. }
  destruct Hty as [E|Hty].
  { rewrite <- E in *. specialize (Hprompt eq_refl). cbn. rewrite Hprompt. reflexivity. }
  destruct Hty as [<-|Hty]; [reflexivity|].
  destruct Hty as [<-|Hty]; [cbn; apply length_map|].
  destruct Hty as [<-|Hty]; [cbn; apply length_map|].
  destruct Hty as [E|[]].
  rewrite <- E in *. specialize (Hprompt eq_refl). cbn. rewrite Hprompt. apply length_map.
Qed.

(** An accepted input leads to outputs.  After a successful
    [addLabelToNode] the node holds the label, and its outputs are: none
    while it has fewer inputs than the minimum of its type (a join node
    with one input), one combined output for the types join and analyzer,
    and one output per input for every other type. *)
Theorem accepted_input_yields_outputs (now : nat) (self : t) (nodeId L : string) :
  (addLabelToNode now nodeId L self).1 = inr true ->
  exists node' ins outs min,
    getNodeById nodeId (addLabelToNode now nodeId L self).2 = Some node'
    /\ inputLabels node' = Some ins /\ In L ins
    /\ outputLabels node' = Some outs
    /\ minInputs (getInputRules (type node')) = Some min
    /\ if (length ins <? min)%nat then outs = []
       else if JS.arrIncludes (type node') ["join"; "analyzer"] then length outs = 1
       else length outs = length ins.
Proof.
  intros Hadd.
  destruct (addLabelToNode_effect now self nodeId L Hadd)
    as (i & node & node' & Hidx & Hnode & Hnodes & Hid & Hty & Hpr & Hin & Hout).
  assert (Hget : getNodeById nodeId self = Some node).
  { unfold getNodeById. rewrite Hidx. exact Hnode. }
  assert (Hacc : exists validation,
             validateNodeInput node L = inr validation /\ canAccept validation = true).
  { pose proof (addLabelToNode_result now self nodeId L) as Hr. rewrite Hadd in Hr.
    symmetry in Hr. exact (canNodeAcceptInput_accepts self nodeId L node Hget Hr). }
  destruct Hacc as (validation & Hval & Hacc).
  destruct (validateNodeInput_accepts_prompt node L validation Hval Hacc) as [Htable Hprompt].
  destruct (minInputs_table _ Htable) as (min & Hmin).
  rewrite Hmin in Hout. cbn [JS.geq] in Hout.
  exists node', (default [] (inputLabels node) ++ [L])%list,
         (if (min <=? length (default [] (inputLabels node) ++ [L])%list)%nat
          then generateSimulatedOutputs node' else []), min.
  split_and!.
  - unfold getNodeById. rewrite Hnodes, (findIndex_insert _ _ _ _ _ Hidx Hnode Hid).
    apply list_lookup_insert_eq. eapply lookup_lt_Some, Hnode.
  - exact Hin.
  - apply in_or_app. right. left. reflexivity.
  - exact Hout.
  - rewrite Hty. exact Hmin.
  - destruct (Nat.leb_spec min (length (default [] (inputLabels node) ++ [L])%list))
      as [Hle|Hlt].
    + destruct (Nat.ltb_spec (length (default [] (inputLabels node) ++ [L])%list) min)
        as [Hlt'|_]; [lia|].
      rewrite generateSimulatedOutputs_length.
      * destruct (JS.arrIncludes (type node) ["join"; "analyzer"]) eqn:E;
          rewrite Hty, E, ?Hin; reflexivity.
      * congruence.
      * rewrite Hty. intros Hm. unfold hasValidUserPrompt. rewrite Hpr. apply (Hprompt Hm).
    + destruct (Nat.ltb_spec (length (default [] (inputLabels node) ++ [L])%list) min)
        as [_|Hle]; [reflexivity|lia].
Qed.

Lemma accepted_input_yields_outputs_witness :
  exists node' outs,
    getNodeById "node_2" (addLabelToNode 5 "node_2" "C.txt" nodeStore).2 = Some node'
    /\ outputLabels node' = Some outs /\ length outs = 1.
Proof.
  destruct (accepted_input_yields_outputs 5 nodeStore "node_2" "C.txt" eq_refl)
    as (node' & ins & outs & min & Hget & Hins & _ & Houts & Hmin & Hlen).
  exists node', outs. split_and!; [exact Hget | exact Houts |].
  vm_compute in Hget. injection Hget as <-. cbn in Hins. injection Hins as <-.
  vm_compute in Hmin. injection Hmin as <-.
  exact Hlen.
Defined.

End NodeOutputs.

(** ** Validation: duplicate actions and the verdict *)

Section Verdict.

Import ToolFlowBuilder.

Lemma typeInputKey_default (node : Node) :
  typeInputKey node = type node +:+ ":" +:+ JS.join "," (JS.sort (default [] (inputLabels node))).
Proof. unfold typeInputKey. destruct (inputLabels node); reflexivity. Qed.

(** Duplicate detection answers no exactly when the keys of the nodes (the
    type and the sorted input labels joined by commas) are pairwise
    distinct.  So two nodes of the same type whose input labels are the same
    up to their order are always reported, and a node without an
    [inputLabels] array counts as one with no input. *)
Theorem detectDuplicateActions_decides (heap : list Node) (addrs : list nat) :
  ((detectDuplicateActions heap addrs).1 = false <-> List.NoDup (typeInputKeys heap addrs))
  /\ forall before between after a b n m,
       addrs = (before ++ a :: between ++ b :: after)%list ->
       heap !! a = Some n -> heap !! b = Some m ->
       type n = type m ->
       Permutation (default [] (inputLabels n)) (default [] (inputLabels m)) ->
       (detectDuplicateActions heap addrs).1 = true.
Proof.
  split; [apply detectDuplicateActions_NoDup|].
  intros before between after a b n m -> Ha Hb Hty Hperm.
  apply not_false_iff_true. rewrite detectDuplicateActions_NoDup.
  unfold typeInputKeys. rewrite omap_app. cbn [omap list_omap]. rewrite Ha.
  rewrite omap_app. cbn [omap list_omap]. rewrite Hb.
  rewrite map_app. cbn [map]. rewrite map_app. cbn [map].
  assert (typeInputKey n = typeInputKey m) as ->.
  { rewrite !typeInputKey_default, Hty, (sort_order_independent _ _ Hperm). reflexivity. }
  intros Hnd. apply NoDup_remove_2 in Hnd. apply Hnd.
  apply in_or_app. right. apply in_or_app. right. left. reflexivity.
Qed.

Lemma detectDuplicateActions_decides_witness :
  (detectDuplicateActions threeNodes [0; 1; 2]).1 = true.
Proof.
  destruct (detectDuplicateActions_decides threeNodes [0; 1; 2]) as [_ H].
  apply (H [] [] [2] 0 1 (labelled "node_1" "summarizer" ["B.txt"; "A.txt"])
           (labelled "node_2" "summarizer" ["A.txt"; "B.txt"]));
    try reflexivity.
  apply perm_swap.
Defined.

(** The verdict on a workflow that has nodes.  [validateWorkflow] always
    answers, and it answers yes exactly when a file is uploaded, an Output
    Entry exists, some node has an input, no cycle of connections can be
    reached from a node, and no two nodes have the same type and input
    labels. *)
Theorem validateWorkflow_verdict (files : list string) (outputs : list OutputZone.Output)
    (wf : Workflow) (heap : list Node) (a : nat) (addrs : list nat) :
  nodes wf = Some (a :: addrs) ->
  exists valid heap',
    validateWorkflow files outputs (Some wf) heap = Some (valid, heap')
    /\ (valid = true <->
        files <> [] /\ outputs <> []
        /\ (exists b node, In b (a :: addrs) /\ heap !! b = Some node /\ hasInputs node = true)
        /\ (forall i x, i ∈ nodeIds heap (a :: addrs) -> rtc (arrow (connections wf)) i x ->
                        ~ tc (arrow (connections wf)) x x)
        /\ List.NoDup (typeInputKeys heap (a :: addrs))).
Proof.
  intros Hnodes. unfold validateWorkflow. rewrite Hnodes.
  destruct files as [|f files]; cbn [length Nat.eqb].
  { eexists _, _. split; [reflexivity|]. split; [discriminate | intros [H _]; congruence]. }
  destruct outputs as [|o outputs]; cbn [length Nat.eqb].
  { eexists _, _. split; [reflexivity|]. split; [discriminate | intros (_ & H & _); congruence]. }
  set (withInputs := List.filter _ (a :: addrs)).
  assert (Hwith : withInputs <> [] <->
                  exists b node, In b (a :: addrs) /\ heap !! b = Some node
                                 /\ hasInputs node = true).
  { split.
    - intros Hne. destruct withInputs as [|b rest] eqn:E; [congruence|].
      assert (Hb : In b withInputs) by (rewrite E; left; reflexivity).
      apply filter_In in Hb as [Hb Hhas]. destruct (heap !! b) as [node|] eqn:Hl; [|discriminate].
      exists b, node. auto.
    - intros (b & node & Hb & Hl & Hhas) E.
      assert (Hin : In b withInputs) by (apply filter_In; rewrite Hl; auto).
      rewrite E in Hin. destruct Hin. }
  destruct withInputs as [|w rest] eqn:E; cbn [length Nat.eqb].
  { eexists _, _. split; [reflexivity|]. split; [discriminate|].
    intros (_ & _ & H & _). apply Hwith in H. congruence. }
  destruct (detectWorkflowLoops_decides heap (a :: addrs) (connections wf))
    as (hasLoops & Hrun & Htrue & Hfalse).
  rewrite Hrun.
  pose proof (detectDuplicateActions_NoDup heap (a :: addrs)) as Hdup.
  destruct (detectDuplicateActions heap (a :: addrs)) as [hasDuplicates heap'].
  cbn [fst] in Hdup. eexists _, _. split; [reflexivity|].
  rewrite andb_true_iff, !negb_true_iff, Hdup. split.
  - intros [-> Hnd]. split_and!; try discriminate; [apply Hwith; discriminate | | exact Hnd].
    exact (Hfalse eq_refl).
  - intros (_ & _ & _ & Hacyclic & Hnd). split; [|exact Hnd].
    destruct hasLoops; [|reflexivity].
    destruct (Htrue eq_refl) as (i & x & Hi & Hix & Hcyc).
    exfalso. exact (Hacyclic i x Hi Hix Hcyc).
Qed.

Lemma validateWorkflow_verdict_witness :
  exists valid heap',
    validateWorkflow ["A.pdf"] [anOutput]
      (Some {| nodes := Some [0; 1; 2]; connections := triangle |}) threeNodes
    = Some (valid, heap').
Proof.
  destruct (validateWorkflow_verdict ["A.pdf"] [anOutput]
              {| nodes := Some [0; 1; 2]; connections := triangle |} threeNodes 0 [1; 2]
              eq_refl) as (valid & heap' & Hrun & _).
  exists valid, heap'. exact Hrun.
Defined.

End Verdict.

(** ** The execution order *)

Section ExecutionOrder.

Import WorkflowEngine.

Variable nodes : list Node.
Variable conns : list Connection.

Local Abbreviation size := base.size.
Local Abbreviation feeds := (WorkflowEngine.feeds conns).
Local Abbreviation sortIds := (WorkflowEngine.sortIds nodes conns).
Local Abbreviation wellSorted := (WorkflowEngine.wellSorted nodes conns).
Local Abbreviation sorts := (WorkflowEngine.sorts nodes conns).

Lemma wellSorted_rtc (st : TopoState) (x y : string) :
  wellSorted st -> x ∈ visited st -> rtc feeds x y -> y ∈ visited st.
Proof.
  intros (_ & Hclosed & _) Hx Hpath. induction Hpath as [|x y z Hxy _ IH]; [exact Hx|].
  apply IH. eapply Hclosed; [exact Hx | exact Hxy].
Qed.

Lemma marked_mono (st st' : TopoState) :
  temp st' = temp st -> visited st ⊆ visited st' -> marked st ⊆ marked st'.
Proof. unfold marked. intros -> H. set_solver. Qed.

Lemma forEachVisit_sorts f bound :
  sorts f bound ->
  forall targets st,
    (forall t, t ∈ targets -> t ∈ sortIds) ->
    size (sortIds ∖ marked st) < bound ->
    (forall t r, t ∈ targets -> r ∈ temp st -> tc feeds r t) ->
    wellSorted st ->
    exists r,
      forEachVisit f targets st = Some r
      /\ match r with
         | inl e => e = circular /\ exists t x, t ∈ targets /\ rtc feeds t x /\ tc feeds x x
         | inr st' =>
             temp st' = temp st /\ visited st ⊆ visited st'
             /\ (forall t, t ∈ targets -> t ∈ visited st')
             /\ wellSorted st'
         end.
Proof.
  intros Hf. induction targets as [|t targets IH]; intros st Hin Hsize Hstack Hws;
    cbn [forEachVisit].
  - exists (inr st). split; [reflexivity|].
    split_and!; [reflexivity | reflexivity | | exact Hws]. intros t Ht. inversion Ht.
  - destruct (Hf t st) as (r & -> & Hr);
      [apply Hin; left | exact Hsize | intros r Hr; apply Hstack; [left | exact Hr] | exact Hws |].
    destruct r as [e|st1].
    + destruct Hr as (-> & x & Hreach & Hcyc). exists (inl circular).
      split; [reflexivity|]. split; [reflexivity|]. exists t, x.
      split_and!; [left | exact Hreach | exact Hcyc].
    + destruct Hr as (Htemp1 & Hmono1 & Ht1 & Hws1).
      destruct (IH st1) as (r & -> & Hr2).
      * intros t' Ht'. apply Hin. right. exact Ht'.
      * pose proof (size_remaining_mono sortIds _ _ (marked_mono _ _ Htemp1 Hmono1)). lia.
      * intros t' r Ht' Hr. rewrite Htemp1 in Hr. apply Hstack; [right; exact Ht' | exact Hr].
      * exact Hws1.
      * exists r. split; [reflexivity|]. destruct r as [e|st2].
        -- destruct Hr2 as (-> & t' & x & Ht' & Hreach & Hcyc). split; [reflexivity|].
           exists t', x. split_and!; [right; exact Ht' | exact Hreach | exact Hcyc].
        -- destruct Hr2 as (Htemp2 & Hmono2 & Hall2 & Hws2).
           split_and!; [congruence | etrans; eassumption | | exact Hws2].
           intros t' Ht'. apply elem_of_cons in Ht' as [->|Ht']; [|apply Hall2, Ht'].
           apply Hmono2, Ht1.
Qed.

Lemma visit_sorts (fuel : nat) : sorts (visit fuel nodes conns) fuel.
Proof.
  induction fuel as [|fuel IH]; intros u st HU Hsize Hstack Hws; [lia|].
  cbn [visit].
  destruct (decide (u ∈ temp st)) as [Htmp|Htmp].
  { exists (inl circular). split; [reflexivity|]. split; [reflexivity|].
    exists u. split; [reflexivity | apply Hstack, Htmp]. }
  destruct (decide (u ∈ visited st)) as [Hvis|Hvis].
  { exists (inr st). split; [reflexivity|].
    split_and!; [reflexivity | reflexivity | exact Hvis | exact Hws]. }
  set (st1 := {| sorted := sorted st; visited := visited st; temp := {[u]} ∪ temp st |}).
  assert (Hws1 : wellSorted st1).
  { destruct Hws as (Hdisj & Hc & Ha & Hnd & Hcontent & Hord).
    split_and!; cbn [sorted visited temp st1]; try assumption. set_solver. }
  destruct (forEachVisit_sorts _ fuel IH (dependents conns u) st1) as (r & -> & Hr).
  - intros t. apply dependents_in_sortIds.
  - assert (marked st1 = {[u]} ∪ marked st) as -> by (unfold marked, st1; cbn; set_solver).
    assert (Hun : u ∉ marked st) by (unfold marked; set_solver).
    pose proof (size_remaining_decr sortIds (marked st) u HU Hun). lia.
  - intros t r Ht Hr. cbn [temp st1] in Hr. apply elem_of_union in Hr as [Hr|Hr].
    + apply elem_of_singleton in Hr as ->. apply tc_once. exact Ht.
    + eapply tc_r; [apply Hstack, Hr | exact Ht].
  - exact Hws1.
  - destruct r as [e|st2].
    + destruct Hr as (-> & t & x & Ht & Hreach & Hcyc). exists (inl circular).
      split; [reflexivity|]. split; [reflexivity|].
      exists x. split; [|exact Hcyc]. eapply rtc_l; [exact Ht | exact Hreach].
    + destruct Hr as (Htemp2 & Hmono2 & Hall2 & Hws2).
      cbn [temp visited st1] in Htemp2, Hmono2.
      pose proof Hws2 as (Hdisj2 & Hc2 & Ha2 & Hnd2 & Hcontent2 & Hord2).
      assert (Hu2 : u ∉ visited st2) by (rewrite Htemp2 in Hdisj2; set_solver).
      assert (Hsorted2 : forall n, In n (sorted st2) -> id n <> u).
      { intros n Hn <-. apply Hu2, Hcontent2, Hn. }
      eexists (inr _). split; [reflexivity|]. cbn [temp visited sorted].
      split_and!.
      * rewrite Htemp2. set_solver.
      * set_solver.
      * set_solver.
      * split_and!; cbn [temp visited sorted].
        -- rewrite Htemp2 in Hdisj2 |- *. set_solver.
        -- intros x y Hx Hxy. apply elem_of_union in Hx as [Hx|Hx].
           ++ apply elem_of_singleton in Hx as ->. apply elem_of_union. right.
              apply Hall2, Hxy.
           ++ apply elem_of_union. right. eapply Hc2; [exact Hx | exact Hxy].
        -- intros x Hx Hcyc. apply elem_of_union in Hx as [Hx|Hx]; [|exact (Ha2 x Hx Hcyc)].
           apply elem_of_singleton in Hx as ->. apply Hu2.
           assert (exists v, feeds u v /\ rtc feeds v u) as (v & Huv & Hvu).
           { clear -Hcyc. inversion Hcyc as [? ? H|? v ? H H']; subst.
             - exists u. split; [exact H | reflexivity].
             - exists v. split; [exact H | apply tc_rtc, H']. }
           eapply (wellSorted_rtc st2); [exact Hws2 | apply Hall2, Huv | exact Hvu].
        -- destruct (List.find _ nodes) as [node|] eqn:Hfind; [|exact Hnd2].
           apply find_some in Hfind as [_ Hid]. apply String.eqb_eq in Hid.
           cbn [map]. constructor; [|exact Hnd2].
           intros Hin. apply in_map_iff in Hin as (n & Hn & Hin).
           apply (Hsorted2 n Hin). congruence.
        -- intros n. destruct (List.find (fun n0 => String.eqb (id n0) u) nodes)
             as [node|] eqn:Hfind.
           ++ pose proof (find_some _ _ Hfind) as [_ Hid]. apply String.eqb_eq in Hid.
              split.
              ** intros [<-|Hn].
                 --- split; [set_solver|]. rewrite Hid. exact Hfind.
                 --- apply Hcontent2 in Hn as [Hn1 Hn2]. split; [set_solver | exact Hn2].
              ** intros [Hn1 Hn2]. apply elem_of_union in Hn1 as [Hn1|Hn1].
                 --- apply elem_of_singleton in Hn1. rewrite Hn1, Hfind in Hn2.
                     left. congruence.
                 --- right. apply Hcontent2. split; assumption.
           ++ split.
              ** intros Hn. apply Hcontent2 in Hn as [Hn1 Hn2]. split; [set_solver | exact Hn2].
              ** intros [Hn1 Hn2]. apply elem_of_union in Hn1 as [Hn1|Hn1].
                 --- apply elem_of_singleton in Hn1. rewrite Hn1, Hfind in Hn2. discriminate.
                 --- apply Hcontent2. split; assumption.
        -- destruct (List.find _ nodes) as [node|] eqn:Hfind; [|exact Hord2].
           apply find_some in Hfind as [_ Hid]. apply String.eqb_eq in Hid.
           cbn [inOrder]. split; [|exact Hord2].
           intros b Hb Hfeeds. apply Hu2. rewrite <- Hid.
           eapply Hc2; [|exact Hfeeds]. apply Hcontent2, Hb.
Qed.

Lemma forRemaining_sorts (fuel : nat) :
  forall ids st,
    (forall i, i ∈ ids -> i ∈ sortIds) ->
    size (sortIds ∖ marked st) < fuel ->
    temp st = ∅ ->
    wellSorted st ->
    exists r,
      forRemaining (visit fuel nodes conns) ids st = Some r
      /\ match r with
         | inl e => e = circular /\ exists i x, i ∈ ids /\ rtc feeds i x /\ tc feeds x x
         | inr st' =>
             temp st' = ∅ /\ visited st ⊆ visited st'
             /\ (forall i, i ∈ ids -> i ∈ visited st')
             /\ wellSorted st'
         end.
Proof.
  induction ids as [|i ids IH]; intros st Hin Hsize Hempty Hws; cbn [forRemaining].
  - exists (inr st). split; [reflexivity|].
    split_and!; [exact Hempty | reflexivity | | exact Hws]. intros i Hi. inversion Hi.
  - assert (Hin' : forall j, j ∈ ids -> j ∈ sortIds) by (intros j Hj; apply Hin; right; exact Hj).
    assert (Hnext : forall st1,
               temp st1 = ∅ -> visited st ⊆ visited st1 -> i ∈ visited st1 -> wellSorted st1 ->
               exists r,
                 forRemaining (visit fuel nodes conns) ids st1 = Some r
                 /\ match r with
                    | inl e => e = circular
                               /\ exists j x, j ∈ i :: ids /\ rtc feeds j x /\ tc feeds x x
                    | inr st' =>
                        temp st' = ∅ /\ visited st ⊆ visited st'
                        /\ (forall j, j ∈ i :: ids -> j ∈ visited st')
                        /\ wellSorted st'
                    end).
    { intros st1 Hempty1 Hmono1 Hi1 Hws1.
      destruct (IH st1) as (r & -> & Hr); [exact Hin' | | exact Hempty1 | exact Hws1 |].
      { assert (Hm : marked st ⊆ marked st1)
          by (apply marked_mono; [congruence | exact Hmono1]).
        pose proof (size_remaining_mono sortIds _ _ Hm). lia. }
      exists r. split; [reflexivity|]. destruct r as [e|st2].
      - destruct Hr as (-> & j & x & Hj & Hreach & Hcyc). split; [reflexivity|].
        exists j, x. split_and!; [right; exact Hj | exact Hreach | exact Hcyc].
      - destruct Hr as (Hempty2 & Hmono2 & Hall2 & Hws2).
        split_and!; [exact Hempty2 | etrans; eassumption | | exact Hws2].
        intros j Hj. apply elem_of_cons in Hj as [->|Hj]; [apply Hmono2, Hi1 | apply Hall2, Hj]. }
    destruct (decide (i ∈ visited st)) as [Hvis|Hvis].
    + apply Hnext; [exact Hempty | reflexivity | exact Hvis | exact Hws].
    + destruct (visit_sorts fuel i st) as (r & -> & Hr);
        [apply Hin; left | exact Hsize | | exact Hws |].
      { intros r Hr. rewrite Hempty in Hr. set_solver. }
      destruct r as [e|st1].
      * destruct Hr as (-> & x & Hreach & Hcyc). exists (inl circular).
        split; [reflexivity|]. split; [reflexivity|].
        exists i, x. split_and!; [left | exact Hreach | exact Hcyc].
      * destruct Hr as (Htemp1 & Hmono1 & Hi1 & Hws1).
        apply Hnext; [congruence | exact Hmono1 | exact Hi1 | exact Hws1].
Qed.

End ExecutionOrder.

Section ExecutionOrderCorrect.

Import WorkflowEngine.

Local Abbreviation size := base.size.

Lemma feeds_connection (conns : list Connection) (u v : string) :
  feeds conns u v <-> exists c, In c conns /\ from c = u /\ to c = v.
Proof.
  unfold feeds, dependents. rewrite list_elem_of_In, in_map_iff. split.
  - intros (c & Hto & Hc). apply filter_In in Hc as [Hc Hfrom].
    apply String.eqb_eq in Hfrom. eauto.
  - intros (c & Hc & Hfrom & Hto). exists c. split; [exact Hto|].
    apply filter_In. split; [exact Hc|]. apply String.eqb_eq, Hfrom.
Qed.

Lemma inOrder_split (conns : list Connection) (l : list Node) :
  inOrder conns l ->
  forall before a after, l = (before ++ a :: after)%list ->
  forall b, In b after -> ~ feeds conns (id b) (id a).
Proof.
  induction l as [|x l IH]; intros Hord before a after Heq.
  - destruct before; discriminate.
  - destruct Hord as [Hx Hord]. destruct before as [|y before]; cbn in Heq; injection Heq as -> ->.
    + exact Hx.
    + intros b Hb. exact (IH Hord before a after eq_refl b Hb).
Qed.

Lemma find_NoDup_id (nodes : list Node) (n : Node) :
  List.NoDup (map id nodes) -> In n nodes ->
  List.find (fun m => String.eqb (id m) (id n)) nodes = Some n.
Proof.
  induction nodes as [|x nodes IH]; intros Hnd Hn; [destruct Hn|].
  inversion Hnd as [|? ? Hx Hnd']; subst. cbn [List.find].
  destruct Hn as [->|Hn]; [rewrite String.eqb_refl; reflexivity|].
  destruct (String.eqb_spec (id x) (id n)) as [E|_]; [|apply IH; assumption].
  exfalso. apply Hx. rewrite E. apply in_map, Hn.
Qed.

(** The run of the sort: it throws the circular-dependency error on a
    cycle that a node reaches, and otherwise ends in a state that is well
    sorted and has finished every node. *)
Lemma topologicalSort_run (workflow : Workflow) :
  let ns := WorkflowEngine.nodes workflow in
  let cs := default [] (connections workflow) in
  exists r,
    topologicalSort workflow = Some r
    /\ match r with
       | inl e => e = circular
                  /\ exists i x, In i (map id ns) /\ rtc (feeds cs) i x /\ tc (feeds cs) x x
       | inr order =>
           exists st, order = sorted st /\ wellSorted ns cs st
                      /\ forall i, In i (map id ns) -> i ∈ visited st
       end.
Proof.
  intros ns cs. unfold topologicalSort. fold ns. fold cs.
  set (st0 := {| sorted := []; visited := ∅; temp := ∅ |}).
  assert (Hfuel : size (sortIds ns cs ∖ marked st0) < sortFuel ns cs).
  { unfold sortFuel, sortIds.
    pose proof (size_list_to_set_le (map id ns ++ map to cs)) as Hle.
    rewrite length_app, !length_map in Hle.
    pose proof (size_remaining_mono (list_to_set (map id ns ++ map to cs)) ∅ (marked st0))
      as Hmono.
    assert (size (list_to_set (map id ns ++ map to cs) ∖ (∅ : gset string))
            <= size (list_to_set (map id ns ++ map to cs) : gset string))
      by (apply subseteq_size; set_solver).
    assert ((∅ : gset string) ⊆ marked st0) as Hsub by set_solver.
    specialize (Hmono Hsub). lia. }
  assert (Hws0 : wellSorted ns cs st0).
  { split_and!; cbn [sorted visited temp st0 map inOrder].
    - set_solver.
    - intros x y Hx. set_solver.
    - intros x Hx. set_solver.
    - constructor.
    - intros n. split; [intros [] | intros [H _]; set_solver].
    - exact I. }
  assert (Hids : forall l, (forall n, In n l -> In n ns) ->
                           forall i, i ∈ map id l -> i ∈ sortIds ns cs).
  { intros l Hl i Hi. apply list_elem_of_In, in_map_iff in Hi as (n & <- & Hn).
    apply elem_of_list_to_set, elem_of_app. left. apply list_elem_of_In, in_map, Hl, Hn. }
  set (roots := List.filter _ ns).
  assert (Hroots : forall n, In n roots -> In n ns).
  { intros n Hn. apply filter_In in Hn. tauto. }
  destruct (forEachVisit_sorts ns cs _ _ (visit_sorts ns cs (sortFuel ns cs)) (map id roots) st0)
    as (r & -> & Hr); [apply Hids, Hroots | exact Hfuel | | exact Hws0 |].
  { intros t r _ Hr. cbn in Hr. set_solver. }
  destruct r as [e|st1].
  { destruct Hr as (-> & t & x & Ht & Hreach & Hcyc). exists (inl circular).
    split; [reflexivity|]. split; [reflexivity|]. exists t, x. split_and!; try assumption.
    apply list_elem_of_In, in_map_iff in Ht as (n & <- & Hn). apply in_map, Hroots, Hn. }
  destruct Hr as (Htemp1 & Hmono1 & _ & Hws1).
  destruct (forRemaining_sorts ns cs (sortFuel ns cs) (map id ns) st1) as (r & -> & Hr);
    [apply Hids; auto | | exact Htemp1 | exact Hws1 |].
  { pose proof (size_remaining_mono (sortIds ns cs) _ _ (marked_mono _ _ Htemp1 Hmono1)). lia. }
  destruct r as [e|st2].
  { destruct Hr as (-> & i & x & Hi & Hreach & Hcyc). exists (inl circular).
    split; [reflexivity|]. split; [reflexivity|]. exists i, x. split_and!; try assumption.
    apply list_elem_of_In, Hi. }
  destruct Hr as (_ & _ & Hall & Hws2). exists (inr (sorted st2)). split; [reflexivity|].
  exists st2. split_and!; [reflexivity | exact Hws2 |].
  intros i Hi. apply Hall, list_elem_of_In, Hi.
Qed.

(** What a well-sorted state that has finished every node says about its
    [sorted] list. *)
Lemma wellSorted_order (ns : list Node) (cs : list Connection) (st : TopoState) :
  wellSorted ns cs st ->
  (forall i, In i (map id ns) -> i ∈ visited st) ->
  (forall i x, In i (map id ns) -> rtc (feeds cs) i x -> ~ tc (feeds cs) x x)
  /\ List.NoDup (map id (sorted st))
  /\ (forall n, In n (sorted st)
                <-> List.find (fun m => String.eqb (id m) (id n)) ns = Some n)
  /\ (List.NoDup (map id ns) -> Permutation (sorted st) ns)
  /\ (forall before a after c,
        sorted st = (before ++ a :: after)%list ->
        In c cs -> to c = id a -> ~ In (from c) (map id after)).
Proof.
  intros Hws Hall.
  pose proof Hws as (_ & Hclosed & Hacyclic & Hnd & Hcontent & Hord).
  assert (Hin : forall n, In n (sorted st)
                          <-> List.find (fun m => String.eqb (id m) (id n)) ns = Some n).
  { intros n. rewrite Hcontent. split; [tauto|]. intros Hfind. split; [|exact Hfind].
    apply Hall, in_map. eapply find_some, Hfind. }
  split_and!.
  - intros i x Hi Hreach. apply Hacyclic.
    eapply wellSorted_rtc; [exact Hws | apply Hall, Hi | exact Hreach].
  - exact Hnd.
  - exact Hin.
  - intros Hns. apply Permutation.NoDup_Permutation.
    + eapply NoDup_map_inv, Hnd.
    + eapply NoDup_map_inv, Hns.
    + intros n. rewrite Hin. split.
      * intros Hfind. eapply find_some, Hfind.
      * apply find_NoDup_id, Hns.
  - intros before a after c Heq Hc Hto Hfrom.
    apply in_map_iff in Hfrom as (b & Hb & Hafter).
    apply (inOrder_split cs _ Hord before a after Heq b Hafter).
    apply feeds_connection. exists c. split_and!; [exact Hc | congruence | exact Hto].
Qed.

(** The execution order.  The sort always returns.  It throws the
    circular-dependency error only when some node reaches a cycle of
    connections; otherwise no node reaches a cycle and the order it gives
    holds, once each, the nodes that [find] gives for the ids of the
    workflow (all the nodes, when their ids are pairwise distinct), and no
    node stands before a node that feeds it. *)
Theorem topologicalSort_orders (workflow : Workflow) :
  let ns := WorkflowEngine.nodes workflow in
  let cs := default [] (connections workflow) in
  exists r,
    topologicalSort workflow = Some r
    /\ match r with
       | inl e =>
           e = circular
           /\ exists i x, In i (map id ns) /\ rtc (feeds cs) i x /\ tc (feeds cs) x x
       | inr order =>
           (forall i x, In i (map id ns) -> rtc (feeds cs) i x -> ~ tc (feeds cs) x x)
           /\ List.NoDup (map id order)
           /\ (forall n, In n order
                         <-> List.find (fun m => String.eqb (id m) (id n)) ns = Some n)
           /\ (List.NoDup (map id ns) -> Permutation order ns)
           /\ (forall before a after c,
                 order = (before ++ a :: after)%list ->
                 In c cs -> to c = id a -> ~ In (from c) (map id after))
       end.
Proof.
  intros ns cs. destruct (topologicalSort_run workflow) as (r & Hrun & Hr).
  exists r. split; [exact Hrun|]. destruct r as [e|order]; [exact Hr|].
  destruct Hr as (st & -> & Hws & Hall).
  apply wellSorted_order; assumption.
Qed.

Section Run.

Variable processFile : nat -> MockFile -> string -> option string -> JsError + ProcessResult.
Variable toISOString : nat -> string.

Local Abbreviation executeNode := (executeNode processFile toISOString).
Local Abbreviation forSorted := (forSorted processFile toISOString).
Local Abbreviation executeWorkflow := (executeWorkflow processFile toISOString).

Lemma executeNode_record node workflow self res self' :
  executeNode node workflow self = (inr res, self') ->
  exists record,
    executionResults self' = (executionResults self ++ [record])%list
    /\ nodeId record = id node /\ nodeType record = type node /\ error record = None
    /\ emitted self'
       = (emitted self ++ [StatusUpdate ("Processing " +:+ type node +:+ "...")])%list.
Proof.
  unfold WorkflowEngine.executeNode.
  destruct (processNodeData _ _ _ _) as [[e|res'] s2] eqn:Hp; [discriminate|].
  apply processNodeData_frame in Hp as (Hres & Hem & _). intros [= <- <-].
  eexists. cbn. rewrite Hres, Hem. split_and!; reflexivity.
Qed.

Lemma forSorted_records sortedNodes workflow :
  forall self u self',
    forSorted sortedNodes workflow self = (inr u, self') ->
    exists records,
      executionResults self' = (executionResults self ++ records)%list
      /\ map nodeId records = map id sortedNodes
      /\ map nodeType records = map type sortedNodes
      /\ Forall (fun record => error record = None) records
      /\ emitted self'
         = (emitted self
            ++ map (fun node => StatusUpdate ("Processing " +:+ type node +:+ "..."))
                   sortedNodes)%list.
Proof.
  induction sortedNodes as [|node rest IH]; intros self u self'; cbn [WorkflowEngine.forSorted].
  - intros H. inversion H; subst. exists []. cbn. rewrite !app_nil_r.
    split_and!; try reflexivity. constructor.
  - destruct (executeNode node workflow self) as [[e|res] s1] eqn:Hn; [discriminate|].
    intros H. apply executeNode_record in Hn as (record & Hrec & Hid & Hty & Herr & Hem).
    apply IH in H as (records & Hrecs & Hids & Htys & Herrs & Hems).
    exists (record :: records). split_and!.
    + rewrite Hrecs, Hrec, <- app_assoc. reflexivity.
    + cbn. rewrite Hid, Hids. reflexivity.
    + cbn. rewrite Hty, Htys. reflexivity.
    + constructor; assumption.
    + rewrite Hems, Hem, <- app_assoc. reflexivity.
Qed.

(** A run of an idle engine always ends.  When it ends with the result
    list, the list is the one the engine keeps, earlier results are gone,
    and it holds one record without error for each node of the sorted
    order, in that order: no node id twice, every node when the node ids
    are pairwise distinct, and no node before a node that feeds it.  The
    events of the run are the start notice, one processing notice per node
    and the final workflow-executed event carrying the results. *)
Theorem executeWorkflow_runs_in_order (w : Workflow) (self : t) :
  isExecuting self = false ->
  exists outcome self',
    executeWorkflow (Some w) self = Some (outcome, self')
    /\ forall results, outcome = inr results ->
       executionResults self' = results
       /\ isExecuting self' = false
       /\ (exists order,
             topologicalSort w = Some (inr order)
             /\ map nodeId results = map id order
             /\ map nodeType results = map type order
             /\ emitted self'
                = (emitted self ++ [StatusUpdate "Executing workflow..."]
                   ++ map (fun node => StatusUpdate ("Processing " +:+ type node +:+ "..."))
                          order
                   ++ [WorkflowExecuted results])%list)
       /\ Forall (fun record => error record = None) results
       /\ List.NoDup (map nodeId results)
       /\ (List.NoDup (map id (nodes w)) ->
           Permutation (map nodeId results) (map id (nodes w)))
       /\ (forall before record after c,
             results = (before ++ record :: after)%list ->
             In c (default [] (connections w)) -> to c = nodeId record ->
             ~ In (from c) (map nodeId after)).
Proof.
  intros Hidle. unfold WorkflowEngine.executeWorkflow. rewrite Hidle.
  destruct (topologicalSort_run w) as (r & Hrun & Hr). rewrite Hrun.
  destruct r as [e|order]; [eexists _, _; split; [reflexivity | discriminate]|].
  destruct Hr as (st & -> & Hws & Hall).
  destruct (wellSorted_order _ _ st Hws Hall) as (_ & Hnd & _ & Hperm & Hord).
  destruct (forSorted (sorted st) w (started self)) as [[e|u] s2] eqn:Hfor;
    [eexists _, _; split; [reflexivity | discriminate]|].
  apply forSorted_records in Hfor as (records & Hrecs & Hids & Htys & Herrs & Hems).
  cbn in Hrecs. eexists _, _. split; [reflexivity|].
  intros results [= <-]. cbn [executionResults emit setExecuting isExecuting emitted].
  rewrite Hrecs. split_and!.
  - reflexivity.
  - reflexivity.
  - exists (sorted st). split_and!; try reflexivity; try assumption.
    rewrite Hems. cbn. rewrite <- !app_assoc. reflexivity.
  - exact Herrs.
  - rewrite Hids. exact Hnd.
  - intros Hns. rewrite Hids. apply Permutation_map, Hperm, Hns.
  - intros before record after c Heq Hc Hto.
    assert (Hsplit : exists before' a after',
               sorted st = (before' ++ a :: after')%list
               /\ id a = nodeId record /\ map id after' = map nodeId after).
    { clear -Hids Heq. subst records. revert Hids. generalize (sorted st) as l.
      induction before as [|x before IH]; intros l Hl; cbn in Hl.
      - destruct l as [|a l]; [discriminate|]. cbn in Hl. injection Hl as Ha Hl.
        exists [], a, l. split_and!; [reflexivity | congruence | congruence].
      - destruct l as [|y l]; [discriminate|]. cbn in Hl. injection Hl as Hy Hl.
        destruct (IH l Hl) as (before' & a & after' & -> & Ha & Hafter).
        exists (y :: before'), a, after'. split_and!; [reflexivity | exact Ha | exact Hafter]. }
    destruct Hsplit as (before' & a & after' & Heq' & Ha & Hafter).
    rewrite <- Hafter. eapply Hord; [exact Heq' | exact Hc | congruence].
Qed.

End Run.

Lemma executeWorkflow_runs_in_order_witness :
  exists results self',
    WorkflowEngine.executeWorkflow answers pretty (Some chain) WorkflowEngine.new
    = Some (inr results, self')
    /\ WorkflowEngine.executionResults self' = results
    /\ WorkflowEngine.isExecuting self' = false.
Proof.
  destruct (executeWorkflow_runs_in_order answers pretty chain WorkflowEngine.new eq_refl)
    as (outcome & self' & Hrun & Hresults).
  assert (Hok : exists results, outcome = inr results).
  { vm_compute in Hrun. injection Hrun as <- _. eexists. reflexivity. }
  destruct Hok as (results & ->).
  destruct (Hresults results eq_refl) as (Hkept & Hidle & _).
  exists results, self'. split_and!; assumption.
Defined.

End ExecutionOrderCorrect.

(** ** Cascading delete: the totals of an impact *)

Section ImpactTotals.

Import CascadingDeleteManager.

(** The connections that touch a node. *)
Local Abbreviation touching self i :=
  (List.filter (fun conn => String.eqb (from conn) i || String.eqb (to conn) i)
               (allConnections self)).

Lemma scanNodes_totals (self : t) (base : string) (nodes : list NodeDataManager.NodeData) :
  forall acc,
    let found := map (fun n => analyzeNodeDeletion n base)
                     (List.filter (fun n => nodeUsesLabel n base) nodes) in
    scanNodes self base nodes acc
    = ((acc.1.1 ++ found)%list,
       (acc.1.2 ++ flat_map (fun ni => touching self (nodeId ni))
                            (List.filter willBeDeleted found))%list,
       acc.2 + length (List.filter willBeDeleted found)).
Proof.
  induction nodes as [|node nodes IH]; intros [[affected deleted] total].
  - cbn. rewrite !app_nil_r, Nat.add_0_r. reflexivity.
  - cbn [scanNodes List.filter]. destruct (nodeUsesLabel node base); [|apply IH].
    cbn [map List.filter].
    destruct (willBeDeleted (analyzeNodeDeletion node base)) eqn:Hdel; rewrite IH;
      cbn [fst snd flat_map length]; rewrite <- ?app_assoc; cbn [app].
    + f_equal. lia.
    + reflexivity.
Qed.

(** The totals of an impact fit its lists.  [totalNodesDeleted] counts the
    affected nodes marked as deleted entirely; [deletedConnections] lists,
    for each such node in order, the connections of the store that touch
    it (so a connection between two deleted nodes is listed, and counted,
    twice), and [totalConnectionsDeleted] is the length of that list. *)
Theorem analyzeDeletionImpact_totals (L : string) (self : t) :
  let impact := analyzeDeletionImpact L self in
  label impact = L
  /\ totalNodesDeleted impact = length (List.filter willBeDeleted (affectedNodes impact))
  /\ totalNodesDeleted impact <= length (affectedNodes impact)
  /\ deletedConnections impact
     = flat_map (fun ni => touching self (nodeId ni))
                (List.filter willBeDeleted (affectedNodes impact))
  /\ totalConnectionsDeleted impact = length (deletedConnections impact)
  /\ (forall c, In c (deletedConnections impact) <->
                In c (allConnections self)
                /\ exists ni, In ni (affectedNodes impact) /\ willBeDeleted ni = true
                              /\ (from c = nodeId ni \/ to c = nodeId ni)).
Proof.
  intros impact. subst impact. unfold analyzeDeletionImpact.
  rewrite scanNodes_totals. cbn [fst snd app Nat.add label affectedNodes deletedConnections
                                 totalNodesDeleted totalConnectionsDeleted].
  set (found := map _ (List.filter _ (allNodes self))).
  split_and!; try reflexivity.
  - apply List.filter_length_le.
  - intros c. rewrite in_flat_map. split.
    + intros (ni & Hni & Hc). apply filter_In in Hni as [Hni Hdel].
      apply filter_In in Hc as [Hc Htouch]. split; [exact Hc|].
      exists ni. split_and!; [exact Hni | exact Hdel |].
      apply orb_true_iff in Htouch as [H|H]; apply String.eqb_eq in H; auto.
    + intros (Hc & ni & Hni & Hdel & Htouch). exists ni. split.
      * apply filter_In. split; assumption.
      * apply filter_In. split; [exact Hc|]. apply orb_true_iff.
        destruct Htouch as [H|H]; [left | right]; apply String.eqb_eq, H.
Qed.

End ImpactTotals.

(** ** Upload: input labels and text labels *)

Section Upload.

Lemma labelSequence_length : length InputFilesManager.labelSequence = 18278.
Proof. vm_compute. reflexivity. Qed.

Lemma labelSequence_increasing :
  InputFilesManager.increasing
    (map (InputFilesManager.labelNumber 0) InputFilesManager.labelSequence) = true.
Proof. vm_compute. reflexivity. Qed.

Lemma increasing_above (a : N) (l : list N) :
  InputFilesManager.increasing (a :: l) = true -> Forall (fun b => (a < b)%N) l.
Proof.
  revert a. induction l as [|b l IH]; intros a H; [constructor|].
  cbn [InputFilesManager.increasing] in H. apply andb_true_iff in H as [Hab Hl].
  apply N.ltb_lt in Hab. constructor; [exact Hab|].
  specialize (IH b Hl). rewrite List.Forall_forall in IH. apply List.Forall_forall.
  intros c Hc. specialize (IH c Hc). lia.
Qed.

Lemma increasing_NoDup (l : list N) :
  InputFilesManager.increasing l = true -> List.NoDup l.
Proof.
  induction l as [|a l IH]; intros H; [constructor|].
  pose proof (increasing_above a l H) as Habove. constructor.
  - intros Hin. rewrite List.Forall_forall in Habove. specialize (Habove a Hin). lia.
  - apply IH. destruct l as [|b l]; [reflexivity|].
    cbn [InputFilesManager.increasing] in H. apply andb_true_iff in H. tauto.
Qed.

Lemma labelSequence_NoDup : List.NoDup InputFilesManager.labelSequence.
Proof.
  eapply NoDup_map_inv. apply increasing_NoDup, labelSequence_increasing.
Qed.

Lemma lookups_take {A} (l : list A) (n : nat) :
  n <= length l -> map (fun i => l !! i) (seq 0 n) = map Some (take n l).
Proof.
  revert n. induction l as [|x l IH]; intros n Hn.
  - cbn in Hn. assert (n = 0) as -> by lia. reflexivity.
  - destruct n as [|n]; [reflexivity|]. cbn [seq map take]. f_equal.
    rewrite <- (seq_shift n 0), map_map. cbn in Hn. rewrite <- IH by lia. reflexivity.
Qed.

Lemma forFiles_run (files : list InputFilesManager.File) :
  forall self,
    InputFilesManager.nextLabelIndex (InputFilesManager.forFiles files self)
    = InputFilesManager.nextLabelIndex self + length files
    /\ exists items,
         InputFilesManager.inputFileLabels (InputFilesManager.forFiles files self)
         = (InputFilesManager.inputFileLabels self ++ items)%list
         /\ map InputFilesManager.originalName items = map InputFilesManager.name files
         /\ map InputFilesManager.fileType items = map InputFilesManager.type files
         /\ map InputFilesManager.label items
            = map (fun i => InputFilesManager.labelSequence !! i)
                  (seq (InputFilesManager.nextLabelIndex self) (length files)).
Proof.
  induction files as [|file files IH]; intros self; cbn [InputFilesManager.forFiles].
  - split; [cbn [length]; lia|]. exists []. rewrite app_nil_r. split_and!; reflexivity.
  - destruct (IH {| InputFilesManager.inputFileLabels :=
                      (InputFilesManager.inputFileLabels self
                       ++ [{| InputFilesManager.label :=
                                InputFilesManager.labelSequence
                                  !! InputFilesManager.nextLabelIndex self;
                              InputFilesManager.originalName := InputFilesManager.name file;
                              InputFilesManager.fileType := InputFilesManager.type file;
                              InputFilesManager.fileSize := InputFilesManager.size file |}])%list;
                    InputFilesManager.nextLabelIndex := S (InputFilesManager.nextLabelIndex self);
                    InputFilesManager.currentlySelectedLabel :=
                      InputFilesManager.currentlySelectedLabel self |})
      as (Hnext & items & Hitems & Hnames & Htypes & Hlabels).
    cbn [InputFilesManager.nextLabelIndex InputFilesManager.inputFileLabels] in *.
    split; [cbn [length]; lia|]. eexists (_ :: items). split_and!.
    + rewrite Hitems, <- app_assoc. reflexivity.
    + cbn [map InputFilesManager.originalName]. rewrite Hnames. reflexivity.
    + cbn [map InputFilesManager.fileType]. rewrite Htypes. reflexivity.
    + cbn [map InputFilesManager.label length seq]. rewrite Hlabels. reflexivity.
Qed.

Lemma handleFilesUploaded_run (files : list InputFilesManager.File) (self : InputFilesManager.t) :
  let result := InputFilesManager.handleFilesUploaded files self in
  result.2 = InputFilesManager.inputFileLabels result.1
  /\ map InputFilesManager.originalName result.2 = map InputFilesManager.name files
  /\ map InputFilesManager.fileType result.2 = map InputFilesManager.type files
  /\ map InputFilesManager.label result.2
     = map (fun i => InputFilesManager.labelSequence !! i) (seq 0 (length files))
  /\ InputFilesManager.nextLabelIndex result.1 = length files.
Proof.
  unfold InputFilesManager.handleFilesUploaded. cbn [fst snd].
  destruct (forFiles_run files
              {| InputFilesManager.inputFileLabels :=
                   InputFilesManager.inputFileLabels (InputFilesManager.clearInputFileLabels self);
                 InputFilesManager.nextLabelIndex := 0;
                 InputFilesManager.currentlySelectedLabel :=
                   InputFilesManager.currentlySelectedLabel
                     (InputFilesManager.clearInputFileLabels self) |})
    as (Hnext & items & Hitems & Hnames & Htypes & Hlabels).
  cbn [InputFilesManager.inputFileLabels InputFilesManager.nextLabelIndex
       InputFilesManager.clearInputFileLabels InputFilesManager.currentlySelectedLabel
       app Nat.add] in *.
  rewrite Hitems.
  split_and!; [reflexivity | exact Hnames | exact Htypes | exact Hlabels | exact Hnext].
Qed.

(** An upload replaces the input labels by one label per file, in the
    order of the files: the i-th file gets the i-th label of A ... ZZZ.  Up
    to 18278 files the labels are all defined and pairwise distinct; with
    more files, the files past the end of the sequence get no label. *)
Theorem handleFilesUploaded_labels (files : list InputFilesManager.File)
    (self : InputFilesManager.t) :
  let result := InputFilesManager.handleFilesUploaded files self in
  result.2 = InputFilesManager.inputFileLabels result.1
  /\ map InputFilesManager.originalName result.2 = map InputFilesManager.name files
  /\ map InputFilesManager.label result.2
     = map (fun i => InputFilesManager.labelSequence !! i) (seq 0 (length files))
  /\ (length files <= 18278 ->
      map InputFilesManager.label result.2
      = map Some (take (length files) InputFilesManager.labelSequence)
      /\ List.NoDup (map InputFilesManager.label result.2))
  /\ (18278 < length files ->
      exists item, In item result.2 /\ InputFilesManager.label item = None).
Proof.
  intros result. subst result.
  destruct (handleFilesUploaded_run files self) as (Hpayload & Hnames & _ & Hlabels & _).
  split_and!; try assumption.
  - intros Hle. rewrite Hlabels, lookups_take by (rewrite labelSequence_length; exact Hle).
    split; [reflexivity|]. apply NoDup_ListNoDup, NoDup_fmap_2; [intros x y [= H]; exact H|].
    eapply sublist_NoDup; [apply NoDup_ListNoDup, labelSequence_NoDup | apply sublist_take].
  - intros Hgt.
    assert (Hin : In (InputFilesManager.labelSequence !! 18278)
                     (map InputFilesManager.label (InputFilesManager.handleFilesUploaded files self).2)).
    { rewrite Hlabels. apply in_map_iff. exists 18278. split; [reflexivity|].
      apply in_seq. lia. }
    apply in_map_iff in Hin as (item & Hitem & Hin). exists item. split; [exact Hin|].
    rewrite Hitem. apply lookup_ge_None. rewrite labelSequence_length. lia.
Qed.

Lemma text_tools_accept_labels :
  forallb (fun L =>
             forallb (fun ty => match NodeDataManager.isInputTypeValid ty (L +:+ ".txt") with
                                | inr valid => valid
                                | inl _ => false
                                end)
                     ["summarizer"; "translator"; "analyzer"; "join"; "text2pdf"; "text2docx";
                      "text2template"])
          InputFilesManager.labelSequence = true.
Proof. vm_compute. reflexivity. Qed.

(** From an upload to the text panel.  When up to 18278 files are
    uploaded and the labels made for them are handed to the text panel, the
    panel holds exactly the labels A.txt, B.txt, ... of the files, in
    order and pairwise distinct, all visible and marked as coming from the
    upload, and every text tool accepts each of them as an input. *)
Theorem upload_gives_text_labels (files : list InputFilesManager.File)
    (inputs : InputFilesManager.t) (panel : TextFilesManager.t) :
  length files <= 18278 ->
  let payload := (InputFilesManager.handleFilesUploaded files inputs).2 in
  let panel' := TextFilesManager.handleInputFileLabelsCreated payload panel in
  map TextFilesManager.label (TextFilesManager.textFileLabels panel')
  = map (fun L => L +:+ ".txt") (take (length files) InputFilesManager.labelSequence)
  /\ map TextFilesManager.id (TextFilesManager.textFileLabels panel')
     = map TextFilesManager.label (TextFilesManager.textFileLabels panel')
  /\ TextFilesManager.distinctIds panel'
  /\ forall item, In item (TextFilesManager.textFileLabels panel') ->
       TextFilesManager.isVisible item = true
       /\ TextFilesManager.sourceNodeId item = "upload"
       /\ forall ty, In ty ["summarizer"; "translator"; "analyzer"; "join"; "text2pdf";
                            "text2docx"; "text2template"] ->
                     NodeDataManager.isInputTypeValid ty (TextFilesManager.label item)
                     = inr true.
Proof.
  intros Hle payload panel'. subst payload panel'.
  destruct (handleFilesUploaded_run files inputs) as (_ & _ & _ & Hlabels & _).
  rewrite lookups_take in Hlabels by (rewrite labelSequence_length; exact Hle).
  unfold TextFilesManager.handleInputFileLabelsCreated, TextFilesManager.distinctIds.
  cbn [TextFilesManager.textFileLabels TextFilesManager.clearTextFileLabels app].
  set (payload := (InputFilesManager.handleFilesUploaded files inputs).2) in *.
  assert (Hnames : map (fun i => TextFilesManager.inTemplate (InputFilesManager.label i) +:+ ".txt")
                       payload
                   = map (fun L => L +:+ ".txt")
                         (take (length files) InputFilesManager.labelSequence)).
  { rewrite <- (map_map InputFilesManager.label
                  (fun l => TextFilesManager.inTemplate l +:+ ".txt")), Hlabels, map_map.
    reflexivity. }
  rewrite !map_map. cbn [TextFilesManager.label TextFilesManager.id]. split_and!.
  - exact Hnames.
  - reflexivity.
  - rewrite Hnames. apply NoDup_ListNoDup, NoDup_fmap_2.
    + intros x y H. eapply append_inj_r, H.
    + eapply sublist_NoDup; [apply NoDup_ListNoDup, labelSequence_NoDup | apply sublist_take].
  - intros item Hitem. apply in_map_iff in Hitem as (i & <- & Hi).
    cbn [TextFilesManager.isVisible TextFilesManager.sourceNodeId TextFilesManager.label].
    split_and!; try reflexivity. intros ty Hty.
    assert (Hin : In (TextFilesManager.inTemplate (InputFilesManager.label i) +:+ ".txt")
                     (map (fun L => L +:+ ".txt")
                          (take (length files) InputFilesManager.labelSequence))).
    { rewrite <- Hnames. apply in_map_iff. exists i. split; [reflexivity | exact Hi]. }
    apply in_map_iff in Hin as (L & <- & HL).
    assert (HL' : In L InputFilesManager.labelSequence).
    { apply list_elem_of_In. eapply elem_of_sublist; [apply list_elem_of_In, HL|].
      apply sublist_take. }
    pose proof text_tools_accept_labels as Hall.
    rewrite forallb_forall in Hall. specialize (Hall L HL').
    rewrite forallb_forall in Hall. specialize (Hall ty Hty).
    destruct (NodeDataManager.isInputTypeValid ty (L +:+ ".txt")) as [e|[|]];
      [discriminate | reflexivity | discriminate].
Qed.

Lemma upload_gives_text_labels_witness :
  map TextFilesManager.label
      (TextFilesManager.textFileLabels
         (TextFilesManager.handleInputFileLabelsCreated
            (InputFilesManager.handleFilesUploaded [aFile "report.pdf"; aFile "notes.pdf"]
               InputFilesManager.new).2
            TextFilesManager.new))
  = ["A.txt"; "B.txt"].
Proof.
  assert (Hle : length [aFile "report.pdf"; aFile "notes.pdf"] <= 18278) by (cbn; lia).
  destruct (upload_gives_text_labels [aFile "report.pdf"; aFile "notes.pdf"]
              InputFilesManager.new TextFilesManager.new Hle) as (Hlabels & _).
  rewrite Hlabels. reflexivity.
Defined.

End Upload.

(** ** The text panel *)

Section TextPanel.

Import TextFilesManager.

Lemma hasId_In (i : string) (self : t) :
  hasId i self = true <-> In i (map id (textFileLabels self)).
Proof.
  unfold hasId. rewrite existsb_exists, in_map_iff. split.
  - intros (item & Hitem & Heq). apply String.eqb_eq in Heq. eauto.
  - intros (item & Heq & Hitem). exists item. split; [exact Hitem | apply String.eqb_eq, Heq].
Qed.

Lemma distinct_filter (f : TextFileLabel -> bool) (l : list TextFileLabel) :
  List.NoDup (map id l) -> List.NoDup (map id (List.filter f l)).
Proof.
  induction l as [|x l IH]; intros Hnd; [constructor|].
  inversion Hnd as [|? ? Hx Hl]; subst. cbn [List.filter].
  destruct (f x); [|apply IH, Hl]. cbn [map]. constructor; [|apply IH, Hl].
  intros Hin. apply Hx. apply in_map_iff in Hin as (y & Hy & Hin).
  apply filter_In in Hin as [Hin _]. rewrite <- Hy. apply in_map, Hin.
Qed.

Lemma ids_setVisible (f : TextFileLabel -> bool) (l : list TextFileLabel) :
  map id (map (fun item => setVisible (f item) item) l) = map id l.
Proof. rewrite map_map. reflexivity. Qed.

Lemma distinct_push (item : TextFileLabel) (self : t) :
  distinctIds self -> hasId (id item) self = false ->
  List.NoDup (map id (textFileLabels self ++ [item])).
Proof.
  intros Hnd Hnew. rewrite map_app. cbn [map].
  apply NoDup_ListNoDup, NoDup_app. split_and!.
  - apply NoDup_ListNoDup, Hnd.
  - intros x Hx Hx'. apply list_elem_of_singleton in Hx'. subst x.
    apply list_elem_of_In, hasId_In in Hx. congruence.
  - apply NoDup_singleton.
Qed.

Lemma handleNodeOutputCreated_distinct fileName nodeId nodeType sourceLabels (self : t) :
  distinctIds self ->
  distinctIds (handleNodeOutputCreated fileName nodeId nodeType sourceLabels self).1.
Proof.
  intros Hnd. unfold handleNodeOutputCreated.
  destruct (JS.endsWith ".txt" fileName); cbn [negb fst]; [|exact Hnd].
  cbn [id]. destruct (hasId fileName self) eqn:Hhas; cbn [negb fst]; [exact Hnd|].
  apply distinct_push; [exact Hnd | exact Hhas].
Qed.

Lemma deliver_distinct (e : NodeDataManager.Event) (self : t) :
  distinctIds self -> distinctIds (deliver e self).1.
Proof.
  intros Hnd. destruct e; cbn [deliver fst]; try exact Hnd.
  - apply distinct_filter, Hnd.
  - apply handleNodeOutputCreated_distinct, Hnd.
Qed.

Lemma deliverAll_distinct (es : list NodeDataManager.Event) :
  forall self, distinctIds self -> distinctIds (deliverAll es self).1.
Proof.
  induction es as [|e es IH]; intros self Hnd; cbn [deliverAll]; [exact Hnd|].
  pose proof (deliver_distinct e self Hnd) as H1.
  destruct (deliver e self) as [self1 signals1]. cbn [fst] in H1.
  specialize (IH self1 H1). destruct (deliverAll es self1) as [self2 signals2]. exact IH.
Qed.

(** The panel never holds two labels with the same id: a new panel has
    none, and the handlers of node outputs, the additions, the removals and
    the filters keep it so.  A .txt output is filed once: when a label with
    its name is there already, whichever node made it, the panel is left
    as it is. *)
Theorem textFileLabels_stay_distinct :
  distinctIds new
  /\ forall self, distinctIds self ->
     (forall fileName nodeId nodeType sourceLabels,
        let result := handleNodeOutputCreated fileName nodeId nodeType sourceLabels self in
        distinctIds result.1
        /\ (hasId fileName self = true -> result.1 = self)
        /\ (JS.endsWith ".txt" fileName = true ->
            hasId fileName result.1 = true
            /\ forall nodeId' nodeType' sourceLabels',
                 handleNodeOutputCreated fileName nodeId' nodeType' sourceLabels' result.1
                 = (result.1, [])))
     /\ (forall labelData, distinctIds (addTextFileLabel labelData self))
     /\ (forall fileName nodeId, distinctIds (handleRemoveTextFileLabel fileName nodeId self))
     /\ (forall l, distinctIds (removeLabel l self))
     /\ distinctIds (clearNodeOutputLabels self)
     /\ (forall l, distinctIds (handleFilterByInputFile l self))
     /\ distinctIds (clearFilter self)
     /\ (forall events, distinctIds (deliverAll events self).1).
Proof.
  split; [constructor|]. intros self Hnd. split_and!.
  - intros fileName nodeId nodeType sourceLabels result. subst result.
    split_and!; [apply handleNodeOutputCreated_distinct, Hnd | |].
    + intros Hhas. unfold handleNodeOutputCreated.
      destruct (JS.endsWith ".txt" fileName); cbn [negb fst]; [|reflexivity].
      cbn [id]. rewrite Hhas. reflexivity.
    + intros Htxt.
      assert (Hhas : hasId fileName
                       (handleNodeOutputCreated fileName nodeId nodeType sourceLabels self).1
                     = true).
      { unfold handleNodeOutputCreated. rewrite Htxt. cbn [negb id].
        destruct (hasId fileName self) eqn:Hhas; cbn [negb fst]; [exact Hhas|].
        apply hasId_In. cbn [textFileLabels]. rewrite map_app. apply in_or_app.
        right. left. reflexivity. }
      split; [exact Hhas|]. intros nodeId' nodeType' sourceLabels'.
      unfold handleNodeOutputCreated at 1. rewrite Htxt. cbn [negb id]. rewrite Hhas.
      reflexivity.
  - intros labelData. unfold addTextFileLabel.
    destruct (hasId (id labelData) self) eqn:Hhas; cbn [negb]; [exact Hnd|].
    apply (distinct_push (setVisible true labelData)); assumption.
  - intros fileName nodeId. apply distinct_filter, Hnd.
  - intros l. apply distinct_filter, Hnd.
  - apply distinct_filter, Hnd.
  - intros l. unfold distinctIds, handleFilterByInputFile. cbn [textFileLabels].
    rewrite ids_setVisible. exact Hnd.
  - unfold distinctIds, clearFilter. cbn [textFileLabels].
    rewrite (ids_setVisible (fun _ => true)). exact Hnd.
  - intros events. apply deliverAll_distinct, Hnd.
Qed.

End TextPanel.

Section OutputsToPanel.

Lemma updateNodeOutputs_events (now : nat) (node : NodeDataManager.NodeData) :
  exists retracted,
    (NodeDataManager.updateNodeOutputs now node).2
    = (map (fun oldOutput => NodeDataManager.RemoveTextFileLabel oldOutput
                               (NodeDataManager.id node)) retracted
       ++ map (fun outputLabel =>
                 NodeDataManager.NodeOutputCreated outputLabel (NodeDataManager.id node)
                   (NodeDataManager.type node)
                   (default [] (NodeDataManager.inputLabels node)))
              (default [] (NodeDataManager.outputLabels
                             (NodeDataManager.updateNodeOutputs now node).1)))%list.
Proof.
  unfold NodeDataManager.updateNodeOutputs.
  destruct (NodeDataManager.inputLabels node) as [[|x ins]|] eqn:Hin;
    try (exists []; reflexivity).
  cbv zeta. destruct (JS.geq _ _); [|exists []; reflexivity].
  cbn [fst snd NodeDataManager.outputLabels default].
  destruct (JS.arrIncludes (NodeDataManager.type node) ["join"; "analyzer"]).
  - exists (default [] (NodeDataManager.outputLabels node)). reflexivity.
  - exists []. reflexivity.
Qed.

Lemma deliverAll_app (es1 es2 : list NodeDataManager.Event) (panel : TextFilesManager.t) :
  TextFilesManager.deliverAll (es1 ++ es2) panel
  = let '(panel1, signals1) := TextFilesManager.deliverAll es1 panel in
    let '(panel2, signals2) := TextFilesManager.deliverAll es2 panel1 in
    (panel2, (signals1 ++ signals2)%list).
Proof.
  revert panel. induction es1 as [|e es1 IH]; intros panel; cbn [app TextFilesManager.deliverAll].
  - destruct (TextFilesManager.deliverAll es2 panel). reflexivity.
  - destruct (TextFilesManager.deliver e panel) as [p1 s1]. rewrite IH.
    destruct (TextFilesManager.deliverAll es1 p1) as [p2 s2].
    destruct (TextFilesManager.deliverAll es2 p2) as [p3 s3]. rewrite app_assoc. reflexivity.
Qed.

Lemma handleNodeOutputCreated_keeps fileName nodeId nodeType sourceLabels panel (i : string) :
  TextFilesManager.hasId i panel = true ->
  TextFilesManager.hasId i
    (TextFilesManager.handleNodeOutputCreated fileName nodeId nodeType sourceLabels panel).1
  = true.
Proof.
  intros Hhas. unfold TextFilesManager.handleNodeOutputCreated.
  destruct (JS.endsWith ".txt" fileName); cbn [negb fst]; [|exact Hhas].
  cbn [TextFilesManager.id].
  destruct (TextFilesManager.hasId fileName panel); cbn [negb fst]; [exact Hhas|].
  apply hasId_In. cbn [TextFilesManager.textFileLabels]. rewrite map_app. apply in_or_app.
  left. apply hasId_In, Hhas.
Qed.

Lemma deliverAll_created (nodeId nodeType : string) (sourceLabels outs : list string) :
  forall panel,
    let result :=
      TextFilesManager.deliverAll
        (map (fun o => NodeDataManager.NodeOutputCreated o nodeId nodeType sourceLabels) outs)
        panel in
    (forall i, TextFilesManager.hasId i panel = true -> TextFilesManager.hasId i result.1 = true)
    /\ forall o, In o outs ->
         if JS.endsWith ".txt" o then TextFilesManager.hasId o result.1 = true
         else In (TextFilesManager.OutputAdded nodeId nodeType o
                    (TextFilesManager.getFileTypeFromExtension o)) result.2.
Proof.
  induction outs as [|o outs IH]; intros panel; cbn [map TextFilesManager.deliverAll].
  - split; [auto | intros o []].
  - cbn [TextFilesManager.deliver].
    pose proof (handleNodeOutputCreated_keeps o nodeId nodeType (Some sourceLabels) panel)
      as Hkeep.
    assert (Hfirst :
              if JS.endsWith ".txt" o
              then TextFilesManager.hasId o
                     (TextFilesManager.handleNodeOutputCreated o nodeId nodeType
                        (Some sourceLabels) panel).1 = true
              else In (TextFilesManager.OutputAdded nodeId nodeType o
                         (TextFilesManager.getFileTypeFromExtension o))
                      (TextFilesManager.handleNodeOutputCreated o nodeId nodeType
                         (Some sourceLabels) panel).2).
    { unfold TextFilesManager.handleNodeOutputCreated.
      destruct (JS.endsWith ".txt" o); cbn [negb fst snd]; [|left; reflexivity].
      cbn [TextFilesManager.id].
      destruct (TextFilesManager.hasId o panel) eqn:Hhas; cbn [negb fst]; [exact Hhas|].
      apply hasId_In. cbn [TextFilesManager.textFileLabels]. rewrite map_app. apply in_or_app.
      right. left. reflexivity. }
    destruct (TextFilesManager.handleNodeOutputCreated o nodeId nodeType (Some sourceLabels) panel)
      as [panel1 signals1]. cbn [fst snd] in Hkeep, Hfirst.
    specialize (IH panel1). cbv zeta in IH.
    destruct (TextFilesManager.deliverAll _ panel1) as [panel2 signals2].
    cbn [fst snd] in IH |- *. destruct IH as [Hmono Hall]. split.
    + intros i Hi. apply Hmono, Hkeep, Hi.
    + intros o' [<-|Ho'].
      * destruct (JS.endsWith ".txt" o); [apply Hmono, Hfirst | apply in_or_app; left; exact Hfirst].
      * specialize (Hall o' Ho'). destruct (JS.endsWith ".txt" o'); [exact Hall|].
        apply in_or_app. right. exact Hall.
Qed.

Lemma addLabelToNode_emits (now : nat) (self : NodeDataManager.t) (nodeId L : string) :
  (NodeDataManager.addLabelToNode now nodeId L self).1 = inr true ->
  exists i node node2,
    NodeDataManager.findIndex nodeId (NodeDataManager.nodes self) = Some i
    /\ NodeDataManager.nodes self !! i = Some node
    /\ NodeDataManager.id node2 = NodeDataManager.id node
    /\ NodeDataManager.type node2 = NodeDataManager.type node
    /\ NodeDataManager.nodes (NodeDataManager.addLabelToNode now nodeId L self).2
       = <[i := (NodeDataManager.updateNodeOutputs now node2).1]> (NodeDataManager.nodes self)
    /\ NodeDataManager.emitted (NodeDataManager.addLabelToNode now nodeId L self).2
       = (NodeDataManager.emitted self
          ++ (NodeDataManager.updateNodeOutputs now node2).2
          ++ [NodeDataManager.NodeStateEvaluate nodeId;
              NodeDataManager.NodeInputsChanged nodeId L "added"])%list.
Proof.
  unfold NodeDataManager.addLabelToNode.
  destruct (NodeDataManager.findIndex nodeId (NodeDataManager.nodes self)) as [i|] eqn:Hidx;
    [|discriminate].
  destruct (NodeDataManager.nodes self !! i) as [node|] eqn:Hnode; [|discriminate].
  destruct (NodeDataManager.validateNodeInput node L) as [e|validation] eqn:Hval;
    [discriminate|].
  destruct (NodeDataManager.canAccept validation) eqn:Hacc; cbn [negb]; [|discriminate].
  destruct (validateNodeInput_accepts node L validation Hval Hacc) as [Hdup _].
  rewrite Hdup. cbn [negb].
  intros _.
  set (node2 := {| NodeDataManager.id := NodeDataManager.id node;
                   NodeDataManager.type := NodeDataManager.type node;
                   NodeDataManager.inputLabels :=
                     Some (default [] (NodeDataManager.inputLabels node) ++ [L])%list;
                   NodeDataManager.outputLabels := NodeDataManager.outputLabels node;
                   NodeDataManager.userPrompt := NodeDataManager.userPrompt node;
                   NodeDataManager.isManuallyCreated := NodeDataManager.isManuallyCreated node;
                   NodeDataManager.updatedAt := now |}).
  exists i, node, node2.
  destruct (NodeDataManager.updateNodeOutputs now node2) as [node3 evs].
  split_and!; try reflexivity. exact Hnode.
Qed.

(** The outputs of a node reach the panels.  When the events that a
    successful [addLabelToNode] emits are delivered to the text panel, every
    output of the node whose name ends in .txt is a label of the panel
    afterwards, and every other output has been announced to the output
    zone. *)
Theorem outputs_reach_the_panel (now : nat) (self : NodeDataManager.t) (nodeId L : string)
    (panel : TextFilesManager.t) :
  (NodeDataManager.addLabelToNode now nodeId L self).1 = inr true ->
  let after := (NodeDataManager.addLabelToNode now nodeId L self).2 in
  let delivered :=
    TextFilesManager.deliverAll
      (drop (length (NodeDataManager.emitted self)) (NodeDataManager.emitted after)) panel in
  exists node' outs,
    NodeDataManager.getNodeById nodeId after = Some node'
    /\ NodeDataManager.outputLabels node' = Some outs
    /\ forall o, In o outs ->
         if JS.endsWith ".txt" o then TextFilesManager.hasId o delivered.1 = true
         else In (TextFilesManager.OutputAdded nodeId (NodeDataManager.type node') o
                    (TextFilesManager.getFileTypeFromExtension o)) delivered.2.
Proof.
  intros Hadd after delivered. subst after delivered.
  destruct (addLabelToNode_emits now self nodeId L Hadd)
    as (i & node & node2 & Hidx & Hnode & Hid2 & Hty2 & Hnodes & Hem).
  pose proof (updateNodeOutputs_fields now node2) as Hf. cbv zeta in Hf.
  destruct Hf as (Hid3 & Hty3 & _ & _ & _ & Hout3).
  destruct (updateNodeOutputs_events now node2) as (retracted & Hevs).
  set (node3 := (NodeDataManager.updateNodeOutputs now node2).1) in *.
  assert (Hnid : NodeDataManager.id node = nodeId).
  { apply findIndex_Some in Hidx as (n & Hn & Hn'). congruence. }
  exists node3. eexists. split_and!.
  - unfold NodeDataManager.getNodeById. rewrite Hnodes.
    rewrite (findIndex_insert _ _ _ node node3 Hidx Hnode) by congruence.
    apply list_lookup_insert_eq. eapply lookup_lt_Some, Hnode.
  - exact Hout3.
  - rewrite Hem, drop_app_length, Hevs, Hout3. cbn [default].
    rewrite !deliverAll_app.
    destruct (TextFilesManager.deliverAll (map _ retracted) panel) as [panel1 signals1].
    match goal with
    | |- context [TextFilesManager.deliverAll (map ?f ?outs) panel1] =>
        pose proof (deliverAll_created (NodeDataManager.id node2) (NodeDataManager.type node2)
                      (default [] (NodeDataManager.inputLabels node2)) outs panel1) as Hc
    end.
    cbv zeta in Hc.
    destruct (TextFilesManager.deliverAll (map _ _) panel1) as [panel2 signals2].
    cbn [TextFilesManager.deliverAll TextFilesManager.deliver fst snd app] in Hc |- *.
    destruct Hc as [_ Hall]. intros o Ho. specialize (Hall o Ho).
    destruct (JS.endsWith ".txt" o); [exact Hall|].
    rewrite app_nil_r. apply in_or_app. right.
    rewrite Hty3. rewrite Hid2, Hnid in Hall. exact Hall.
Qed.

Lemma outputs_reach_the_panel_witness :
  TextFilesManager.hasId "C-sum.txt"
    (TextFilesManager.deliverAll
       (NodeDataManager.emitted (NodeDataManager.addLabelToNode 5 "node_2" "C.txt" nodeStore).2)
       TextFilesManager.new).1
  = true.
Proof.
  destruct (outputs_reach_the_panel 5 nodeStore "node_2" "C.txt" TextFilesManager.new eq_refl)
    as (node' & outs & Hget & Houts & Hall).
  vm_compute in Hget. injection Hget as <-. cbn in Houts. injection Houts as <-.
  apply (Hall "C-sum.txt"). left. reflexivity.
Defined.

End OutputsToPanel.

(** ** Connections *)

Section Connections.

Import ConnectionManager.

Lemma sameLink_link (fromType fromId toType toId name : string) (c : Connection) :
  sameLink fromType fromId toType toId name c = true
  <-> link c = ({| kind := fromType; ref := fromId |}, {| kind := toType; ref := toId |}, name).
Proof.
  unfold sameLink, link. rewrite !andb_true_iff, !String.eqb_eq.
  destruct c as [i [fk fr] [tk tr] fn]. cbn. split.
  - intros [[[[-> ->] ->] ->] ->]. reflexivity.
  - intros [= -> -> -> -> ->]. auto.
Qed.

Lemma createConnection_cases (fromType fromId toType toId name stamp : string) (self : t) :
  let result := createConnection fromType fromId toType toId name stamp self in
  link result.1.1
  = ({| kind := fromType; ref := fromId |}, {| kind := toType; ref := toId |}, name)
  /\ ((In result.1.1 (connections self) /\ result.1.2 = self /\ result.2 = [])
      \/ (~ In (link result.1.1) (map link (connections self))
          /\ connections result.1.2 = (connections self ++ [result.1.1])%list
          /\ id result.1.1 = "conn_" +:+ stamp
          /\ result.2 = [ConnectionEstablished result.1.1])).
Proof.
  unfold createConnection.
  destruct (List.find _ (connections self)) as [existing|] eqn:Hfind; cbn [fst snd].
  - apply find_some in Hfind as [Hin Hsame]. apply sameLink_link in Hsame.
    split; [exact Hsame|]. left. auto.
  - split; [reflexivity|]. right. split_and!; try reflexivity.
    intros Hin. apply in_map_iff in Hin as (c & Hc & Hin).
    pose proof (find_none _ _ Hfind c Hin) as Hno.
    unfold link at 2 in Hc. cbn [from to fileName] in Hc.
    apply sameLink_link in Hc. congruence.
Qed.

Lemma distinctLinks_filter (f : Connection -> bool) (l : list Connection) :
  List.NoDup (map link l) -> List.NoDup (map link (List.filter f l)).
Proof.
  induction l as [|x l IH]; intros Hnd; [constructor|].
  inversion Hnd as [|? ? Hx Hl]; subst. cbn [List.filter].
  destruct (f x); [|apply IH, Hl]. cbn [map]. constructor; [|apply IH, Hl].
  intros Hin. apply Hx. apply in_map_iff in Hin as (y & Hy & Hin).
  apply filter_In in Hin as [Hin _]. rewrite <- Hy. apply in_map, Hin.
Qed.

Lemma createConnection_distinct (fromType fromId toType toId name stamp : string) (self : t) :
  distinctLinks self ->
  distinctLinks (createConnection fromType fromId toType toId name stamp self).1.2.
Proof.
  intros Hnd.
  destruct (createConnection_cases fromType fromId toType toId name stamp self)
    as [_ [(_ & -> & _) | (Hnew & Hconns & _)]]; [exact Hnd|].
  unfold distinctLinks. rewrite Hconns, map_app. cbn [map].
  apply NoDup_ListNoDup, NoDup_app. split_and!.
  - apply NoDup_ListNoDup, Hnd.
  - intros x Hx Hx'. apply list_elem_of_singleton in Hx'. subst x.
    apply Hnew, list_elem_of_In, Hx.
  - apply NoDup_singleton.
Qed.

Lemma filter_none {A} (f : A -> bool) (l : list A) :
  (forall x, In x l -> f x = false) -> List.filter f l = [].
Proof.
  induction l as [|x l IH]; intros H; [reflexivity|].
  cbn [List.filter]. rewrite (H x (or_introl eq_refl)). apply IH.
  intros y Hy. apply H. right. exact Hy.
Qed.

Lemma removeEach_connections (conns : list Connection) :
  forall self,
    connections (removeEach conns self).1
    = List.filter (fun c => negb (existsb (fun r => String.eqb (id c) (id r)) conns))
                  (connections self)
    /\ (removeEach conns self).2 = map (fun r => ConnectionRemoved (id r)) conns.
Proof.
  induction conns as [|r conns IH]; intros self; cbn [removeEach].
  - cbn. split; [|reflexivity]. symmetry. apply List.forallb_filter_id, forallb_forall.
    reflexivity.
  - cbn [removeConnection]. specialize (IH {| connections :=
        List.filter (fun c => negb (String.eqb (id c) (id r))) (connections self) |}).
    destruct (removeEach conns _) as [self2 signals2]. cbn [fst snd connections] in *.
    destruct IH as [-> ->]. split; [|reflexivity].
    rewrite filter_filter_negb. apply List.filter_ext. intros c. cbn [existsb].
    rewrite negb_orb. reflexivity.
Qed.

(** The manager never holds two connections that link the same ends with
    the same file: a new manager has none, and creating, removing and the
    handlers keep it so.  Creating a connection that exists already returns
    the existing one and changes nothing, so a second creation with the
    same ends and file is without effect. *)
Theorem connections_link_once :
  distinctLinks new
  /\ forall self, distinctLinks self ->
     (forall fromType fromId toType toId name stamp,
        let result := createConnection fromType fromId toType toId name stamp self in
        distinctLinks result.1.2
        /\ In result.1.1 (connections result.1.2)
        /\ link result.1.1
           = ({| kind := fromType; ref := fromId |}, {| kind := toType; ref := toId |}, name)
        /\ forall stamp',
             createConnection fromType fromId toType toId name stamp' result.1.2
             = (result.1.1, result.1.2, []))
     /\ (forall fromId toId label stamp,
           distinctLinks (handleCreateOutputConnection fromId toId label stamp self).1)
     /\ (forall fromId toId name stamp,
           distinctLinks (handleConnectionCreated fromId toId name stamp self).1)
     /\ (forall connectionId, distinctLinks (removeConnection connectionId self).1)
     /\ (forall nodeId, distinctLinks (handleNodeDeleted nodeId self).1)
     /\ distinctLinks (clearAllConnections self).1.
Proof.
  split; [constructor|]. intros self Hnd. split_and!.
  - intros fromType fromId toType toId name stamp result. subst result.
    pose proof (createConnection_distinct fromType fromId toType toId name stamp self Hnd)
      as Hnd'.
    destruct (createConnection_cases fromType fromId toType toId name stamp self)
      as [Hlink Hcases].
    assert (Hin : In (createConnection fromType fromId toType toId name stamp self).1.1
                     (connections (createConnection fromType fromId toType toId name stamp
                                     self).1.2)).
    { destruct Hcases as [(Hin & -> & _) | (_ & -> & _)]; [exact Hin|].
      apply in_or_app. right. left. reflexivity. }
    split_and!; [exact Hnd' | exact Hin | exact Hlink |].
    intros stamp'.
    set (c := (createConnection fromType fromId toType toId name stamp self).1.1) in *.
    set (self' := (createConnection fromType fromId toType toId name stamp self).1.2) in *.
    unfold createConnection.
    destruct (List.find _ (connections self')) as [existing|] eqn:Hfind.
    + apply find_some in Hfind as [Hex Hsame]. apply sameLink_link in Hsame.
      assert (existing = c) as ->; [|reflexivity].
      assert (Hl : link existing = link c) by congruence.
      clear -Hnd' Hex Hin Hl. unfold distinctLinks in Hnd'.
      induction (connections self') as [|x l IH]; [destruct Hin|].
      inversion Hnd' as [|? ? Hx Hl']; subst.
      destruct Hex as [<-|Hex], Hin as [<-|Hin]; try reflexivity.
      * exfalso. apply Hx. rewrite Hl. apply in_map, Hin.
      * exfalso. apply Hx. rewrite <- Hl. apply in_map, Hex.
      * apply IH; assumption.
    + exfalso. pose proof (find_none _ _ Hfind c Hin) as Hno.
      apply sameLink_link in Hlink. congruence.
  - intros fromId toId label stamp. unfold handleCreateOutputConnection.
    pose proof (createConnection_distinct "node" fromId "output-zone" toId label stamp self Hnd).
    destruct (createConnection _ _ _ _ _ _ self) as [[c s'] sg]. assumption.
  - intros fromId toId name stamp. unfold handleConnectionCreated.
    destruct fromId as [f|], toId as [t'|], name as [n|]; try exact Hnd.
    destruct (negb (String.eqb f "") && negb (String.eqb t' "") && negb (String.eqb n ""));
      [|exact Hnd].
    pose proof (createConnection_distinct "node" f "node" t' n stamp self Hnd).
    destruct (createConnection _ _ _ _ _ _ self) as [[c s'] sg]. assumption.
  - intros connectionId. apply distinctLinks_filter, Hnd.
  - intros nodeId. unfold handleNodeDeleted, distinctLinks.
    destruct (removeEach_connections (List.filter (involves nodeId) (connections self)) self)
      as [-> _].
    apply distinctLinks_filter, Hnd.
  - unfold clearAllConnections. destruct (removeEach _ self). constructor.
Qed.

(** After a node is deleted no connection involves it: the handler removes
    every connection that has the node at one end (and with it any
    connection that shares the id of one of those), announces each removal,
    and keeps the other connections in their order. *)
Theorem handleNodeDeleted_disconnects (nodeId : string) (self : t) :
  let result := handleNodeDeleted nodeId self in
  getConnectionsForNode nodeId result.1 = []
  /\ result.2 = map (fun c => ConnectionRemoved (id c)) (getConnectionsForNode nodeId self)
  /\ (forall c, In c (connections result.1) -> In c (connections self))
  /\ (List.NoDup (map id (connections self)) ->
      connections result.1
      = List.filter (fun c => negb (involves nodeId c)) (connections self)).
Proof.
  intros result. subst result. unfold handleNodeDeleted, getConnectionsForNode.
  destruct (removeEach_connections (List.filter (involves nodeId) (connections self)) self)
    as [Hconns Hsignals].
  rewrite Hconns, Hsignals. split_and!; try reflexivity.
  - rewrite filter_filter_negb.
    assert (H : forall c, In c (connections self) ->
                  negb (existsb (fun r => String.eqb (id c) (id r))
                                (List.filter (involves nodeId) (connections self)))
                  && involves nodeId c = false).
    { intros c Hc. destruct (involves nodeId c) eqn:Hinv; [|apply andb_false_r].
      rewrite andb_true_r. apply negb_false_iff, existsb_exists. exists c.
      split; [apply filter_In; auto | apply String.eqb_refl]. }
    apply filter_none, H.
  - intros c Hc. apply filter_In in Hc. tauto.
  - intros Hids. apply filter_ext_in_iff. intros c Hc. f_equal.
    apply eq_true_iff_eq. rewrite existsb_exists. split.
    + intros (r & Hr & Heq). apply filter_In in Hr as [Hr Hinv]. apply String.eqb_eq in Heq.
      assert (r = c) as <-; [|exact Hinv].
      clear -Hids Hr Hc Heq. induction (connections self) as [|x l IH]; [destruct Hc|].
      inversion Hids as [|? ? Hx Hl]; subst.
      destruct Hr as [<-|Hr], Hc as [<-|Hc]; try reflexivity.
      * exfalso. apply Hx. rewrite <- Heq. apply in_map, Hc.
      * exfalso. apply Hx. rewrite Heq. apply in_map, Hr.
      * apply IH; assumption.
    + intros Hinv. exists c. split; [apply filter_In; auto | apply String.eqb_refl].
Qed.

End Connections.

(** ** Node colors and node outputs *)

Section Colors.

Import NodeColorManager.

Lemma evaluateNodeColor_executable (node : NodeDataManager.NodeData) (colorState : ColorState) :
  evaluateNodeColor node = State colorState ->
  canExecute colorState = true ->
  In (NodeDataManager.type node) toolIds
  /\ minInputs (NodeDataManager.type node)
     <= length (default [] (NodeDataManager.inputLabels node))
  /\ (getPromptRequirement (NodeDataManager.type node) = mandatory ->
      NodeDataManager.hasValidUserPrompt node = true)
  /\ (color colorState = "yellow" \/ color colorState = "green").
Proof.
  unfold evaluateNodeColor.
  destruct (findToolById (NodeDataManager.type node)) eqn:Hfind; cbn [negb]; [|discriminate].
  apply arrIncludes_In in Hfind.
  destruct (Nat.ltb_spec (length (default [] (NodeDataManager.inputLabels node)))
              (minInputs (NodeDataManager.type node))) as [Hlt|Hge].
  { intros [= <-]. discriminate. }
  fold (NodeDataManager.hasValidUserPrompt node).
  destruct (getPromptRequirement (NodeDataManager.type node));
    destruct (NodeDataManager.hasValidUserPrompt node); cbn [negb];
    intros [= <-]; cbn; intros Hexec; split_and!;
    try assumption; try discriminate; try reflexivity; auto.
Qed.

(** A node that is shown as executable has outputs.  When the color
    evaluation of a node of a palette tool other than webscraper and
    template allows execution, the node is yellow or green, it has the
    inputs and the prompt that output generation asks for, and
    [updateNodeOutputs] gives it at least one output: one for join and
    analyzer, one per input for the other tools.  A text2template node is
    unknown to the palette and evaluates to the bare color red. *)
Theorem executable_nodes_have_outputs (now : nat) (node : NodeDataManager.NodeData) :
  (forall colorState,
     evaluateNodeColor node = State colorState ->
     canExecute colorState = true ->
     NodeDataManager.type node <> "webscraper" ->
     NodeDataManager.type node <> "template" ->
     (color colorState = "yellow" \/ color colorState = "green")
     /\ exists outs,
          NodeDataManager.outputLabels (NodeDataManager.updateNodeOutputs now node).1
          = Some outs
          /\ outs = NodeDataManager.generateSimulatedOutputs node
          /\ length outs
             = (if JS.arrIncludes (NodeDataManager.type node) ["join"; "analyzer"] then 1
                else length (default [] (NodeDataManager.inputLabels node)))
          /\ outs <> [])
  /\ (NodeDataManager.type node = "text2template" -> evaluateNodeColor node = Bare "red").
Proof.
  split.
  - intros colorState Heval Hexec Hweb Htemplate.
    destruct (evaluateNodeColor_executable node colorState Heval Hexec)
      as (Htool & Hmin & Hprompt & Hcolor).
    split; [exact Hcolor|].
    assert (Hfacts : In (NodeDataManager.type node) (map fst NodeDataManager.rules)
                     /\ NodeDataManager.minInputs
                          (NodeDataManager.getInputRules (NodeDataManager.type node))
                        = Some (minInputs (NodeDataManager.type node))
                     /\ 1 <= minInputs (NodeDataManager.type node)
                     /\ (NodeDataManager.getNodePromptRequirement (NodeDataManager.type node)
                         = NodeDataManager.mandatory ->
                         getPromptRequirement (NodeDataManager.type node) = mandatory)).
    { unfold toolIds in Htool.
      repeat (destruct Htool as [E|Htool];
              [symmetry in E;
               first [ contradiction
                     | rewrite E; split_and!;
                       [cbn; tauto | reflexivity | cbn; lia | first [reflexivity | discriminate]] ]
              |]).
      destruct Htool. }
    destruct Hfacts as (Htable & Hminsame & Hpos & Hmand).
    pose proof (generateSimulatedOutputs_length node Htable (fun H => Hprompt (Hmand H)))
      as Hlen.
    pose proof (updateNodeOutputs_fields now node) as Hf. cbv zeta in Hf.
    destruct Hf as (_ & _ & _ & _ & _ & Hout).
    exists (NodeDataManager.generateSimulatedOutputs node).
    assert (Hins : exists x rest, NodeDataManager.inputLabels node = Some (x :: rest)).
    { assert (Hlen1 : 1 <= length (default [] (NodeDataManager.inputLabels node))) by lia.
      destruct (NodeDataManager.inputLabels node) as [[|x rest]|]; cbn in Hlen1; try lia.
      eauto. }
    destruct Hins as (x & rest & Hins).
    split_and!.
    + rewrite Hout, Hins. rewrite Hins in Hmin.
      change (default [] (Some (x :: rest))) with (x :: rest) in Hmin.
      rewrite Hminsame. cbn [JS.geq].
      destruct (Nat.leb_spec (minInputs (NodeDataManager.type node)) (length (x :: rest)));
        [reflexivity | lia].
    + reflexivity.
    + exact Hlen.
    + intros Hnil. rewrite Hnil in Hlen. cbn [length] in Hlen.
      destruct (JS.arrIncludes _ _); [discriminate|]. rewrite Hins in Hlen. discriminate.
  - intros Hty. unfold evaluateNodeColor. rewrite Hty. reflexivity.
Qed.

Lemma executable_nodes_have_outputs_witness :
  exists outs,
    NodeDataManager.outputLabels
      (NodeDataManager.updateNodeOutputs 9 (toolNode "node_2" "summarizer" ["A.txt"])).1
    = Some outs
    /\ length outs = 1.
Proof.
  destruct (executable_nodes_have_outputs 9 (toolNode "node_2" "summarizer" ["A.txt"]))
    as [Hexec _].
  destruct (Hexec {| color := "yellow"; status := "warning";
                     message := "Using default: Brief summary"; canExecute := true |}
              eq_refl eq_refl ltac:(discriminate) ltac:(discriminate))
    as (_ & outs & Houts & _ & Hlen & _).
  exists outs. split; [exact Houts | exact Hlen].
Defined.

Lemma check_step (self : t) (validation : Validation) (node : NodeDataManager.NodeData) :
  let b c := if hasColor c self node then 1 else 0 in
  let result := check self validation node in
  total (summary result) = total (summary validation)
  /\ errors (summary result) = errors (summary validation) + b "red"
  /\ length (errorList result) = length (errorList validation) + b "red"
  /\ warnings (summary result) = warnings (summary validation) + b "yellow"
  /\ length (warningList result) = length (warningList validation) + b "yellow"
  /\ ready (summary result) = ready (summary validation) + b "green"
  /\ mayExecute result = mayExecute validation && negb (hasColor "red" self node)
  /\ b "red" + b "yellow" + b "green" <= 1.
Proof.
  unfold check, hasColor.
  destruct (nodeStates self !! NodeDataManager.id node) as [[c|cs]|];
    try (cbn; rewrite ?andb_true_r; split_and!; first [lia | reflexivity]).
  destruct (String.eqb_spec (color cs) "red") as [Hred|Hred].
  { rewrite ?Hred. cbn. rewrite length_app, andb_false_r. cbn. split_and!; first [lia | reflexivity]. }
  destruct (String.eqb_spec (color cs) "yellow") as [Hy|Hy].
  { rewrite ?Hy. cbn. rewrite length_app, andb_true_r. cbn. split_and!; first [lia | reflexivity]. }
  destruct (String.eqb_spec (color cs) "green") as [Hg|Hg].
  { rewrite ?Hg. cbn. rewrite andb_true_r. split_and!; first [lia | reflexivity]. }
  cbn. rewrite andb_true_r. split_and!; first [lia | reflexivity].
Qed.

Lemma check_run (self : t) (nodes : list NodeDataManager.NodeData) :
  forall validation,
    let count c := length (List.filter (hasColor c self) nodes) in
    let result := fold_left (check self) nodes validation in
    total (summary result) = total (summary validation)
    /\ errors (summary result) = errors (summary validation) + count "red"
    /\ length (errorList result) = length (errorList validation) + count "red"
    /\ warnings (summary result) = warnings (summary validation) + count "yellow"
    /\ length (warningList result) = length (warningList validation) + count "yellow"
    /\ ready (summary result) = ready (summary validation) + count "green"
    /\ mayExecute result
       = mayExecute validation && forallb (fun node => negb (hasColor "red" self node)) nodes
    /\ count "red" + count "yellow" + count "green" <= length nodes.
Proof.
  induction nodes as [|node nodes IH]; intros validation.
  - cbn. rewrite andb_true_r. split_and!; first [lia | reflexivity].
  - cbn [fold_left List.filter forallb length]. cbv zeta.
    destruct (IH (check self validation node)) as (Ht & He & Hel & Hw & Hwl & Hr & Hm & Hs).
    destruct (check_step self validation node) as (Ht' & He' & Hel' & Hw' & Hwl' & Hr' & Hm' & Hs').
    cbv zeta in *.
    rewrite Ht, He, Hel, Hw, Hwl, Hr, Hm, Ht', He', Hel', Hw', Hwl', Hr', Hm'.
    destruct (hasColor "red" self node), (hasColor "yellow" self node),
      (hasColor "green" self node); cbn [length negb andb] in *;
      rewrite ?andb_false_r, ?andb_true_r, ?andb_assoc; split_and!; try lia; reflexivity.
Qed.

Lemma mayExecute_no_red (nodes : list NodeDataManager.NodeData) (self : t) :
  mayExecute (validateWorkflowExecution nodes self) = true <->
  forall node, In node nodes -> hasColor "red" self node = false.
Proof.
  unfold validateWorkflowExecution.
  destruct (check_run self nodes
              {| mayExecute := true; errorList := []; warningList := [];
                 summary := {| total := length nodes; ready := 0; warnings := 0;
                               errors := 0 |} |})
    as (_ & _ & _ & _ & _ & _ & Hm & _).
  cbv zeta in Hm. rewrite Hm. cbn [mayExecute andb]. rewrite forallb_forall.
  split; intros H node Hn; specialize (H node Hn); apply negb_true_iff, H.
Qed.

(** The check before execution.  The summary counts every node; its
    errors, warnings and ready counts are the numbers of nodes whose stored
    state is red, yellow and green, the first two being the lengths of the
    two lists, and together they never exceed the total.  Execution is
    allowed exactly when the error list is empty, that is when no node has
    a stored state object that is red: a node whose stored evaluation is the
    bare string red (an unknown tool), or that has no stored state, is
    counted in the total only. *)
Theorem validateWorkflowExecution_counts (nodes : list NodeDataManager.NodeData) (self : t) :
  let validation := validateWorkflowExecution nodes self in
  let count c := length (List.filter (hasColor c self) nodes) in
  total (summary validation) = length nodes
  /\ errors (summary validation) = count "red"
  /\ length (errorList validation) = count "red"
  /\ warnings (summary validation) = count "yellow"
  /\ length (warningList validation) = count "yellow"
  /\ ready (summary validation) = count "green"
  /\ ready (summary validation) + warnings (summary validation) + errors (summary validation)
     <= total (summary validation)
  /\ (mayExecute validation = true <-> errorList validation = [])
  /\ (mayExecute validation = true <->
      forall node, In node nodes ->
                   forall colorState,
                     nodeStates self !! NodeDataManager.id node = Some (State colorState) ->
                     color colorState <> "red").
Proof.
  intros validation count. subst validation count.
  pose proof (mayExecute_no_red nodes self) as Hmay.
  unfold validateWorkflowExecution in *.
  destruct (check_run self nodes
              {| mayExecute := true; errorList := []; warningList := [];
                 summary := {| total := length nodes; ready := 0; warnings := 0;
                               errors := 0 |} |})
    as (Ht & He & Hel & Hw & Hwl & Hr & Hm & Hs).
  cbv zeta in *.
  cbn [summary total errors warnings ready errorList warningList mayExecute length
       Nat.add andb] in *.
  set (result := fold_left (check self) nodes _) in *.
  split_and!; try lia.
  - rewrite Hmay. split.
    + intros Hno. apply length_zero_iff_nil. rewrite Hel.
      rewrite (filter_none (hasColor "red" self) nodes Hno). reflexivity.
    + intros Hnil node Hn. rewrite Hnil in Hel. cbn [length] in Hel.
      destruct (hasColor "red" self node) eqn:E; [|reflexivity].
      assert (Hin : In node (List.filter (hasColor "red" self) nodes))
        by (apply filter_In; auto).
      destruct (List.filter (hasColor "red" self) nodes); [destruct Hin | discriminate].
  - rewrite Hmay. split.
    + intros Hno node Hn cs Hs' Hred. specialize (Hno node Hn).
      unfold hasColor in Hno. rewrite Hs', Hred in Hno. discriminate.
    + intros Hno node Hn. unfold hasColor.
      destruct (nodeStates self !! NodeDataManager.id node) as [[c|cs]|] eqn:E;
        try reflexivity.
      destruct (String.eqb_spec (color cs) "red") as [Hred|_]; [|reflexivity].
      destruct (Hno node Hn cs E Hred).
Qed.

Lemma forceUpdateAllNodes_other (nodes : list NodeDataManager.NodeData) :
  forall (self : t) (nodeId : string),
    ~ In nodeId (map NodeDataManager.id nodes) ->
    nodeStates (forceUpdateAllNodes nodes self) !! nodeId = nodeStates self !! nodeId.
Proof.
  unfold forceUpdateAllNodes.
  induction nodes as [|n nodes IH]; intros self nodeId Hout; [reflexivity|].
  cbn [fold_left]. rewrite IH by (intros Hin; apply Hout; right; exact Hin).
  unfold updateNodeColor. cbn [nodeStates].
  apply lookup_insert_ne. intros E. apply Hout. left. exact E.
Qed.

Lemma forceUpdateAllNodes_stored (nodes : list NodeDataManager.NodeData) :
  forall self : t,
    List.NoDup (map NodeDataManager.id nodes) ->
    forall node, In node nodes ->
                 nodeStates (forceUpdateAllNodes nodes self) !! NodeDataManager.id node
                 = Some (evaluateNodeColor node).
Proof.
  induction nodes as [|n nodes IH]; intros self Hnd node Hn; [destruct Hn|].
  cbn [map] in Hnd. inversion Hnd as [|? ? Hfresh Hrest]; subst.
  change (forceUpdateAllNodes (n :: nodes) self)
    with (forceUpdateAllNodes nodes
            (updateNodeColor (NodeDataManager.id n) (evaluateNodeColor n) self)).
  destruct Hn as [->|Hn].
  - rewrite forceUpdateAllNodes_other by exact Hfresh.
    unfold updateNodeColor. cbn [nodeStates]. apply lookup_insert_eq.
  - apply IH; assumption.
Qed.

(** After [forceUpdateAllNodes] on nodes with distinct ids, every one of
    them has its own evaluation stored, the states of other ids are as
    before, and [validateWorkflowExecution] allows execution exactly when
    every node of a palette tool evaluates to a state that can execute.  A
    node of a tool that the palette does not know evaluates to the bare
    string red and never blocks execution. *)
Theorem forceUpdateAllNodes_then_validate (nodes : list NodeDataManager.NodeData) (self : t) :
  List.NoDup (map NodeDataManager.id nodes) ->
  let updated := forceUpdateAllNodes nodes self in
  (forall node, In node nodes ->
     nodeStates updated !! NodeDataManager.id node = Some (evaluateNodeColor node))
  /\ (forall nodeId, ~ In nodeId (map NodeDataManager.id nodes) ->
        nodeStates updated !! nodeId = nodeStates self !! nodeId)
  /\ (mayExecute (validateWorkflowExecution nodes updated) = true <->
      forall node, In node nodes -> findToolById (NodeDataManager.type node) = true ->
                   exists colorState, evaluateNodeColor node = State colorState
                                      /\ canExecute colorState = true).
Proof.
  intros Hnd updated. subst updated.
  pose proof (forceUpdateAllNodes_stored nodes self Hnd) as Hstored.
  split_and!; [exact Hstored | intros; apply forceUpdateAllNodes_other; assumption |].
  rewrite mayExecute_no_red. split.
  - intros Hno node Hn Htool. specialize (Hno node Hn).
    unfold hasColor in Hno. rewrite (Hstored node Hn) in Hno.
    revert Hno. unfold evaluateNodeColor. rewrite Htool. cbn [negb].
    fold (NodeDataManager.hasValidUserPrompt node).
    destruct (_ <? _)%nat; [discriminate|].
    destruct (getPromptRequirement _); destruct (NodeDataManager.hasValidUserPrompt node);
      cbn [negb]; first [discriminate | intros _; eexists; split; reflexivity].
  - intros Hok node Hn. unfold hasColor. rewrite (Hstored node Hn).
    destruct (evaluateNodeColor node) as [c|cs] eqn:Heval; [reflexivity|].
    assert (Htool : findToolById (NodeDataManager.type node) = true).
    { unfold evaluateNodeColor in Heval. destruct (findToolById _); [reflexivity|discriminate]. }
    destruct (Hok node Hn Htool) as (cs' & Heval' & Hexec).
    rewrite Heval in Heval'. injection Heval' as E. subst cs'.
    destruct (evaluateNodeColor_executable node cs Heval Hexec) as (_ & _ & _ & [H|H]);
      rewrite H; reflexivity.
Qed.

Lemma forceUpdateAllNodes_then_validate_witness :
  mayExecute (validateWorkflowExecution
                [joinNode ["A.txt"; "B.txt"]; toolNode "node_2" "summarizer" ["A.txt"]]
                (forceUpdateAllNodes
                   [joinNode ["A.txt"; "B.txt"]; toolNode "node_2" "summarizer" ["A.txt"]]
                   new)) = true.
Proof.
  destruct (forceUpdateAllNodes_then_validate
              [joinNode ["A.txt"; "B.txt"]; toolNode "node_2" "summarizer" ["A.txt"]] new)
    as (_ & _ & Hmay).
  - apply NoDup_ListNoDup. cbn. repeat constructor; set_solver.
  - apply Hmay. intros node [<-|[<-|[]]] _; eexists; split; reflexivity.
Defined.

End Colors.

(** ** Output names of a batch *)

Section BatchNames.

Import OutputNaming.

Lemma generateOutputLabels_cases (inputs : list string) (ty : string) (ps : Params)
    (tn : option string) (self : t) :
  exists labels self',
    generateOutputLabels inputs ty ps tn self = Some (labels, self')
    /\ (forall x, is_Some (conflictCounter self !! x) -> is_Some (conflictCounter self' !! x))
    /\ ((getNodeCategory ty = "conversion" /\ self' = self
         /\ labels = map (fun label => label +:+ JS.toString (getOutputExtension ty)) inputs)
        \/ (getNodeCategory ty <> "conversion"
            /\ exists name, labels = [name] /\ conflictCounter self !! name = None
                            /\ is_Some (conflictCounter self' !! name))).
Proof.
  unfold generateOutputLabels.
  destruct (String.eqb_spec (getNodeCategory ty) "conversion") as [Hc|Hc].
  { eexists _, _. split; [reflexivity|]. split; [auto|]. left. auto. }
  assert (Hres : forall baseName extension,
            exists labels self',
              match resolveNamingConflict baseName extension self with
              | Some (name, self') => Some ([name], self')
              | None => None
              end = Some (labels, self')
              /\ (forall x, is_Some (conflictCounter self !! x) ->
                            is_Some (conflictCounter self' !! x))
              /\ ((getNodeCategory ty = "conversion" /\ self' = self
                   /\ labels = map (fun label => label +:+ JS.toString (getOutputExtension ty)) inputs)
                  \/ (getNodeCategory ty <> "conversion"
                      /\ exists name, labels = [name] /\ conflictCounter self !! name = None
                                      /\ is_Some (conflictCounter self' !! name)))).
  { intros baseName extension.
    destruct (resolveNamingConflict_fresh baseName extension self)
      as (name & self' & -> & Hnew & Hrec & Hgrow).
    exists [name], self'. split; [reflexivity|]. split; [exact Hgrow|]. right.
    split; [exact Hc|]. exists name. auto. }
  destruct (String.eqb (getNodeCategory ty) "processing"); [apply Hres|].
  destruct (String.eqb (getNodeCategory ty) "template"); apply Hres.
Qed.

Lemma generateOutputLabels_permuted (inputs inputs' : list string) (ty : string)
    (ps : Params) (tn : option string) (self : t) :
  inputs ≡ₚ inputs' -> getNodeCategory ty <> "conversion" ->
  generateOutputLabels inputs ty ps tn self = generateOutputLabels inputs' ty ps tn self.
Proof.
  intros Hp Hc. unfold generateOutputLabels.
  destruct (String.eqb_spec (getNodeCategory ty) "conversion") as [E|_]; [contradiction|].
  unfold generateProcessingOutput, generateTemplateOutput, generateDefaultOutput.
  rewrite (sort_order_independent inputs inputs' Hp). reflexivity.
Qed.

(** The names of a batch.  [generateBatchOutputs] always returns, with one
    entry for each node that has inputs, in order.  A conversion tool gets
    one name per input, made without the conflict tracker; every other tool
    gets one name from the tracker.  So when no node of the batch is a
    conversion tool, the output names of the batch are pairwise distinct,
    none was in the tracker before, and the order of the inputs of a node
    does not matter. *)
Theorem generateBatchOutputs_distinct (nodes : list Node) (self : t) :
  exists outputs self',
    generateBatchOutputs nodes self = Some (outputs, self')
    /\ map nodeId outputs
       = map id (List.filter (fun node => match default [] (inputLabels node) with
                                          | [] => false
                                          | _ => true
                                          end) nodes)
    /\ (forall output, In output outputs ->
          if String.eqb (getNodeCategory (toolType output)) "conversion"
          then outputLabels output
               = map (fun label => label +:+ JS.toString (getOutputExtension (toolType output)))
                     (batchInputs output)
          else length (outputLabels output) = 1)
    /\ ((forall node, In node nodes -> getNodeCategory (type node) <> "conversion") ->
        List.NoDup (concat (map outputLabels outputs))
        /\ (forall name, In name (concat (map outputLabels outputs)) ->
                         conflictCounter self !! name = None)
        /\ forall nodes',
             Forall2 (fun node node' =>
                        id node' = id node /\ type node' = type node
                        /\ params node' = params node /\ templateName node' = templateName node
                        /\ default [] (inputLabels node) ≡ₚ default [] (inputLabels node'))
                     nodes nodes' ->
             option_map (fun r => map outputLabels r.1) (generateBatchOutputs nodes' self)
             = Some (map outputLabels outputs)).
Proof.
  revert self. induction nodes as [|node nodes IH]; intros self.
  - exists [], self. split_and!; try reflexivity; [intros output [] |].
    intros _. split_and!; [constructor | intros name [] |].
    intros nodes' H. inversion H; subst. reflexivity.
  - cbn [generateBatchOutputs List.filter].
    destruct (default [] (inputLabels node)) as [|x inputs] eqn:Hin.
    + destruct (IH self) as (outputs & self' & Hrun & Hids & Hshape & Hfresh).
      exists outputs, self'. split_and!; try assumption.
      intros Hnc. destruct Hfresh as (Hnd & Hnew & Hperm).
      { intros n Hn. apply Hnc. right. exact Hn. }
      split_and!; try assumption.
      intros nodes' H. inversion H as [|? node' ? nodes'' (_ & _ & _ & _ & Hp) Hrest]; subst.
      cbn [generateBatchOutputs]. rewrite Hin in Hp.
      destruct (default [] (inputLabels node')) as [|x' inputs'];
        [|apply Permutation_length in Hp; discriminate].
      apply Hperm, Hrest.
    + destruct (generateOutputLabels_cases (x :: inputs) (type node) (params node)
                  (templateName node) self)
        as (labels & self1 & Hgen & Hgrow & Hcase).
      rewrite Hgen.
      destruct (IH self1) as (outputs & self2 & Hrun & Hids & Hshape & Hfresh).
      rewrite Hrun. eexists _, _. split; [reflexivity|]. split_and!.
      * cbn [map nodeId]. rewrite Hids. reflexivity.
      * intros output [<-|Hout]; [|apply Hshape, Hout]. cbn [toolType outputLabels batchInputs].
        destruct Hcase as [(Hc & _ & ->) | (Hc & name & -> & _)].
        -- rewrite Hc. reflexivity.
        -- destruct (String.eqb_spec (getNodeCategory (type node)) "conversion");
             [contradiction | reflexivity].
      * intros Hnc.
        destruct Hcase as [(Hc & _) | (Hc & name & -> & Hnew & Hrec)];
          [exfalso; apply (Hnc node); [left; reflexivity | exact Hc]|].
        destruct Hfresh as (Hnd & Hnew1 & Hperm).
        { intros n Hn. apply Hnc. right. exact Hn. }
        cbn [map outputLabels concat app]. split_and!.
        -- constructor; [|exact Hnd]. intros Hin'. specialize (Hnew1 name Hin').
           rewrite Hnew1 in Hrec. destruct Hrec as [? H]. discriminate.
        -- intros n [<-|Hn]; [exact Hnew|]. specialize (Hnew1 n Hn).
           destruct (conflictCounter self !! n) eqn:E; [|reflexivity].
           destruct (Hgrow n (ex_intro _ _ E)) as [? H]. congruence.
        -- intros nodes' H.
           inversion H as [|? node' ? nodes'' (Hid & Hty & Hps & Htn & Hp) Hrest]; subst.
           cbn [generateBatchOutputs]. rewrite Hin in Hp.
           destruct (default [] (inputLabels node')) as [|x' inputs'] eqn:Hin'.
           { apply Permutation_length in Hp. discriminate. }
           rewrite Hty, Hps, Htn.
           rewrite <- (generateOutputLabels_permuted (x :: inputs) (x' :: inputs') _ _ _ _ Hp Hc).
           rewrite Hgen. specialize (Hperm nodes'' Hrest).
           destruct (generateBatchOutputs nodes'' self1) as [[outputs' self2']|];
             [|discriminate].
           cbn in Hperm |- *. injection Hperm as Hperm. rewrite Hperm. reflexivity.
Qed.

End BatchNames.

(** ** Chaining tools *)

Section Chaining.

Import NodeDataManager.

Lemma fromLastDot_app (s1 s2 r : string) :
  JS.fromLastDot s2 = Some r -> JS.fromLastDot (s1 +:+ s2) = Some r.
Proof.
  intros H. induction s1 as [|c s1 IH]; [exact H|].
  change (String c s1 +:+ s2) with (String c (s1 +:+ s2)).
  cbn [JS.fromLastDot]. rewrite IH. reflexivity.
Qed.

Lemma getFileExtension_app (s ext : string) :
  JS.fromLastDot ext = Some ext -> getFileExtension (s +:+ ext) = JS.toLowerCase ext.
Proof.
  intros H. unfold getFileExtension. rewrite (fromLastDot_app s ext ext H). reflexivity.
Qed.

Lemma outputIndividualFiles_extension (inputs : list string) (suffix ext o : string) :
  JS.fromLastDot suffix = Some ext ->
  In o (outputIndividualFiles inputs suffix) -> getFileExtension o = JS.toLowerCase ext.
Proof.
  intros Hs Ho. unfold outputIndividualFiles in Ho. apply in_map_iff in Ho as (i & <- & _).
  unfold getFileExtension. rewrite (fromLastDot_app _ suffix ext Hs). reflexivity.
Qed.

Lemma generateSimulatedOutputs_extension (node : NodeData) (o : string) :
  In o (generateSimulatedOutputs node) ->
  getFileExtension o
  = if String.eqb (type node) "text2pdf" then ".pdf"
    else if String.eqb (type node) "text2docx" then ".docx"
    else ".txt".
Proof.
  unfold generateSimulatedOutputs. cbv zeta.
  destruct (String.eqb_spec (type node) "pdf2text") as [E|_];
    [rewrite E; intros H; exact (outputIndividualFiles_extension _ ".txt" ".txt" o eq_refl H)|].
  destruct (String.eqb_spec (type node) "audio2text") as [E|_];
    [rewrite E; intros H; exact (outputIndividualFiles_extension _ ".txt" ".txt" o eq_refl H)|].
  destruct (String.eqb_spec (type node) "image2text") as [E|_];
    [rewrite E; intros H; exact (outputIndividualFiles_extension _ ".txt" ".txt" o eq_refl H)|].
  destruct (String.eqb_spec (type node) "video2text") as [E|_];
    [rewrite E; intros H; exact (outputIndividualFiles_extension _ ".txt" ".txt" o eq_refl H)|].
  cbn [orb].
  destruct (String.eqb_spec (type node) "translator") as [E|_].
  { rewrite E. destruct (parseLanguageFromPrompt (userPrompt node)) as [lang|]; [|intros []].
    destruct (String.eqb lang ""); [intros []|]. intros H.
    refine (outputIndividualFiles_extension _ _ ".txt" o _ H).
    apply (fromLastDot_app "-"), (fromLastDot_app lang). reflexivity. }
  destruct (String.eqb_spec (type node) "summarizer") as [E|_];
    [rewrite E; intros H;
     exact (outputIndividualFiles_extension _ "-sum.txt" ".txt" o eq_refl H)|].
  destruct (String.eqb_spec (type node) "analyzer") as [E|_].
  { rewrite E. destruct (promptGiven (userPrompt node)); [|intros []].
    unfold outputCombinedFiles. intros [<-|[]].
    unfold getFileExtension. rewrite (fromLastDot_app _ "-anl.txt" ".txt" eq_refl). reflexivity. }
  destruct (String.eqb_spec (type node) "join") as [E|_].
  { rewrite E. unfold outputCombinedFiles. intros [<-|[]].
    unfold getFileExtension. rewrite (fromLastDot_app _ "-joi.txt" ".txt" eq_refl). reflexivity. }
  destruct (String.eqb_spec (type node) "text2pdf") as [E|_];
    [intros H; exact (outputIndividualFiles_extension _ ".pdf" ".pdf" o eq_refl H)|].
  destruct (String.eqb_spec (type node) "text2docx") as [E|_];
    [intros H; exact (outputIndividualFiles_extension _ ".docx" ".docx" o eq_refl H)|].
  destruct (String.eqb_spec (type node) "text2template") as [E|_]; [|intros []].
  destruct (promptGiven (userPrompt node)); [|intros []].
  intros H. exact (outputIndividualFiles_extension _ "-filled.txt" ".txt" o eq_refl H).
Qed.

(** The outputs of a tool feed the next tool.  Every output that a node
    generates is named with the extension of its tool: .pdf for text2pdf,
    .docx for text2docx and .txt for all others.  So every output of a
    tool that makes text is accepted as an input by each text tool, and
    every output of text2pdf by pdf2text, whatever the names of the inputs
    were. *)
Theorem outputs_feed_the_next_tool (node : NodeData) (o : string) :
  In o (generateSimulatedOutputs node) ->
  getFileExtension o
  = (if String.eqb (type node) "text2pdf" then ".pdf"
     else if String.eqb (type node) "text2docx" then ".docx"
     else ".txt")
  /\ (type node <> "text2pdf" -> type node <> "text2docx" ->
      forall ty, In ty ["summarizer"; "translator"; "analyzer"; "join"; "text2pdf";
                        "text2docx"; "text2template"] ->
                 isInputTypeValid ty o = inr true)
  /\ (type node = "text2pdf" -> isInputTypeValid "pdf2text" o = inr true).
Proof.
  intros Ho. pose proof (generateSimulatedOutputs_extension node o Ho) as Hext.
  split; [exact Hext|]. split.
  - intros Hpdf Hdocx ty Hty.
    destruct (String.eqb_spec (type node) "text2pdf") as [E|_]; [contradiction|].
    destruct (String.eqb_spec (type node) "text2docx") as [E|_]; [contradiction|].
    unfold isInputTypeValid. cbv zeta. rewrite Hext.
    cbn in Hty. repeat (destruct Hty as [<-|Hty]; [reflexivity|]). destruct Hty.
  - intros E. rewrite E in Hext. cbn in Hext. unfold isInputTypeValid. cbv zeta.
    rewrite Hext. reflexivity.
Qed.

Lemma outputs_feed_the_next_tool_witness :
  isInputTypeValid "translator" "AB-joi.txt" = inr true.
Proof.
  destruct (outputs_feed_the_next_tool (joinNode ["A.txt"; "B.txt"]) "AB-joi.txt")
    as (_ & Htext & _).
  - left. reflexivity.
  - apply Htext; [discriminate | discriminate |]. cbn. tauto.
Defined.

End Chaining.
